(** * gmail-dashboard: the email view state machine

    A shallow embedding of the client-side email store
    ([lib/stores/email-store.ts]), the UI store ([lib/stores/ui-store.ts])
    and the list component ([components/email/email-list.tsx]): the
    filter predicate, the store actions, the classification pipeline and
    the keyboard handler.  Around them: the Escape listener of the detail
    panel ([components/email/email-detail.tsx]), the filter bar
    ([components/email/email-filters.tsx]), the assistant's viewing
    context ([components/ai/ai-assistant-panel.tsx]), the classification
    route ([app/api/classifications/route.ts]) with the model call it
    makes ([lib/gemini.ts]), and the message-part and batching helpers of
    [lib/gmail.ts].

    JS [Map<string, V>] is a [gmap string V], JS [Set<string>] a
    [gset string] (only [has]/[add]/[delete]/[size] are used on them, so
    insertion order is not observable), arrays are lists, [T | null] is
    [option T].  An asynchronous function is split at its [await] into the
    part that runs before the request is sent and the part that runs when
    the response arrives. *)

From stdpp Require Import base numbers strings pretty list gmap fin_maps sets.
From Stdlib Require Import ZArith Lia Ascii.
From Stdlib Require Qcanon.

#[local] Set Warnings "-clear-no-such-hyp,-register-all".

Local Open Scope string_scope.
Local Open Scope Z_scope.

(** ** Data model (email-store.ts) *)

Inductive Priority := High | Medium | Low.

Inductive DateRange := All | Today | Week | Month.

#[global] Instance Priority_eq_dec : EqDecision Priority.
Proof. solve_decision. Defined.

#[global] Instance DateRange_eq_dec : EqDecision DateRange.
Proof. solve_decision. Defined.

Module Email.
Record t := mk {
  id : string;
  threadId : string;
  from : string;
  subject : string;
  date : string;
  snippet : string;
  isUnread : option bool;
  hasAttachment : option bool;
  labelIds : option (list string)
}.
End Email.

Module EmailClassification.
Record t := mk {
  id : string;
  emailId : string;
  userId : string;
  category : string;
  priority : Priority;
  isRedundant : bool;
  redundantOf : option string;
  aiReason : option string;
  confidence : option Qcanon.Qc;
  isManual : bool
}.
End EmailClassification.

Module UserTag.
Record t := mk {
  id : string;
  userId : string;
  name : string;
  color : string
}.
End UserTag.

Module EmailFilters.
Record t := mk {
  search : string;
  unreadOnly : bool;
  hasAttachment : bool;
  dateRange : DateRange;
  categories : list string;
  priorities : list Priority;
  tags : list string;
  excludeRedundant : bool
}.
End EmailFilters.

Module EmailState.
Record t := mk {
  emails : list Email.t;
  selectedEmailId : option string;
  selectedEmailIds : gset string;
  classifications : gmap string EmailClassification.t;
  userTags : list UserTag.t;
  emailTags : gmap string (list string);
  isClassifying : bool;
  pageToken : option string;
  hasMore : bool;
  isLoading : bool;
  isLoadingMore : bool;
  error : option string;
  filters : EmailFilters.t
}.
End EmailState.

Import EmailState.

Definition defaultFilters : EmailFilters.t :=
  {| EmailFilters.search := "";
     EmailFilters.unreadOnly := false;
     EmailFilters.hasAttachment := false;
     EmailFilters.dateRange := All;
     EmailFilters.categories := [];
     EmailFilters.priorities := [];
     EmailFilters.tags := [];
     EmailFilters.excludeRedundant := false |}.

(** The state [create] starts from. *)
Definition initialState : EmailState.t :=
  {| emails := [];
     selectedEmailId := None;
     selectedEmailIds := ∅;
     classifications := ∅;
     userTags := [];
     emailTags := ∅;
     isClassifying := false;
     pageToken := None;
     hasMore := false;
     isLoading := true;
     isLoadingMore := false;
     error := None;
     filters := defaultFilters |}.

(** JS truthiness of a [string | null]: [null] and the empty string are
    falsy ([!!pageToken], [if (currentSelectedId)], [if (query)]). *)
Definition truthy (o : option string) : bool :=
  match o with
  | None => false
  | Some s => negb (String.eqb s "")
  end.

(** [Array.prototype.includes] on an array of values with decidable
    equality. *)
Definition includes {A} `{EqDecision A} (x : A) (l : list A) : bool :=
  bool_decide (x ∈ l).

(** ** Store actions: zustand's [set] merges the given fields into the
    state, every other field is kept. *)

Definition setEmails (newEmails : list Email.t) (s : EmailState.t) : EmailState.t :=
  {| emails := newEmails;
     selectedEmailId := None;
     selectedEmailIds := ∅;
     classifications := classifications s;
     userTags := userTags s;
     emailTags := emailTags s;
     isClassifying := isClassifying s;
     pageToken := pageToken s;
     hasMore := hasMore s;
     isLoading := isLoading s;
     isLoadingMore := isLoadingMore s;
     error := error s;
     filters := filters s |}.

Definition appendEmails (newEmails : list Email.t) (token : option string)
    (s : EmailState.t) : EmailState.t :=
  {| emails := (emails s ++ newEmails)%list;
     selectedEmailId := selectedEmailId s;
     selectedEmailIds := selectedEmailIds s;
     classifications := classifications s;
     userTags := userTags s;
     emailTags := emailTags s;
     isClassifying := isClassifying s;
     pageToken := token;
     hasMore := truthy token;
     isLoading := isLoading s;
     isLoadingMore := isLoadingMore s;
     error := error s;
     filters := filters s |}.

Definition selectEmail (i : option string) (s : EmailState.t) : EmailState.t :=
  {| emails := emails s;
     selectedEmailId := i;
     selectedEmailIds := selectedEmailIds s;
     classifications := classifications s;
     userTags := userTags s;
     emailTags := emailTags s;
     isClassifying := isClassifying s;
     pageToken := pageToken s;
     hasMore := hasMore s;
     isLoading := isLoading s;
     isLoadingMore := isLoadingMore s;
     error := error s;
     filters := filters s |}.

Definition withSelection (sel : gset string) (s : EmailState.t) : EmailState.t :=
  {| emails := emails s;
     selectedEmailId := selectedEmailId s;
     selectedEmailIds := sel;
     classifications := classifications s;
     userTags := userTags s;
     emailTags := emailTags s;
     isClassifying := isClassifying s;
     pageToken := pageToken s;
     hasMore := hasMore s;
     isLoading := isLoading s;
     isLoadingMore := isLoadingMore s;
     error := error s;
     filters := filters s |}.

Definition toggleEmailSelection (i : string) (s : EmailState.t) : EmailState.t :=
  let newSelection := selectedEmailIds s in
  withSelection
    (if bool_decide (i ∈ newSelection)
     then newSelection ∖ {[ i ]}
     else newSelection ∪ {[ i ]}) s.

Definition selectAllEmails (s : EmailState.t) : EmailState.t :=
  withSelection (list_to_set (Email.id <$> emails s)) s.

Definition clearSelection (s : EmailState.t) : EmailState.t :=
  withSelection ∅ s.

Definition setLoading (b : bool) (s : EmailState.t) : EmailState.t :=
  {| emails := emails s;
     selectedEmailId := selectedEmailId s;
     selectedEmailIds := selectedEmailIds s;
     classifications := classifications s;
     userTags := userTags s;
     emailTags := emailTags s;
     isClassifying := isClassifying s;
     pageToken := pageToken s;
     hasMore := hasMore s;
     isLoading := b;
     isLoadingMore := isLoadingMore s;
     error := error s;
     filters := filters s |}.

Definition setLoadingMore (b : bool) (s : EmailState.t) : EmailState.t :=
  {| emails := emails s;
     selectedEmailId := selectedEmailId s;
     selectedEmailIds := selectedEmailIds s;
     classifications := classifications s;
     userTags := userTags s;
     emailTags := emailTags s;
     isClassifying := isClassifying s;
     pageToken := pageToken s;
     hasMore := hasMore s;
     isLoading := isLoading s;
     isLoadingMore := b;
     error := error s;
     filters := filters s |}.

Definition setError (e : option string) (s : EmailState.t) : EmailState.t :=
  {| emails := emails s;
     selectedEmailId := selectedEmailId s;
     selectedEmailIds := selectedEmailIds s;
     classifications := classifications s;
     userTags := userTags s;
     emailTags := emailTags s;
     isClassifying := isClassifying s;
     pageToken := pageToken s;
     hasMore := hasMore s;
     isLoading := isLoading s;
     isLoadingMore := isLoadingMore s;
     error := e;
     filters := filters s |}.

Definition setPageToken (token : option string) (s : EmailState.t) : EmailState.t :=
  {| emails := emails s;
     selectedEmailId := selectedEmailId s;
     selectedEmailIds := selectedEmailIds s;
     classifications := classifications s;
     userTags := userTags s;
     emailTags := emailTags s;
     isClassifying := isClassifying s;
     pageToken := token;
     hasMore := truthy token;
     isLoading := isLoading s;
     isLoadingMore := isLoadingMore s;
     error := error s;
     filters := filters s |}.

Definition setHasMore (b : bool) (s : EmailState.t) : EmailState.t :=
  {| emails := emails s;
     selectedEmailId := selectedEmailId s;
     selectedEmailIds := selectedEmailIds s;
     classifications := classifications s;
     userTags := userTags s;
     emailTags := emailTags s;
     isClassifying := isClassifying s;
     pageToken := pageToken s;
     hasMore := b;
     isLoading := isLoading s;
     isLoadingMore := isLoadingMore s;
     error := error s;
     filters := filters s |}.

Definition withFilters (f : EmailFilters.t) (s : EmailState.t) : EmailState.t :=
  {| emails := emails s;
     selectedEmailId := selectedEmailId s;
     selectedEmailIds := selectedEmailIds s;
     classifications := classifications s;
     userTags := userTags s;
     emailTags := emailTags s;
     isClassifying := isClassifying s;
     pageToken := pageToken s;
     hasMore := hasMore s;
     isLoading := isLoading s;
     isLoadingMore := isLoadingMore s;
     error := error s;
     filters := f |}.

(** The argument pair of [updateFilter<K>(key: K, value: EmailFilters[K])]:
    one constructor per key, carrying a value of that key's type. *)
Inductive FilterUpdate :=
| SetSearch (v : string)
| SetUnreadOnly (v : bool)
| SetHasAttachment (v : bool)
| SetDateRange (v : DateRange)
| SetCategories (v : list string)
| SetPriorities (v : list Priority)
| SetTags (v : list string)
| SetExcludeRedundant (v : bool).

(** [{ ...state.filters, [key]: value }] *)
Definition spreadFilter (f : EmailFilters.t) (u : FilterUpdate) : EmailFilters.t :=
  let 'EmailFilters.mk se un ha da ca pr ta ex := f in
  match u with
  | SetSearch v => EmailFilters.mk v un ha da ca pr ta ex
  | SetUnreadOnly v => EmailFilters.mk se v ha da ca pr ta ex
  | SetHasAttachment v => EmailFilters.mk se un v da ca pr ta ex
  | SetDateRange v => EmailFilters.mk se un ha v ca pr ta ex
  | SetCategories v => EmailFilters.mk se un ha da v pr ta ex
  | SetPriorities v => EmailFilters.mk se un ha da ca v ta ex
  | SetTags v => EmailFilters.mk se un ha da ca pr v ex
  | SetExcludeRedundant v => EmailFilters.mk se un ha da ca pr ta v
  end.

Definition updateFilter (u : FilterUpdate) (s : EmailState.t) : EmailState.t :=
  withFilters (spreadFilter (filters s) u) s.

Definition resetFilters (s : EmailState.t) : EmailState.t :=
  {| emails := emails s;
     selectedEmailId := selectedEmailId s;
     selectedEmailIds := selectedEmailIds s;
     classifications := classifications s;
     userTags := userTags s;
     emailTags := emailTags s;
     isClassifying := isClassifying s;
     pageToken := None;
     hasMore := hasMore s;
     isLoading := isLoading s;
     isLoadingMore := isLoadingMore s;
     error := error s;
     filters := defaultFilters |}.

Definition withEmails (l : list Email.t) (s : EmailState.t) : EmailState.t :=
  {| emails := l;
     selectedEmailId := selectedEmailId s;
     selectedEmailIds := selectedEmailIds s;
     classifications := classifications s;
     userTags := userTags s;
     emailTags := emailTags s;
     isClassifying := isClassifying s;
     pageToken := pageToken s;
     hasMore := hasMore s;
     isLoading := isLoading s;
     isLoadingMore := isLoadingMore s;
     error := error s;
     filters := filters s |}.

(** [{ ...email, isUnread: b }] *)
Definition withUnread (b : bool) (e : Email.t) : Email.t :=
  {| Email.id := Email.id e;
     Email.threadId := Email.threadId e;
     Email.from := Email.from e;
     Email.subject := Email.subject e;
     Email.date := Email.date e;
     Email.snippet := Email.snippet e;
     Email.isUnread := Some b;
     Email.hasAttachment := Email.hasAttachment e;
     Email.labelIds := Email.labelIds e |}.

Definition markAsRead (ids : list string) (s : EmailState.t) : EmailState.t :=
  withEmails
    (map (fun email => if includes (Email.id email) ids
                       then withUnread false email else email) (emails s)) s.

Definition markAsUnread (ids : list string) (s : EmailState.t) : EmailState.t :=
  withEmails
    (map (fun email => if includes (Email.id email) ids
                       then withUnread true email else email) (emails s)) s.

Definition withClassifications (m : gmap string EmailClassification.t)
    (s : EmailState.t) : EmailState.t :=
  {| emails := emails s;
     selectedEmailId := selectedEmailId s;
     selectedEmailIds := selectedEmailIds s;
     classifications := m;
     userTags := userTags s;
     emailTags := emailTags s;
     isClassifying := isClassifying s;
     pageToken := pageToken s;
     hasMore := hasMore s;
     isLoading := isLoading s;
     isLoadingMore := isLoadingMore s;
     error := error s;
     filters := filters s |}.

(** The loop [for (const [emailId, classification] of Object.entries(..))
    merged.set(emailId, classification)]: the entries are taken in
    iteration order, each one written over whatever [merged] holds. *)
Fixpoint mergeEntries (entries : list (string * EmailClassification.t))
    (merged : gmap string EmailClassification.t) : gmap string EmailClassification.t :=
  match entries with
  | [] => merged
  | (emailId, classification) :: rest =>
      mergeEntries rest (<[emailId := classification]> merged)
  end.

(** [newClassifications] is a [Record<string, EmailClassification>], given
    here by its [Object.entries]. *)
Definition setClassifications (newClassifications : list (string * EmailClassification.t))
    (s : EmailState.t) : EmailState.t :=
  withClassifications (mergeEntries newClassifications (classifications s)) s.

Definition setUserTags (tags : list UserTag.t) (s : EmailState.t) : EmailState.t :=
  {| emails := emails s;
     selectedEmailId := selectedEmailId s;
     selectedEmailIds := selectedEmailIds s;
     classifications := classifications s;
     userTags := tags;
     emailTags := emailTags s;
     isClassifying := isClassifying s;
     pageToken := pageToken s;
     hasMore := hasMore s;
     isLoading := isLoading s;
     isLoadingMore := isLoadingMore s;
     error := error s;
     filters := filters s |}.

Definition setEmailTags (emailId : string) (tagIds : list string)
    (s : EmailState.t) : EmailState.t :=
  {| emails := emails s;
     selectedEmailId := selectedEmailId s;
     selectedEmailIds := selectedEmailIds s;
     classifications := classifications s;
     userTags := userTags s;
     emailTags := <[emailId := tagIds]> (emailTags s);
     isClassifying := isClassifying s;
     pageToken := pageToken s;
     hasMore := hasMore s;
     isLoading := isLoading s;
     isLoadingMore := isLoadingMore s;
     error := error s;
     filters := filters s |}.

Definition setClassifying (b : bool) (s : EmailState.t) : EmailState.t :=
  {| emails := emails s;
     selectedEmailId := selectedEmailId s;
     selectedEmailIds := selectedEmailIds s;
     classifications := classifications s;
     userTags := userTags s;
     emailTags := emailTags s;
     isClassifying := b;
     pageToken := pageToken s;
     hasMore := hasMore s;
     isLoading := isLoading s;
     isLoadingMore := isLoadingMore s;
     error := error s;
     filters := filters s |}.

(** ** The filter predicate: the callback of [emails.filter] in
    [getFilteredEmails], one [if] per source branch. *)
Definition isVisible (s : EmailState.t) (email : Email.t) : bool :=
  let f := filters s in
  let classification := classifications s !! Email.id email in
  if (0 <? Z.of_nat (length (EmailFilters.categories f)))
     && match classification with
        | None => true
        | Some c => negb (includes (EmailClassification.category c)
                                   (EmailFilters.categories f))
        end
  then false
  else if (0 <? Z.of_nat (length (EmailFilters.priorities f)))
     && match classification with
        | None => true
        | Some c => negb (includes (EmailClassification.priority c)
                                   (EmailFilters.priorities f))
        end
  then false
  else if EmailFilters.excludeRedundant f
     && match classification with
        | None => false                       (* [classification?.isRedundant] *)
        | Some c => EmailClassification.isRedundant c
        end
  then false
  else if (0 <? Z.of_nat (length (EmailFilters.tags f)))
     && (let tags := default [] (emailTags s !! Email.id email) in
         negb (existsb (fun tagId => includes tagId tags) (EmailFilters.tags f)))
  then false
  else true.

Definition getFilteredEmails (s : EmailState.t) : list Email.t :=
  List.filter (isVisible s) (emails s).

(** ** UI store (ui-store.ts) *)

Inductive Widget := WEmail | WCalendar | WTasks | WNotes.

Module UIState.
Record t := mk {
  sidebarExpanded : bool;
  activeWidget : Widget;
  detailPanelOpen : bool;
  shortcutsModalOpen : bool
}.
End UIState.

Definition initialUI : UIState.t :=
  {| UIState.sidebarExpanded := true;
     UIState.activeWidget := WEmail;
     UIState.detailPanelOpen := false;
     UIState.shortcutsModalOpen := false |}.

Definition toggleSidebar (u : UIState.t) : UIState.t :=
  {| UIState.sidebarExpanded := negb (UIState.sidebarExpanded u);
     UIState.activeWidget := UIState.activeWidget u;
     UIState.detailPanelOpen := UIState.detailPanelOpen u;
     UIState.shortcutsModalOpen := UIState.shortcutsModalOpen u |}.

Definition setDetailPanel (b : bool) (u : UIState.t) : UIState.t :=
  {| UIState.sidebarExpanded := UIState.sidebarExpanded u;
     UIState.activeWidget := UIState.activeWidget u;
     UIState.detailPanelOpen := b;
     UIState.shortcutsModalOpen := UIState.shortcutsModalOpen u |}.

Definition openDetailPanel (u : UIState.t) : UIState.t := setDetailPanel true u.

Definition closeDetailPanel (u : UIState.t) : UIState.t := setDetailPanel false u.

Definition toggleDetailPanel (u : UIState.t) : UIState.t :=
  setDetailPanel (negb (UIState.detailPanelOpen u)) u.

(** ** The list component (email-list.tsx) *)

Module EmailForAI.
Record t := mk {
  id : string;
  from : string;
  subject : string;
  snippet : string;
  date : string
}.
End EmailForAI.

(** What the component sends to the server: [GET /api/gmail/messages] with
    its two optional search parameters, and [POST /api/classifications]
    with its JSON body. *)
Inductive Request :=
| GetMessages (q : option string) (pageTokenParam : option string)
| PostClassifications (batch : list EmailForAI.t) (existingEmailIds : list string).

(** Effects of an event handler other than store updates. *)
Inductive Effect :=
| PreventDefault
| Send (r : Request)
| ConsoleError (msg : string).

Definition isSend (e : Effect) : bool :=
  match e with
  | Send _ => true
  | _ => false
  end.

(** [buildQuery].  The date token is computed from [new Date()]; the clock
    is the parameter [isoAfter], which gives for a date range the text of
    [afterDate.toISOString().split("T")[0]]. *)
Definition buildQuery (isoAfter : DateRange -> string) (f : EmailFilters.t) : string :=
  let parts0 : list string := [] in
  let parts1 := if negb (String.eqb (EmailFilters.search f) "")
                then (parts0 ++ [EmailFilters.search f])%list else parts0 in
  let parts2 := if EmailFilters.unreadOnly f
                then (parts1 ++ ["is:unread"])%list else parts1 in
  let parts3 := if EmailFilters.hasAttachment f
                then (parts2 ++ ["has:attachment"])%list else parts2 in
  let parts4 := if bool_decide (EmailFilters.dateRange f ≠ All)
                then (parts3 ++ ["after:" +:+ isoAfter (EmailFilters.dateRange f)])%list
                else parts3 in
  String.concat " " parts4.

(** [fetchEmails(append)] up to its [await fetch(..)]: the loading flags
    and the request. *)
Definition fetchEmails_send (isoAfter : DateRange -> string) (append : bool)
    (s : EmailState.t) : EmailState.t * Request :=
  let s1 := if append then setLoadingMore true s
            else setError None (setLoading true s) in
  let query := buildQuery isoAfter (filters s) in
  (s1,
   GetMessages
     (if negb (String.eqb query "") then Some query else None)
     (if append && truthy (pageToken s) then pageToken s else None)).

(** The three ways the awaited request can end: a 2xx response with its
    JSON body, another status with the body's [error], or a rejected
    promise ([message] is [err.message] when [err] is an [Error]). *)
Inductive MessagesResponse :=
| MessagesOk (messages : option (list Email.t)) (nextPageToken : option string)
| MessagesNotOk (errorField : option string)
| MessagesThrow (message : option string).

(** [fetchEmails(append)] from the response on, [finally] included. *)
Definition fetchEmails_receive (append : bool) (resp : MessagesResponse)
    (s : EmailState.t) : EmailState.t :=
  let s1 :=
    match resp with
    | MessagesOk messages next =>
        if append then appendEmails (default [] messages) next s
        else setPageToken next (setEmails (default [] messages) s)
    | MessagesNotOk errorField =>
        setError (Some (if truthy errorField then default "" errorField
                        else "Failed to fetch emails")) s
    | MessagesThrow message =>
        setError (Some (default "An error occurred" message)) s
    end in
  setLoadingMore false (setLoading false s1).

(** One run of the effect [useEffect(() => { fetchEmails(); }, [filters])].
    React runs it after the first render and after every render in which
    [filters] is a different object.  [updateFilter] always stores a new
    object, so the effect runs after it, whichever key was written.
    [resetFilters] stores the module constant [defaultFilters]: see
    [resetFiltersEffect]. *)
Definition filtersEffect (isoAfter : DateRange -> string) (s : EmailState.t)
    : EmailState.t * list Effect :=
  let '(s1, r) := fetchEmails_send isoAfter false s in (s1, [Send r]).

(** One filter change as the component sees it: the store action, then the
    effect on [filters]. *)
Definition switchFilter (isoAfter : DateRange -> string) (u : FilterUpdate)
    (s : EmailState.t) : EmailState.t * list Effect :=
  filtersEffect isoAfter (updateFilter u s).

(** [resetFilters] as the component sees it.  The store action writes the
    module constant [defaultFilters], so [filters] is a different object
    after it only when the object held before was another one
    ([otherObject]): that is the case once an [updateFilter] has run since
    the store was created or last reset, and not when [filters] still is
    the constant.  The effect on [filters] runs in the first case only. *)
Definition resetFiltersEffect (isoAfter : DateRange -> string) (otherObject : bool)
    (s : EmailState.t) : EmailState.t * list Effect :=
  if otherObject then filtersEffect isoAfter (resetFilters s)
  else (resetFilters s, []).

(** The classification-derived keys of [EmailFilters]. *)
Definition classificationDerived (u : FilterUpdate) : bool :=
  match u with
  | SetCategories _ | SetPriorities _ | SetTags _ | SetExcludeRedundant _ => true
  | _ => false
  end.

(** The function inside the [useMemo] of [displayEmails]: what a render
    computes from the store when it computes the list anew. *)
Definition hasClassificationFilters (f : EmailFilters.t) : bool :=
  (0 <? Z.of_nat (length (EmailFilters.categories f)))
  || (0 <? Z.of_nat (length (EmailFilters.priorities f)))
  || EmailFilters.excludeRedundant f.

Definition displayEmails (s : EmailState.t) : list Email.t :=
  if hasClassificationFilters (filters s) then getFilteredEmails s else emails s.

(** The [useMemo] itself, with its dependency array [emails,
    filters.categories, filters.priorities, filters.excludeRedundant,
    getFilteredEmails]: a render computes the list anew when one of these
    is not the value of the render before ([Object.is]: the arrays by
    identity, the boolean by value; the store function never changes), and
    keeps the list it has, [memo], otherwise.  [filters.tags],
    [classifications] and [emailTags] are read by the function but are not
    in the array.  This is the list the component shows and the keyboard
    handler walks. *)
Definition useMemoDisplayEmails (depsChanged : bool) (memo : list Email.t)
    (s : EmailState.t) : list Email.t :=
  if depsChanged then displayEmails s else memo.

(** Whether [updateFilter u] changes a dependency of the memo.
    [{ ...state.filters, [key]: value }] keeps the arrays under the other
    keys.  The array written under [categories] or [priorities] is a new
    object when [freshArray] (the arrays that [toggleCategory] and
    [togglePriority] build always are) and the stored one otherwise. *)
Definition memoDepsChangedBy (freshArray : bool) (u : FilterUpdate)
    (s : EmailState.t) : bool :=
  match u with
  | SetCategories _ | SetPriorities _ => freshArray
  | SetExcludeRedundant v =>
      negb (Bool.eqb v (EmailFilters.excludeRedundant (filters s)))
  | SetSearch _ | SetUnreadOnly _ | SetHasAttachment _ | SetDateRange _
  | SetTags _ => false
  end.

(** The list shown once one filter change has been rendered, [memo] being
    the list shown before it.  The [setLoading(true)] and [setError(null)]
    of the effect change no dependency of the memo. *)
Definition displayedAfterSwitch (isoAfter : DateRange -> string) (freshArray : bool)
    (u : FilterUpdate) (memo : list Email.t) (s : EmailState.t) : list Email.t :=
  useMemoDisplayEmails (memoDepsChangedBy freshArray u s) memo
    (fst (switchFilter isoAfter u s)).

(** *** Classification pipeline ([classifyEmails] and [classifiedIdsRef]) *)

Definition toEmailForAI (e : Email.t) : EmailForAI.t :=
  {| EmailForAI.id := Email.id e;
     EmailForAI.from := Email.from e;
     EmailForAI.subject := Email.subject e;
     EmailForAI.snippet := Email.snippet e;
     EmailForAI.date := Email.date e |}.

(** [emails.filter((e) => !classifications.has(e.id) &&
    !classifiedIdsRef.current.has(e.id))] *)
Definition unclassified (s : EmailState.t) (classifiedIds : gset string) : list Email.t :=
  List.filter
    (fun e => negb (bool_decide (is_Some (classifications s !! Email.id e)))
              && negb (bool_decide (Email.id e ∈ classifiedIds)))
    (emails s).

(** [batch.forEach((e) => classifiedIdsRef.current.add(e.id))] *)
Definition addBatch (batch : list Email.t) (classifiedIds : gset string) : gset string :=
  foldl (fun ids e => ids ∪ {[ Email.id e ]}) classifiedIds batch.

(** [batch.forEach((e) => classifiedIdsRef.current.delete(e.id))] *)
Definition deleteBatch (batch : list Email.t) (classifiedIds : gset string) : gset string :=
  foldl (fun ids e => ids ∖ {[ Email.id e ]}) classifiedIds batch.

(** What [classifyEmails] works on: the store values its closure holds
    ([emails], [classifications], [isClassifying] and [isLoading] are all
    dependencies of the effect, so the timer is re-armed with a fresh
    closure whenever one of them changes) and the ref, read live. *)
Module Pipeline.
Record t := mk {
  store : EmailState.t;
  classifiedIdsRef : gset string
}.
End Pipeline.

(** [classifyEmails], run when the debounce timer fires, up to its
    [await fetch(..)].  The second component is the batch with the request
    sent for it, [None] when the function returns without sending. *)
Definition classifyEmails_send (p : Pipeline.t)
    : Pipeline.t * option (list Email.t * Request) :=
  let s := Pipeline.store p in
  if (Z.of_nat (length (emails s)) =? 0) || isClassifying s || isLoading s
  then (p, None)
  else
    let pending := unclassified s (Pipeline.classifiedIdsRef p) in
    if Z.of_nat (length pending) =? 0 then (p, None)
    else
      let batch := take 50 pending in
      ({| Pipeline.store := setClassifying true s;
          Pipeline.classifiedIdsRef := addBatch batch (Pipeline.classifiedIdsRef p) |},
       Some (batch,
             PostClassifications (map toEmailForAI batch) (map Email.id (emails s)))).

(** How the awaited [POST] can end: [response.ok] with the body's
    [classifications], another status, or an exception (the request
    rejects, or reading the body fails). *)
Inductive ClassifyResponse :=
| ClassifyOk (data : list (string * EmailClassification.t))
| ClassifyNotOk
| ClassifyThrow.

(** [classifyEmails] from the response on, [finally] included. *)
Definition classifyEmails_receive (batch : list Email.t) (resp : ClassifyResponse)
    (p : Pipeline.t) : Pipeline.t * list Effect :=
  let s := Pipeline.store p in
  let ids := Pipeline.classifiedIdsRef p in
  match resp with
  | ClassifyOk data =>
      ({| Pipeline.store := setClassifying false (setClassifications data s);
          Pipeline.classifiedIdsRef := ids |}, [])
  | ClassifyNotOk =>
      ({| Pipeline.store := setClassifying false s;
          Pipeline.classifiedIdsRef := deleteBatch batch ids |}, [])
  | ClassifyThrow =>
      ({| Pipeline.store := setClassifying false s;
          Pipeline.classifiedIdsRef := deleteBatch batch ids |},
       [ConsoleError "Failed to classify emails:"])
  end.

(** The debounce around [classifyEmails]: the effect ends in
    [const timer = setTimeout(classifyEmails, 1000); return () =>
    clearTimeout(timer);] and has the dependency array [emails,
    classifications, isClassifying, isLoading, setClassifications,
    setClassifying], whose last two are store functions that never change.
    Each run of the effect drops the timer of the run before and sets a new
    one.  [timerPending] says that a timer is set and has not fired. *)
Module Classifier.
Record t := mk {
  pipeline : Pipeline.t;
  timerPending : bool
}.
End Classifier.

(** Whether a store change makes the effect run again, which sets a new
    timer: the two flags are compared by value, [emails] and
    [classifications] by identity ([newObjects]: the change stored a new
    array or map). *)
Definition classifyDepsChanged (newObjects : bool) (before after : EmailState.t) : bool :=
  newObjects
  || negb (Bool.eqb (isClassifying before) (isClassifying after))
  || negb (Bool.eqb (isLoading before) (isLoading after)).

(** The pending timer fires: [classifyEmails] runs up to its [await]; the
    [setClassifying(true)] of a send changes a dependency, so a new timer
    is set at once. *)
Definition timerFires (c : Classifier.t)
    : Classifier.t * option (list Email.t * Request) :=
  if Classifier.timerPending c then
    let '(p', sent) := classifyEmails_send (Classifier.pipeline c) in
    ({| Classifier.pipeline := p';
        Classifier.timerPending :=
          classifyDepsChanged false (Pipeline.store (Classifier.pipeline c))
            (Pipeline.store p') |},
     sent)
  else (c, None).

(** The response of the request sent for [batch] arrives: the rest of
    [classifyEmails] runs, and the effect sets a timer when a dependency
    has changed ([setClassifications] always stores a new map). *)
Definition responseArrives (batch : list Email.t) (resp : ClassifyResponse)
    (c : Classifier.t) : Classifier.t * list Effect :=
  let '(p', effects) := classifyEmails_receive batch resp (Classifier.pipeline c) in
  ({| Classifier.pipeline := p';
      Classifier.timerPending :=
        Classifier.timerPending c
        || classifyDepsChanged
             (match resp with ClassifyOk _ => true | _ => false end)
             (Pipeline.store (Classifier.pipeline c)) (Pipeline.store p') |},
   effects).

(** *** Keyboard navigation ([handleKeyDown]) *)

Module KeyboardEvent.
Record t := mk {
  key : string;
  targetTagName : string;
  metaKey : bool;
  ctrlKey : bool
}.
End KeyboardEvent.

(** What the handler reads and writes: both stores (read afresh with
    [getState()] at each event), [selectedIndexRef] and the counter behind
    [forceRender]. *)
Module ListView.
Record t := mk {
  store : EmailState.t;
  uiStore : UIState.t;
  selectedIndexRef : Z;
  renderCount : nat
}.
End ListView.

(** An event handler either completes, leaving a state and its effects, or
    throws the [TypeError] of reading [.id] of [undefined]. *)
Inductive Completion :=
| Normal (v : ListView.t) (effects : list Effect)
| TypeError.

(** [Array.prototype.findIndex]: the first index whose element satisfies
    [p], [-1] when there is none. *)
Fixpoint findIndexFrom {A} (p : A -> bool) (l : list A) (i : Z) : Z :=
  match l with
  | [] => -1
  | x :: rest => if p x then i else findIndexFrom p rest (i + 1)
  end.

Definition findIndex {A} (p : A -> bool) (l : list A) : Z := findIndexFrom p l 0.

(** [l[i]] for a JS number [i]: [undefined] outside [0 .. length - 1]. *)
Definition at_index {A} (l : list A) (i : Z) : option A :=
  if i <? 0 then None else l !! Z.to_nat i.

(** [email.id === currentSelectedId] *)
Definition idIs (currentSelectedId : option string) (email : Email.t) : bool :=
  match currentSelectedId with
  | Some i => String.eqb (Email.id email) i
  | None => false
  end.

Definition withStore (s : EmailState.t) (v : ListView.t) : ListView.t :=
  {| ListView.store := s;
     ListView.uiStore := ListView.uiStore v;
     ListView.selectedIndexRef := ListView.selectedIndexRef v;
     ListView.renderCount := ListView.renderCount v |}.

Definition withUI (u : UIState.t) (v : ListView.t) : ListView.t :=
  {| ListView.store := ListView.store v;
     ListView.uiStore := u;
     ListView.selectedIndexRef := ListView.selectedIndexRef v;
     ListView.renderCount := ListView.renderCount v |}.

Definition withIndexRef (i : Z) (v : ListView.t) : ListView.t :=
  {| ListView.store := ListView.store v;
     ListView.uiStore := ListView.uiStore v;
     ListView.selectedIndexRef := i;
     ListView.renderCount := ListView.renderCount v |}.

(** [forceRender((n) => n + 1)] *)
Definition forceRender (v : ListView.t) : ListView.t :=
  {| ListView.store := ListView.store v;
     ListView.uiStore := ListView.uiStore v;
     ListView.selectedIndexRef := ListView.selectedIndexRef v;
     ListView.renderCount := S (ListView.renderCount v) |}.

(** The three statements of a cursor move: [store.selectEmail(id)],
    [selectedIndexRef.current = i], [forceRender(..)]. *)
Definition activate (i : Z) (email : Email.t) (v : ListView.t) : ListView.t :=
  forceRender (withIndexRef i
    (withStore (selectEmail (Some (Email.id email)) (ListView.store v)) v)).

Definition keyIs (e : KeyboardEvent.t) (k : string) : bool :=
  String.eqb (KeyboardEvent.key e) k.

(** [handleKeyDown].  [shown] is the [displayEmails] array the handler
    closes over (the effect registers a new handler whenever
    [displayEmails] changes). *)
Definition handleKeyDown (isoAfter : DateRange -> string) (shown : list Email.t)
    (e : KeyboardEvent.t) (v : ListView.t) : Completion :=
  if includes (KeyboardEvent.targetTagName e) ["INPUT"; "TEXTAREA"]
  then Normal v []
  else
    let store := ListView.store v in
    let uiStore := ListView.uiStore v in
    let currentSelectedId := selectedEmailId store in
    let currentIndex := findIndex (idIs currentSelectedId) shown in
    let len := Z.of_nat (length shown) in
    if keyIs e "j" || keyIs e "ArrowDown" then
      if currentIndex <? len - 1 then
        match at_index shown (currentIndex + 1) with
        | Some next =>
            Normal (activate (currentIndex + 1) next v) [PreventDefault]
        | None => TypeError
        end
      else if (currentIndex =? -1) && (0 <? len) then
        match at_index shown 0 with
        | Some first =>
            Normal (activate 0 first v) [PreventDefault]
        | None => TypeError
        end
      else Normal v [PreventDefault]
    else if keyIs e "k" || keyIs e "ArrowUp" then
      if 0 <? currentIndex then
        match at_index shown (currentIndex - 1) with
        | Some prev =>
            Normal (activate (currentIndex - 1) prev v) [PreventDefault]
        | None => TypeError
        end
      else Normal v [PreventDefault]
    else if keyIs e "Enter" || keyIs e "o" then
      if truthy currentSelectedId
      then Normal (forceRender (withUI (openDetailPanel uiStore) v)) []
      else Normal v []
    else if keyIs e "Escape" then
      if UIState.detailPanelOpen uiStore then
        Normal (forceRender (withUI (closeDetailPanel uiStore) v)) []
      else if 0 <? Z.of_nat (size (selectedEmailIds store)) then
        Normal (forceRender (withStore (clearSelection store) v)) []
      else
        Normal (forceRender (withStore (selectEmail None store) v)) []
    else if keyIs e "x" then
      match currentSelectedId with
      | Some i =>
          if truthy currentSelectedId
          then Normal (forceRender (withStore (toggleEmailSelection i store) v)) []
          else Normal v []
      | None => Normal v []
      end
    else if keyIs e "a" then
      if KeyboardEvent.metaKey e || KeyboardEvent.ctrlKey e
      then Normal (forceRender (withStore (selectAllEmails store) v)) [PreventDefault]
      else Normal v []
    else if keyIs e "r" then
      if negb (KeyboardEvent.metaKey e) && negb (KeyboardEvent.ctrlKey e)
      then let '(s1, r) := fetchEmails_send isoAfter false store in
           Normal (withStore s1 v) [Send r]
      else Normal v []
    else if keyIs e "[" then
      Normal (forceRender (withUI (toggleSidebar uiStore) v)) []
    else Normal v [].

(** The key events of the navigation inputs, sent from outside a text
    control. *)
Definition keyPress (k : string) : KeyboardEvent.t :=
  {| KeyboardEvent.key := k;
     KeyboardEvent.targetTagName := "DIV";
     KeyboardEvent.metaKey := false;
     KeyboardEvent.ctrlKey := false |}.

(** The store a completed handler leaves; a handler that threw leaves the
    store as it was. *)
Definition storeAfter (c : Completion) (v : ListView.t) : EmailState.t :=
  match c with
  | Normal v' _ => ListView.store v'
  | TypeError => ListView.store v
  end.

Definition viewAfter (c : Completion) (v : ListView.t) : ListView.t :=
  match c with
  | Normal v' _ => v'
  | TypeError => v
  end.

(** ** Sample data for the concrete scenarios *)

Definition sampleEmail (i : string) : Email.t :=
  {| Email.id := i;
     Email.threadId := "t-" +:+ i;
     Email.from := "Ada <ada@example.org>";
     Email.subject := "subject";
     Email.date := "Mon, 5 Jan 2026 10:00:00 +0000";
     Email.snippet := "snippet";
     Email.isUnread := Some true;
     Email.hasAttachment := None;
     Email.labelIds := None |}.

Definition sampleClassification (emailId category : string) (p : Priority)
    (redundant manual : bool) : EmailClassification.t :=
  {| EmailClassification.id := "c-" +:+ emailId;
     EmailClassification.emailId := emailId;
     EmailClassification.userId := "ada@example.org";
     EmailClassification.category := category;
     EmailClassification.priority := p;
     EmailClassification.isRedundant := redundant;
     EmailClassification.redundantOf := None;
     EmailClassification.aiReason := None;
     EmailClassification.confidence := None;
     EmailClassification.isManual := manual |}.

Definition sampleView (s : EmailState.t) (u : UIState.t) : ListView.t :=
  {| ListView.store := s;
     ListView.uiStore := u;
     ListView.selectedIndexRef := -1;
     ListView.renderCount := 0 |}.

Definition sampleClock (d : DateRange) : string := "2026-01-05".

(** The events the navigation inputs stand for. *)
Definition outsideTextControl (e : KeyboardEvent.t) : Prop :=
  includes (KeyboardEvent.targetTagName e) ["INPUT"; "TEXTAREA"] = false.

Definition isNext (e : KeyboardEvent.t) : Prop :=
  outsideTextControl e
  ∧ (KeyboardEvent.key e = "j" ∨ KeyboardEvent.key e = "ArrowDown").

Definition isPrev (e : KeyboardEvent.t) : Prop :=
  outsideTextControl e
  ∧ (KeyboardEvent.key e = "k" ∨ KeyboardEvent.key e = "ArrowUp").

Definition isClose (e : KeyboardEvent.t) : Prop :=
  outsideTextControl e ∧ KeyboardEvent.key e = "Escape".

(** The scenario: ids [1] and [2] were sent and are pending, id [3] is
    loaded after them; the unclassified messages are [3] alone, and a
    firing of the debounce submits exactly that one. *)
Definition scenarioPipeline : Pipeline.t :=
  {| Pipeline.store :=
       setLoading false (setEmails (sampleEmail <$> ["1"; "2"; "3"]) initialState);
     Pipeline.classifiedIdsRef := {[ "1"; "2" ]} |}.

(** ** The filter bar (email-filters.tsx) *)

(** [toggleCategory]: the clicked category is taken out of the selected
    categories when it is among them and put at their end otherwise, and
    the result is stored with [updateFilter]. *)
Definition toggleCategory (category : string) (s : EmailState.t) : EmailState.t :=
  let categories := EmailFilters.categories (filters s) in
  let newCategories :=
    if includes category categories
    then List.filter (fun c => negb (String.eqb c category)) categories
    else (categories ++ [category])%list in
  updateFilter (SetCategories newCategories) s.

(** [togglePriority], the same for the selected priorities. *)
Definition togglePriority (priority : Priority) (s : EmailState.t) : EmailState.t :=
  let priorities := EmailFilters.priorities (filters s) in
  let newPriorities :=
    if includes priority priorities
    then List.filter (fun p => negb (bool_decide (p = priority))) priorities
    else (priorities ++ [priority])%list in
  updateFilter (SetPriorities newPriorities) s.

(** [hasActiveFilters], which decides whether the clear-filters button is
    shown. *)
Definition hasActiveFilters (f : EmailFilters.t) : bool :=
  EmailFilters.unreadOnly f
  || EmailFilters.hasAttachment f
  || bool_decide (EmailFilters.dateRange f ≠ All)
  || (0 <? Z.of_nat (length (EmailFilters.categories f)))
  || (0 <? Z.of_nat (length (EmailFilters.priorities f)))
  || EmailFilters.excludeRedundant f.

(** ** The assistant panel's viewing context (ai-assistant-panel.tsx) *)

Inductive ContextType := CtxSelection | CtxFilter | CtxDefault.

(** The object literals [getContextualEmails] returns as [context]. *)
Module ViewingContext.
Record t := mk {
  type : ContextType;
  description : string;
  emailIds : list string;
  filters : option EmailFilters.t
}.
End ViewingContext.

(** The double-quote character that the template puts around
    [filters.search]. *)
Definition dquote : string :=
  String (Ascii.Ascii false true false false false true false false) EmptyString.

Definition priorityName (p : Priority) : string :=
  match p with
  | High => "high"
  | Medium => "medium"
  | Low => "low"
  end.

(** [rangeLabels[filters.dateRange]], read only when the range is not
    [all]. *)
Definition rangeLabel (d : DateRange) : string :=
  match d with
  | Today => "today"
  | Week => "past week"
  | Month => "past month"
  | All => ""
  end.

Definition buildFilterDescription (f : EmailFilters.t) : string :=
  let parts0 : list string := [] in
  let parts1 := if negb (String.eqb (EmailFilters.search f) "")
                then (parts0 ++ [dquote +:+ EmailFilters.search f +:+ dquote])%list
                else parts0 in
  let parts2 := if EmailFilters.unreadOnly f
                then (parts1 ++ ["unread"])%list else parts1 in
  let parts3 := if EmailFilters.hasAttachment f
                then (parts2 ++ ["with attachments"])%list else parts2 in
  let parts4 := if bool_decide (EmailFilters.dateRange f ≠ All)
                then (parts3 ++ [rangeLabel (EmailFilters.dateRange f)])%list
                else parts3 in
  let parts5 := if 0 <? Z.of_nat (length (EmailFilters.categories f))
                then (parts4 ++ [String.concat ", " (EmailFilters.categories f)])%list
                else parts4 in
  let parts6 := if 0 <? Z.of_nat (length (EmailFilters.priorities f))
                then (parts5 ++ [String.concat "/"
                                   (map priorityName (EmailFilters.priorities f))
                                 +:+ " priority"])%list
                else parts5 in
  let parts7 := if EmailFilters.excludeRedundant f
                then (parts6 ++ ["non-redundant"])%list else parts6 in
  if 0 <? Z.of_nat (length parts7)
  then String.concat ", " parts7 +:+ " emails"
  else "Filtered emails".

(** [hasFilters] of [getContextualEmails]: unlike [displayEmails] it counts
    the search text and the tags. *)
Definition hasFilters (f : EmailFilters.t) : bool :=
  negb (String.eqb (EmailFilters.search f) "")
  || EmailFilters.unreadOnly f
  || EmailFilters.hasAttachment f
  || bool_decide (EmailFilters.dateRange f ≠ All)
  || (0 <? Z.of_nat (length (EmailFilters.categories f)))
  || (0 <? Z.of_nat (length (EmailFilters.priorities f)))
  || (0 <? Z.of_nat (length (EmailFilters.tags f)))
  || EmailFilters.excludeRedundant f.

(** [getContextualEmails].  [Array.from(selectedEmailIds)] lists the set in
    insertion order, which a [gset] does not record: [emailIds] of the
    selection context is the set's elements in the order [elements] gives
    them. *)
Definition getContextualEmails (s : EmailState.t) : list Email.t * ViewingContext.t :=
  let n := size (selectedEmailIds s) in
  if 0 <? Z.of_nat n then
    let selectedEmails :=
      List.filter (fun e => bool_decide (Email.id e ∈ selectedEmailIds s)) (emails s) in
    (selectedEmails,
     {| ViewingContext.type := CtxSelection;
        ViewingContext.description :=
          pretty n +:+ " selected email" +:+ (if bool_decide (n ≠ 1%nat) then "s" else "");
        ViewingContext.emailIds := elements (selectedEmailIds s);
        ViewingContext.filters := None |})
  else if hasFilters (filters s) then
    let filteredEmails := getFilteredEmails s in
    let emailsToAnalyze := take 50 filteredEmails in
    (emailsToAnalyze,
     {| ViewingContext.type := CtxFilter;
        ViewingContext.description := buildFilterDescription (filters s);
        ViewingContext.emailIds := map Email.id emailsToAnalyze;
        ViewingContext.filters := Some (filters s) |})
  else
    let recentEmails := take 10 (emails s) in
    (recentEmails,
     {| ViewingContext.type := CtxDefault;
        ViewingContext.description := "Recent inbox";
        ViewingContext.emailIds := map Email.id recentEmails;
        ViewingContext.filters := None |}).

(** ** Gmail message parts and batched fetching (lib/gmail.ts) *)

Module PartBody.
Record t := mk {
  data : option string;
  size : option Z
}.
End PartBody.

(** [GmailMessagePart]: a MIME part with its optional nested parts. *)
Inductive GmailMessagePart :=
| MessagePart (mimeType : option string) (body : option PartBody.t)
              (parts : option (list GmailMessagePart)).

Definition partMimeType (p : GmailMessagePart) : option string :=
  match p with MessagePart m _ _ => m end.

Definition partBody (p : GmailMessagePart) : option PartBody.t :=
  match p with MessagePart _ b _ => b end.

Definition partParts (p : GmailMessagePart) : option (list GmailMessagePart) :=
  match p with MessagePart _ _ ps => ps end.

(** [part.mimeType === mimeType] *)
Definition mimeTypeIs (mimeType : string) (p : GmailMessagePart) : bool :=
  match partMimeType p with
  | Some m => String.eqb m mimeType
  | None => false
  end.

(** The [for (const part of parts)] loops of [findPart] and
    [checkForAttachments] return at the first part for which the body
    yields a value. *)
Fixpoint firstSome {A B} (f : A -> option B) (l : list A) : option B :=
  match l with
  | [] => None
  | x :: rest =>
      match f x with
      | Some found => Some found
      | None => firstSome f rest
      end
  end.

(** One turn of the loop of [findPart]: the part itself when its type
    matches, else the result of [findPart] on its nested parts. *)
Fixpoint findPartIn (mimeType : string) (part : GmailMessagePart)
    : option GmailMessagePart :=
  match part with
  | MessagePart m b ps =>
      if match m with Some t => String.eqb t mimeType | None => false end
      then Some part
      else match ps with
           | Some nested => firstSome (findPartIn mimeType) nested
           | None => None
           end
  end.

Definition findPart (parts : list GmailMessagePart) (mimeType : string)
    : option GmailMessagePart :=
  firstSome (findPartIn mimeType) parts.

(** [part.mimeType && !part.mimeType.startsWith("text/") &&
    !part.mimeType.startsWith("multipart/")] *)
Definition isAttachmentType (m : option string) : bool :=
  match m with
  | Some t =>
      negb (String.eqb t "")
      && negb (String.prefix "text/" t)
      && negb (String.prefix "multipart/" t)
  | None => false
  end.

(** One turn of the loop of [checkForAttachments]. *)
Fixpoint partHasAttachment (part : GmailMessagePart) : bool :=
  match part with
  | MessagePart m b ps =>
      if isAttachmentType m then true
      else match ps with
           | Some nested => existsb partHasAttachment nested
           | None => false
           end
  end.

(** [checkForAttachments(parts?)]: [false] without parts. *)
Definition checkForAttachments (parts : option (list GmailMessagePart)) : bool :=
  match parts with
  | None => false
  | Some l => existsb partHasAttachment l
  end.

(** The parts of a message in document order: each part before its nested
    parts, these before the part's later siblings.  This is the order
    the properties below refer to; the code does not compute it. *)
Fixpoint partsInOrderOf (part : GmailMessagePart) : list GmailMessagePart :=
  match part with
  | MessagePart m b ps =>
      part :: match ps with
              | Some nested => concat (map partsInOrderOf nested)
              | None => []
              end
  end.

Definition partsInOrder (parts : list GmailMessagePart) : list GmailMessagePart :=
  concat (map partsInOrderOf parts).

Module Payload.
Record t := mk {
  headers : list (string * string);
  mimeType : option string;
  body : option PartBody.t;
  parts : option (list GmailMessagePart)
}.
End Payload.

Module GmailMessage.
Record t := mk {
  id : string;
  threadId : string;
  snippet : string;
  labelIds : option (list string);
  payload : option Payload.t;
  internalDate : option string
}.
End GmailMessage.

(** [x?.body?.data] when it is truthy: a non-empty string. *)
Definition bodyData (b : option PartBody.t) : option string :=
  match b with
  | Some pb =>
      match PartBody.data pb with
      | Some d => if String.eqb d "" then None else Some d
      | None => None
      end
  | None => None
  end.

(** [extractBody].  [decodeBase64Url] works on the bytes of the decoded
    text ([atob], [decodeURIComponent]); it is the parameter [decode]. *)
Definition extractBody (decode : string -> string) (msg : GmailMessage.t)
    : string * bool :=
  match GmailMessage.payload msg with
  | None => ("", false)
  | Some payload =>
      match bodyData (Payload.body payload) with
      | Some d =>
          (decode d,
           match Payload.mimeType payload with
           | Some t => String.eqb t "text/html"
           | None => false
           end)
      | None =>
          let fallback := (GmailMessage.snippet msg, false) in
          match Payload.parts payload with
          | Some parts =>
              match
                match findPart parts "text/html" with
                | Some htmlPart => bodyData (partBody htmlPart)
                | None => None
                end
              with
              | Some d => (decode d, true)
              | None =>
                  match
                    match findPart parts "text/plain" with
                    | Some textPart => bodyData (partBody textPart)
                    | None => None
                    end
                  with
                  | Some d => (decode d, false)
                  | None => fallback
                  end
              end
          | None => fallback
          end
      end
  end.

(** How an asynchronous function ends in the model: its promise resolves,
    or rejects, or the function is still running when the fuel of the
    model is used up. *)
Inductive Outcome (R : Type) :=
| Resolved (r : R)
| Rejected
| OutOfFuel.

Arguments Resolved {R} r.
Arguments Rejected {R}.
Arguments OutOfFuel {R}.

(** [Promise.all]: the results in the order of the promises, rejected as
    soon as one of them is ([None] is a rejected promise). *)
Fixpoint promiseAll {R} (l : list (option R)) : option (list R) :=
  match l with
  | [] => Some []
  | Some r :: rest =>
      match promiseAll rest with
      | Some rs => Some (r :: rs)
      | None => None
      end
  | None :: rest => None
  end.

(** The loop of [fetchInBatches] from index [i] with [results] collected
    so far; the pause between two batches is not modelled. *)
Fixpoint fetchInBatches_from {T R} (fuel : nat) (items : list T)
    (fn : T -> option R) (batchSize : nat) (i : nat) (results : list R)
    : Outcome (list R) :=
  match fuel with
  | O => OutOfFuel
  | S fuel' =>
      if (i <? length items)%nat then
        let batch := take batchSize (drop i items) in
        match promiseAll (map fn batch) with
        | Some batchResults =>
            fetchInBatches_from fuel' items fn batchSize (i + batchSize)
              (results ++ batchResults)
        | None => Rejected
        end
      else Resolved results
  end.

(** [fetchInBatches(items, fn, batchSize)], with the fuel that a positive
    batch size never uses up. *)
Definition fetchInBatches {T R} (items : list T) (fn : T -> option R)
    (batchSize : nat) : Outcome (list R) :=
  fetchInBatches_from (S (length items)) items fn batchSize 0 [].

(** A multipart message: plain text and HTML alternatives and a PDF. *)
Definition sampleMultipart : GmailMessage.t :=
  {| GmailMessage.id := "m1";
     GmailMessage.threadId := "t1";
     GmailMessage.snippet := "Hello";
     GmailMessage.labelIds := Some ["INBOX"; "UNREAD"];
     GmailMessage.payload :=
       Some {| Payload.headers := [("From", "Ada <ada@example.org>")];
               Payload.mimeType := Some "multipart/mixed";
               Payload.body := Some {| PartBody.data := None; PartBody.size := Some 0 |};
               Payload.parts :=
                 Some [MessagePart (Some "multipart/alternative") None
                         (Some [MessagePart (Some "text/plain")
                                  (Some {| PartBody.data := Some "SGVsbG8";
                                           PartBody.size := Some 5 |}) None;
                                MessagePart (Some "text/html")
                                  (Some {| PartBody.data := Some "PGI-SGVsbG88L2I-";
                                           PartBody.size := Some 12 |}) None]);
                       MessagePart (Some "application/pdf")
                         (Some {| PartBody.data := None; PartBody.size := Some 900 |})
                         None] |};
     GmailMessage.internalDate := None |}.

(** ** Retry and error messages (lib/gemini.ts) *)

(** [hay.includes(needle)] on strings.  The needles of this file are
    ASCII, for which the answer is the same on UTF-16 code units and on
    the bytes of the text. *)
Fixpoint strIncludes (needle hay : string) : bool :=
  String.prefix needle hay
  || match hay with
     | EmptyString => false
     | String _ rest => strIncludes needle rest
     end.

(** [isRetryable] of [withRetry]; [toLowerCase] is the built-in, a
    parameter here. *)
Definition isRetryable (toLowerCase : string -> string) (message : string) : bool :=
  let errorMessage := toLowerCase message in
  strIncludes "503" errorMessage
  || strIncludes "overloaded" errorMessage
  || strIncludes "429" errorMessage
  || strIncludes "rate limit" errorMessage
  || strIncludes "network" errorMessage
  || strIncludes "timeout" errorMessage.

(** How [withRetry] ends: it returns the value of a call of [fn], or
    throws [lastError] ([null] when the loop body never ran). *)
Inductive RetryResult (T : Type) :=
| Returned (value : T)
| Threw (lastError : option string).

Arguments Returned {T} value.
Arguments Threw {T} lastError.

(** The [for] loop of [withRetry] with [left] iterations to go.  [fn k] is
    how the call number [k] of [fn] ends: a value, or the message of the
    error it rejects with.  The second component counts the calls made.
    The pause before a retry is not modelled. *)
Fixpoint withRetry_loop {T} (toLowerCase : string -> string)
    (fn : nat -> T + string) (maxRetries : nat) (left attempt : nat)
    (lastError : option string) : RetryResult T * nat :=
  match left with
  | O => (Threw lastError, attempt)
  | S left' =>
      match fn attempt with
      | inl value => (Returned value, S attempt)
      | inr message =>
          if negb (isRetryable toLowerCase message)
             || (attempt =? maxRetries - 1)%nat
          then (Threw (Some message), S attempt)
          else withRetry_loop toLowerCase fn maxRetries left' (S attempt)
                 (Some message)
      end
  end.

Definition withRetry {T} (toLowerCase : string -> string) (fn : nat -> T + string)
    (maxRetries : nat) : RetryResult T * nat :=
  withRetry_loop toLowerCase fn maxRetries maxRetries 0 None.

Definition MAX_RETRIES : nat := 3.

(** [getErrorMessage], on the message of the error. *)
Definition getErrorMessage (message : string) : string :=
  if strIncludes "503" message || strIncludes "overloaded" message then
    "The AI service is temporarily busy. Please try again in a moment."
  else if strIncludes "429" message || strIncludes "rate limit" message then
    "Too many requests. Please wait a moment before trying again."
  else if strIncludes "401" message || strIncludes "403" message then
    "Authentication error. Please check your API key configuration."
  else if strIncludes "404" message then
    "AI model not found. Please check the model configuration."
  else if strIncludes "network" message || strIncludes "timeout" message then
    "Network error. Please check your connection and try again."
  else "Something went wrong. Please try again.".

(** ASCII lower-casing, which [toLowerCase] is on ASCII text. *)
Definition lowerAscii (c : Ascii.ascii) : Ascii.ascii :=
  let n := Ascii.nat_of_ascii c in
  if (65 <=? n)%nat && (n <=? 90)%nat then Ascii.ascii_of_nat (n + 32) else c.

Fixpoint lowerString (s : string) : string :=
  match s with
  | EmptyString => EmptyString
  | String c rest => String (lowerAscii c) (lowerString rest)
  end.

(** ** Batch classification (lib/gemini.ts, api/classifications) *)

Module EmailClassificationResult.
Record t := mk {
  id : string;
  category : string;
  priority : Priority;
  isRedundant : bool;
  redundantOf : option string;
  reason : string;
  confidence : Qcanon.Qc
}.
End EmailClassificationResult.

(** What the model's answer amounts to once [withRetry], the regular
    expression and [JSON.parse] have run: the [classifications] array of
    the JSON object found in the text, no usable JSON (then
    [classifyEmailsBatch] returns the empty list), or the error the call
    rejects with after its retries. *)
Inductive GeminiReply :=
| ReplyClassifications (parsed : list EmailClassificationResult.t)
| ReplyUnusable
| ReplyError (message : string).

Definition withResultId (i : string) (c : EmailClassificationResult.t)
    : EmailClassificationResult.t :=
  {| EmailClassificationResult.id := i;
     EmailClassificationResult.category := EmailClassificationResult.category c;
     EmailClassificationResult.priority := EmailClassificationResult.priority c;
     EmailClassificationResult.isRedundant := EmailClassificationResult.isRedundant c;
     EmailClassificationResult.redundantOf := EmailClassificationResult.redundantOf c;
     EmailClassificationResult.reason := EmailClassificationResult.reason c;
     EmailClassificationResult.confidence := EmailClassificationResult.confidence c |}.

(** [parsed.classifications.map((c, i) => ({ ...c, id: emails[i]?.id ||
    c.id }))], from index [i] on. *)
Fixpoint assignIds_from (emails : list EmailForAI.t)
    (parsed : list EmailClassificationResult.t) (i : nat)
    : list EmailClassificationResult.t :=
  match parsed with
  | [] => []
  | c :: rest =>
      withResultId
        (match emails !! i with
         | Some e => if String.eqb (EmailForAI.id e) ""
                     then EmailClassificationResult.id c
                     else EmailForAI.id e
         | None => EmailClassificationResult.id c
         end) c
      :: assignIds_from emails rest (S i)
  end.

(** [classifyEmailsBatch], given the model's answer: the results, or the
    message of the error thrown. *)
Definition classifyEmailsBatch (reply : GeminiReply) (emails : list EmailForAI.t)
    : list EmailClassificationResult.t + string :=
  match reply with
  | ReplyClassifications parsed => inl (assignIds_from emails parsed 0)
  | ReplyUnusable => inl []
  | ReplyError message => inr message
  end.

(** The table behind [prisma.emailClassification]: [emailId] is the unique
    key of [upsert], so the table is a map from [emailId] to the row. *)
Abbreviation ClassificationTable := (gmap string EmailClassification.t).

(** Every row is stored under its own [emailId]. *)
Definition tableOk (db : ClassificationTable) : Prop :=
  ∀ k row, db !! k = Some row → EmailClassification.emailId row = k.

(** [findMany({ where: { userId, emailId: { in: ids } } })]: the rows
    found, in the order the table gives them. *)
Definition findManyFor (userId : string) (ids : list string)
    (db : ClassificationTable) : list EmailClassification.t :=
  (map_to_list
     (filter (fun kv => EmailClassification.userId kv.2 = userId ∧ kv.1 ∈ ids) db)).*2.

(** [result.redundantOf || null] *)
Definition orNull (o : option string) : option string :=
  match o with
  | Some s => if String.eqb s "" then None else Some s
  | None => None
  end.

(** [prisma.emailClassification.upsert] of the POST handler: the row it
    leaves for [result.id].  [rowId] gives the [id] of a created row (the
    schema's default, not part of these sources). *)
Definition upsertRow (rowId : string -> string) (userId : string)
    (result : EmailClassificationResult.t) (db : ClassificationTable)
    : EmailClassification.t :=
  let emailId := EmailClassificationResult.id result in
  match db !! emailId with
  | Some row =>
      {| EmailClassification.id := EmailClassification.id row;
         EmailClassification.emailId := EmailClassification.emailId row;
         EmailClassification.userId := EmailClassification.userId row;
         EmailClassification.category := EmailClassificationResult.category result;
         EmailClassification.priority := EmailClassificationResult.priority result;
         EmailClassification.isRedundant :=
           EmailClassificationResult.isRedundant result;
         EmailClassification.redundantOf :=
           orNull (EmailClassificationResult.redundantOf result);
         EmailClassification.aiReason :=
           Some (EmailClassificationResult.reason result);
         EmailClassification.confidence :=
           Some (EmailClassificationResult.confidence result);
         EmailClassification.isManual := EmailClassification.isManual row |}
  | None =>
      {| EmailClassification.id := rowId emailId;
         EmailClassification.emailId := emailId;
         EmailClassification.userId := userId;
         EmailClassification.category := EmailClassificationResult.category result;
         EmailClassification.priority := EmailClassificationResult.priority result;
         EmailClassification.isRedundant :=
           EmailClassificationResult.isRedundant result;
         EmailClassification.redundantOf :=
           orNull (EmailClassificationResult.redundantOf result);
         EmailClassification.aiReason :=
           Some (EmailClassificationResult.reason result);
         EmailClassification.confidence :=
           Some (EmailClassificationResult.confidence result);
         EmailClassification.isManual := false |}
  end.

(** [Promise.all(results.map(upsert))], the upserts taken in the order of
    the results: the table afterwards and the saved rows. *)
Fixpoint upsertAll (rowId : string -> string) (userId : string)
    (results : list EmailClassificationResult.t) (db : ClassificationTable)
    : ClassificationTable * list EmailClassification.t :=
  match results with
  | [] => (db, [])
  | result :: rest =>
      let row := upsertRow rowId userId result db in
      let '(db', saved) :=
        upsertAll rowId userId rest
          (<[EmailClassificationResult.id result := row]> db) in
      (db', row :: saved)
  end.

(** [for (const c of rows) classificationMap[c.emailId] = c], starting
    from the empty object. *)
Definition toClassificationMap (rows : list EmailClassification.t)
    : ClassificationTable :=
  mergeEntries (map (fun c => (EmailClassification.emailId c, c)) rows) ∅.

(** The JSON responses of the classification route. *)
Inductive ClassifyReply :=
| Classified (classifications : ClassificationTable) (cached : bool)
| ErrorJson (status : Z) (error : string).

(** [POST /api/classifications].  [userEmail] is [session?.user?.email];
    [gemini] gives the model's answer to the prompt built from the new
    emails and the known ids.  The request body is taken as parsed and the
    database calls as succeeding. *)
Definition postClassifications (rowId : string -> string)
    (gemini : list EmailForAI.t -> option (list string) -> GeminiReply)
    (userEmail : option string)
    (emails : option (list EmailForAI.t)) (existingEmailIds : option (list string))
    (db : ClassificationTable) : ClassifyReply * ClassificationTable :=
  if negb (truthy userEmail) then (ErrorJson 401 "Unauthorized", db)
  else
    let userId := default "" userEmail in
    match emails with
    | None => (ErrorJson 400 "No emails provided", db)
    | Some emails =>
        if Z.of_nat (length emails) =? 0
        then (ErrorJson 400 "No emails provided", db)
        else
          let emailsToClassify := take 30 emails in
          let existingClassifications :=
            findManyFor userId (map EmailForAI.id emailsToClassify) db in
          let existingIds : gset string :=
            list_to_set (map EmailClassification.emailId existingClassifications) in
          let newEmails :=
            List.filter
              (fun e => negb (bool_decide (EmailForAI.id e ∈ existingIds)))
              emailsToClassify in
          if Z.of_nat (length newEmails) =? 0
          then (Classified (toClassificationMap existingClassifications) true, db)
          else
            match classifyEmailsBatch (gemini newEmails existingEmailIds) newEmails with
            | inr message => (ErrorJson 500 (getErrorMessage message), db)
            | inl results =>
                let '(db', saved) := upsertAll rowId userId results db in
                (Classified
                   (toClassificationMap (existingClassifications ++ saved)%list)
                   false,
                 db')
            end
    end.

(** [s.split(",")] *)
Fixpoint splitComma (s : string) : list string :=
  match s with
  | EmptyString => [""]
  | String c rest =>
      if Ascii.eqb c ","%char then "" :: splitComma rest
      else match splitComma rest with
           | h :: t => String c h :: t
           | [] => [String c ""]
           end
  end.

(** [GET /api/classifications?ids=..]; [idsParam] is
    [searchParams.get("ids")]. *)
Definition getClassifications (userEmail : option string) (idsParam : option string)
    (db : ClassificationTable) : ClassifyReply :=
  if negb (truthy userEmail) then ErrorJson 401 "Unauthorized"
  else
    let ids :=
      match idsParam with
      | Some raw =>
          Some (List.filter (fun i => negb (String.eqb i "")) (splitComma raw))
      | None => None
      end in
    match ids with
    | None => ErrorJson 400 "Missing email IDs"
    | Some ids =>
        if Z.of_nat (length ids) =? 0 then ErrorJson 400 "Missing email IDs"
        else Classified (toClassificationMap (findManyFor (default "" userEmail) ids db))
               false
    end.

(** Two overloaded answers, then a result: three calls. *)
Definition flakyModel (k : nat) : string + string :=
  match k with
  | 0%nat => inr "503 Service Unavailable"
  | 1%nat => inr "The model is Overloaded"
  | _ => inl "ok"
  end.

(** What an upsert keeps of the row it finds, and what it puts in a row it
    creates. *)
Definition rowKept (userId k : string) (before : option EmailClassification.t)
    (after : EmailClassification.t) : Prop :=
  match before with
  | Some row =>
      EmailClassification.isManual after = EmailClassification.isManual row
      ∧ EmailClassification.userId after = EmailClassification.userId row
      ∧ EmailClassification.id after = EmailClassification.id row
      ∧ EmailClassification.emailId after = EmailClassification.emailId row
  | None =>
      EmailClassification.isManual after = false
      ∧ EmailClassification.userId after = userId
      ∧ EmailClassification.emailId after = k
  end.

(** The model answers with at most one classification per email of the
    request (what the prompt asks for). *)
Definition answersWithinRequest
    (gemini : list EmailForAI.t -> option (list string) -> GeminiReply) : Prop :=
  ∀ requested known,
    match gemini requested known with
    | ReplyClassifications parsed => (length parsed ≤ length requested)%nat
    | _ => True
    end.

(** A table with a manual row of [ada@example.org] for [m1]. *)
Definition sampleTable : ClassificationTable :=
  {[ "m1" := sampleClassification "m1" "work" High false true ]}.

(** A model that files every email under [promotions]. *)
Definition sampleGemini (requested : list EmailForAI.t) (known : option (list string))
    : GeminiReply :=
  ReplyClassifications
    (map (fun e => {| EmailClassificationResult.id := EmailForAI.id e;
                      EmailClassificationResult.category := "promotions";
                      EmailClassificationResult.priority := Low;
                      EmailClassificationResult.isRedundant := false;
                      EmailClassificationResult.redundantOf := None;
                      EmailClassificationResult.reason := "bulk sender";
                      EmailClassificationResult.confidence := 1%Qc |})
         requested).

(** Thirty-one loaded, unclassified messages with ids [1] to [31], nothing
    sent yet. *)
Definition bigBatch : list Email.t :=
  map (fun n => sampleEmail (pretty n)) (seq 1 31).

Definition bigPipeline : Pipeline.t :=
  {| Pipeline.store := setLoading false (setEmails bigBatch initialState);
     Pipeline.classifiedIdsRef := ∅ |}.

(** Whether a string contains a comma. *)
Fixpoint hasComma (s : string) : bool :=
  match s with
  | EmptyString => false
  | String c rest => Ascii.eqb c ","%char || hasComma rest
  end.

(** ** The detail panel's own Escape listener (email-detail.tsx) *)

(** [handleKeyDown] of the effect under [// Close on escape] in
    [EmailDetail].  [detailPanelOpen] is the value that the render which
    registered the listener read from the UI store; it is a dependency of
    the effect, so the listener is registered anew in the render after each
    change of it.  The handler looks neither at the target of the event nor
    at the email store. *)
Definition detailHandleKeyDown (detailPanelOpen : bool) (e : KeyboardEvent.t)
    (v : ListView.t) : ListView.t :=
  if keyIs e "Escape" && detailPanelOpen
  then withUI (closeDetailPanel (ListView.uiStore v)) v
  else v.

(** The two [keydown] listeners that the mounted list has on [window]:
    [EmailList]'s, with the list it closes over, and [EmailDetail]'s, with
    the flag it closes over. *)
Inductive KeyListener :=
| EmailListListener (shown : list Email.t)
| EmailDetailListener (detailPanelOpen : bool).

Definition runListener (isoAfter : DateRange -> string) (l : KeyListener)
    (e : KeyboardEvent.t) (v : ListView.t) : Completion :=
  match l with
  | EmailListListener shown => handleKeyDown isoAfter shown e v
  | EmailDetailListener detailPanelOpen =>
      Normal (detailHandleKeyDown detailPanelOpen e v) []
  end.

(** One [keydown] event on [window]: the listeners are called in the order
    of their registration, each on the stores as the one before it left
    them ([EmailList]'s reads them with [getState()]); an exception thrown
    by one is reported and the next one still runs. *)
Fixpoint dispatchKeyDown (isoAfter : DateRange -> string) (listeners : list KeyListener)
    (e : KeyboardEvent.t) (v : ListView.t) : ListView.t * list Effect :=
  match listeners with
  | [] => (v, [])
  | l :: rest =>
      match runListener isoAfter l e v with
      | Normal v1 effects =>
          let '(v2, more) := dispatchKeyDown isoAfter rest e v1 in
          (v2, (effects ++ more)%list)
      | TypeError => dispatchKeyDown isoAfter rest e v
      end
  end.

(** The order of the two listeners while the panel is open.  Each effect
    removes its listener and adds a new one, at the end, when one of its
    dependencies changes: [displayEmails] and [fetchEmails] for
    [EmailList], [detailPanelOpen] for [EmailDetail].  Opening the panel
    therefore leaves the detail's listener last.  When the body of the
    opened message has loaded, [EmailDetail] calls [markAsRead], which
    stores a new [emails] array; [displayEmails] is computed anew and the
    list's listener is registered again, now behind the detail's. *)
Definition listenersAfterOpen (shown : list Email.t) : list KeyListener :=
  [EmailListListener shown; EmailDetailListener true].

Definition listenersAfterBodyLoaded (shown : list Email.t) : list KeyListener :=
  [EmailDetailListener true; EmailListListener shown].

(** The panel is open on message [B], whose body has loaded, and [A] is
    checked. *)
Definition openedAndChecked : ListView.t :=
  sampleView
    (markAsRead ["B"]
       (toggleEmailSelection "A"
          (selectEmail (Some "B")
             (setEmails (sampleEmail <$> ["A"; "B"; "C"]) initialState))))
    (openDetailPanel initialUI).

(** ** Sample data for the memo and the debounce *)

(** Two loaded messages filed under [finance], the second carrying the
    user tag [t1]; the category filter is [finance]. *)
Definition taggedStore : EmailState.t :=
  updateFilter (SetCategories ["finance"])
    (setEmailTags "m2" ["t1"]
       (setClassifications
          [("m1", sampleClassification "m1" "finance" Medium false false);
           ("m2", sampleClassification "m2" "finance" Medium false false)]
          (setLoading false
             (setPageToken (Some "x")
                (setEmails [sampleEmail "m1"; sampleEmail "m2"] initialState))))).

(** The scenario of [scenarioPipeline] with the timer of the debounce set. *)
Definition scenarioClassifier : Classifier.t :=
  {| Classifier.pipeline := scenarioPipeline; Classifier.timerPending := true |}.

(** Whether a string holds nothing but commas. *)
Fixpoint onlyCommas (s : string) : bool :=
  match s with
  | EmptyString => true
  | String c rest => Ascii.eqb c ","%char && onlyCommas rest
  end.

(** * Properties *)

(** ** The visible set *)

Lemma elem_of_getFilteredEmails (s : EmailState.t) (m : Email.t) :
  m ∈ getFilteredEmails s ↔ m ∈ emails s ∧ isVisible s m = true.
Proof.
  unfold getFilteredEmails. rewrite !list_elem_of_In. apply filter_In.
Qed.

Lemma list_filter_sublist {A} (p : A -> bool) (l : list A) :
  List.filter p l `sublist_of` l.
Proof.
  induction l as [|x l IH]; simpl.
  - constructor.
  - destruct (p x).
    + by apply sublist_skip.
    + by apply sublist_cons.
Qed.

(** C10: [getFilteredEmails] returns an order-preserving sublist of the
    loaded list: the result is obtained from [emails] by deleting
    elements (so relative order is the provider order and nothing is
    duplicated or invented), and every returned message is a loaded
    one.  The list that the memo of [displayEmails] computes from a
    store is a sublist of its loaded list as well. *)
Theorem getFilteredEmails_sublist (s : EmailState.t) :
  getFilteredEmails s `sublist_of` emails s
  ∧ getFilteredEmails s ⊆ emails s
  ∧ displayEmails s `sublist_of` emails s.
Proof.
  split; [| split].
  - apply list_filter_sublist.
  - intros m Hm. by apply elem_of_getFilteredEmails in Hm as [? _].
  - unfold displayEmails. destruct (hasClassificationFilters (filters s)).
    + apply list_filter_sublist.
    + reflexivity.
Qed.

(** C4: with a non-empty category filter, a message without an entry in
    the classification map is not visible and is not returned by
    [getFilteredEmails]. *)
Theorem category_filter_fail_closed (s : EmailState.t) (m : Email.t) :
  EmailFilters.categories (filters s) ≠ [] →
  classifications s !! Email.id m = None →
  isVisible s m = false ∧ m ∉ getFilteredEmails s.
Proof.
  intros Hcat Hnone.
  assert (Hvis : isVisible s m = false).
  { unfold isVisible. rewrite Hnone.
    destruct (EmailFilters.categories (filters s)); [done | reflexivity]. }
  split; [exact Hvis |].
  rewrite elem_of_getFilteredEmails. intros [_ Hv]. congruence.
Qed.

Lemma category_filter_fail_closed_witness :
  let s := updateFilter (SetCategories ["finance"])
             (setEmails [sampleEmail "m1"] initialState) in
  isVisible s (sampleEmail "m1") = false
  ∧ sampleEmail "m1" ∉ getFilteredEmails s.
Proof.
  apply (category_filter_fail_closed
           (updateFilter (SetCategories ["finance"])
              (setEmails [sampleEmail "m1"] initialState))
           (sampleEmail "m1")).
  - simpl. discriminate.
  - reflexivity.
Defined.

(** The scenario of a category filter over five loaded messages, two
    classified [finance], one [work], two unclassified. *)
Example category_scenario :
  let s := updateFilter (SetCategories ["finance"])
             (setClassifications
                [("m1", sampleClassification "m1" "finance" High false false);
                 ("m3", sampleClassification "m3" "work" Low false false);
                 ("m4", sampleClassification "m4" "finance" Medium false false)]
                (setEmails (sampleEmail <$> ["m1"; "m2"; "m3"; "m4"; "m5"])
                   initialState)) in
  getFilteredEmails s = [sampleEmail "m1"; sampleEmail "m4"].
Proof. vm_compute. reflexivity. Qed.

Lemma existsb_includes (wanted have : list string) :
  existsb (fun tagId => includes tagId have) wanted = true
  ↔ ∃ tagId, tagId ∈ wanted ∧ tagId ∈ have.
Proof.
  rewrite existsb_exists. unfold includes. split.
  - intros (x & Hin & Hx). exists x. split.
    + by apply list_elem_of_In.
    + by apply bool_decide_eq_true in Hx.
  - intros (x & Hin & Hx). exists x. split.
    + by apply list_elem_of_In.
    + by apply bool_decide_eq_true.
Qed.

(** C3 (as stated, refuted): the exclude-redundant filter is active, the
    loaded message [m1] has no classification, and [getFilteredEmails]
    returns it. *)
Lemma exclude_redundant_shows_unclassified :
  let s := updateFilter (SetExcludeRedundant true)
             (setEmails [sampleEmail "m1"] initialState) in
  EmailFilters.excludeRedundant (filters s) = true
  ∧ sampleEmail "m1" ∈ emails s
  ∧ classifications s !! Email.id (sampleEmail "m1") = None
  ∧ getFilteredEmails s = [sampleEmail "m1"].
Proof.
  repeat split.
  apply list_elem_of_In. left. reflexivity.
Qed.

(** C3 (amended): when the exclude-redundant filter is active and [m] has
    no classification, the exclude-redundant branch lets [m] through:
    [m] is visible exactly when the category and priority filters are
    empty and the tag filter is empty or met by one of [m]'s tags.  With
    exclude-redundant as the only active filter a loaded unclassified
    message is in the visible set. *)
Theorem exclude_redundant_unclassified (s : EmailState.t) (m : Email.t) :
  EmailFilters.excludeRedundant (filters s) = true →
  classifications s !! Email.id m = None →
  (isVisible s m = true ↔
     EmailFilters.categories (filters s) = []
     ∧ EmailFilters.priorities (filters s) = []
     ∧ (EmailFilters.tags (filters s) = []
        ∨ ∃ tagId, tagId ∈ EmailFilters.tags (filters s)
                   ∧ tagId ∈ default [] (emailTags s !! Email.id m)))
  ∧ (EmailFilters.categories (filters s) = [] →
     EmailFilters.priorities (filters s) = [] →
     EmailFilters.tags (filters s) = [] →
     m ∈ emails s → m ∈ getFilteredEmails s).
Proof.
  intros Hex Hnone.
  assert (Hiff : isVisible s m = true ↔
     EmailFilters.categories (filters s) = []
     ∧ EmailFilters.priorities (filters s) = []
     ∧ (EmailFilters.tags (filters s) = []
        ∨ ∃ tagId, tagId ∈ EmailFilters.tags (filters s)
                   ∧ tagId ∈ default [] (emailTags s !! Email.id m))).
  { unfold isVisible. rewrite Hnone, Hex.
    destruct (EmailFilters.categories (filters s)) as [|c cs]; simpl.
    2: { split; [discriminate | intros [? _]; discriminate]. }
    destruct (EmailFilters.priorities (filters s)) as [|p ps]; simpl.
    2: { split; [discriminate | intros (_ & ? & _); discriminate]. }
    destruct (EmailFilters.tags (filters s)) as [|t ts] eqn:Htags.
    { simpl. split; [intros _; repeat split; by left | done]. }
    change (0 <? Z.of_nat (length (t :: ts))) with true. cbv beta iota zeta.
    rewrite andb_true_l.
    destruct (existsb _ (t :: ts)) eqn:Hex'; simpl.
    - apply existsb_includes in Hex'. split; [|done].
      intros _. repeat split. by right.
    - split; [discriminate |]. intros (_ & _ & [Habs | Hsome]); [discriminate |].
      apply existsb_includes in Hsome. congruence. }
  split; [exact Hiff |].
  intros Hc Hp Ht Hin. apply elem_of_getFilteredEmails. split; [done |].
  apply Hiff. repeat split; auto.
Qed.

Lemma exclude_redundant_unclassified_witness :
  sampleEmail "m1"
    ∈ getFilteredEmails (updateFilter (SetExcludeRedundant true)
                           (setEmails [sampleEmail "m1"] initialState)).
Proof.
  apply (exclude_redundant_unclassified
           (updateFilter (SetExcludeRedundant true)
              (setEmails [sampleEmail "m1"] initialState))
           (sampleEmail "m1")); try reflexivity.
  apply list_elem_of_In. left. reflexivity.
Defined.

(** ** Store actions *)

Lemma mergeEntries_notin (entries : list (string * EmailClassification.t))
    (merged : gmap string EmailClassification.t) (m : string) :
  m ∉ entries.*1 → mergeEntries entries merged !! m = merged !! m.
Proof.
  revert merged. induction entries as [|[k c] rest IH]; intros merged Hnot.
  - reflexivity.
  - simpl in *. apply not_elem_of_cons in Hnot as [Hne Hrest].
    rewrite IH by done. by rewrite lookup_insert_ne.
Qed.

Lemma mergeEntries_in (entries : list (string * EmailClassification.t))
    (merged : gmap string EmailClassification.t) (m : string)
    (c : EmailClassification.t) :
  NoDup entries.*1 → (m, c) ∈ entries →
  mergeEntries entries merged !! m = Some c.
Proof.
  revert merged. induction entries as [|[k c'] rest IH]; intros merged Hnd Hin.
  - by apply elem_of_nil in Hin.
  - simpl in *. apply NoDup_cons in Hnd as [Hk Hnd].
    apply elem_of_cons in Hin as [Heq | Hin].
    + injection Heq as -> ->.
      rewrite mergeEntries_notin by done. apply lookup_insert_eq.
    + by apply IH.
Qed.

(** C2 (as stated, refuted): the store holds a manual classification of
    [m1] ([work], high, not redundant); a batch carrying an automatic
    result for [m1] is applied; afterwards the entry of [m1] is the
    automatic one, with another category, priority and redundancy flag. *)
Lemma setClassifications_overwrites_manual :
  let manual := sampleClassification "m1" "work" High false true in
  let auto := sampleClassification "m1" "promotions" Low true false in
  let s := setClassifications [("m1", manual)] initialState in
  let s' := setClassifications [("m1", auto)] s in
  (EmailClassification.isManual <$> classifications s !! "m1") = Some true
  ∧ classifications s' !! "m1" = Some auto
  ∧ (EmailClassification.category <$> classifications s' !! "m1") = Some "promotions"
  ∧ (EmailClassification.priority <$> classifications s' !! "m1") = Some Low
  ∧ (EmailClassification.isRedundant <$> classifications s' !! "m1") = Some true.
Proof. vm_compute. repeat split. Qed.

(** C2 (amended): [setClassifications] writes every entry of the batch
    over the map, whatever the existing entry's [isManual] flag: after it,
    each id of the batch maps to the incoming classification, and an id
    the batch does not mention keeps its entry.  So a manual entry keeps
    its category, priority and redundancy fields when the batch has no
    entry for its id.  Nothing but the classification map changes.  (The
    entries of a JS object have distinct keys.) *)
Theorem setClassifications_lookup (s : EmailState.t)
    (batch : list (string * EmailClassification.t)) :
  NoDup batch.*1 →
  (∀ m c, (m, c) ∈ batch →
     classifications (setClassifications batch s) !! m = Some c)
  ∧ (∀ m, m ∉ batch.*1 →
     classifications (setClassifications batch s) !! m = classifications s !! m)
  ∧ setClassifications batch s
    = withClassifications (classifications (setClassifications batch s)) s.
Proof.
  intros Hnd. repeat split.
  - intros m c Hin. simpl. by apply mergeEntries_in.
  - intros m Hnot. simpl. by apply mergeEntries_notin.
Qed.

Lemma setClassifications_lookup_witness :
  let manual := sampleClassification "m1" "work" High false true in
  let auto := sampleClassification "m2" "promotions" Low true false in
  let s := setClassifications [("m1", manual)] initialState in
  classifications (setClassifications [("m2", auto)] s) !! "m2" = Some auto
  ∧ classifications (setClassifications [("m2", auto)] s) !! "m1"
    = classifications s !! "m1".
Proof.
  intros manual auto s.
  destruct (setClassifications_lookup s [("m2", auto)]) as (Hin & Hout & _).
  - simpl. apply NoDup_singleton.
  - split.
    + apply Hin. apply list_elem_of_In. left. reflexivity.
    + apply Hout. simpl. rewrite list_elem_of_In. simpl.
      intros [H | []]. discriminate H.
Defined.

(** C5 (as stated, refuted): [setEmails] on a state whose cursor is ["x"]
    and whose has-more flag is set leaves both as they were. *)
Lemma setEmails_keeps_cursor :
  let s := setPageToken (Some "x") initialState in
  let s' := setEmails [sampleEmail "m1"] s in
  pageToken s = Some "x" ∧ hasMore s = true
  ∧ pageToken s' = Some "x" ∧ hasMore s' = true.
Proof. repeat split. Qed.

(** C5 (amended): [setEmails] sets the base list to exactly the given
    messages and clears the selection, and leaves the cursor and the
    has-more flag untouched; the replace that [fetchEmails] performs on a
    first-page response, [setEmails(messages)] followed by
    [setPageToken(cursor)], sets the base list, clears the selection, and
    sets the cursor to the given one and has-more to its truthiness. *)
Theorem replace_sets_list_selection_cursor (s : EmailState.t)
    (messages : list Email.t) (cursor : option string) :
  let s1 := setEmails messages s in
  let s2 := setPageToken cursor s1 in
  (emails s1 = messages ∧ selectedEmailId s1 = None ∧ selectedEmailIds s1 = ∅
   ∧ pageToken s1 = pageToken s ∧ hasMore s1 = hasMore s)
  ∧ (emails s2 = messages ∧ selectedEmailId s2 = None ∧ selectedEmailIds s2 = ∅
     ∧ pageToken s2 = cursor ∧ hasMore s2 = truthy cursor)
  ∧ fetchEmails_receive false (MessagesOk (Some messages) cursor) s
    = setLoadingMore false (setLoading false s2).
Proof. repeat split. Qed.

(** ** Filter changes *)

Lemma buildQuery_classificationDerived (isoAfter : DateRange -> string)
    (u : FilterUpdate) (f : EmailFilters.t) :
  classificationDerived u = true →
  buildQuery isoAfter (spreadFilter f u) = buildQuery isoAfter f.
Proof. destruct f, u; intros H; try discriminate H; reflexivity. Qed.

(** C1 (as stated, refuted): one message is loaded with cursor ["x"] and
    the default filters; the category filter is switched to [finance],
    every other filter field staying as it was.  The step sends a
    first-page request for the message list. *)
Lemma category_switch_refetches :
  let s := setLoading false
             (setPageToken (Some "x") (setEmails [sampleEmail "m1"] initialState)) in
  let u := SetCategories ["finance"] in
  classificationDerived u = true
  ∧ filters (updateFilter u s)
    = {| EmailFilters.search := EmailFilters.search (filters s);
         EmailFilters.unreadOnly := EmailFilters.unreadOnly (filters s);
         EmailFilters.hasAttachment := EmailFilters.hasAttachment (filters s);
         EmailFilters.dateRange := EmailFilters.dateRange (filters s);
         EmailFilters.categories := ["finance"];
         EmailFilters.priorities := EmailFilters.priorities (filters s);
         EmailFilters.tags := EmailFilters.tags (filters s);
         EmailFilters.excludeRedundant := EmailFilters.excludeRedundant (filters s) |}
  ∧ snd (switchFilter sampleClock u s) = [Send (GetMessages None None)].
Proof. repeat split. Qed.

(** The list shown is not the memo's function of the store.  In
    [taggedStore] both messages are shown; switching the tag filter to [t1]
    leaves only [m2] visible, but [filters.tags] is no dependency of the
    memo: the same two messages stay on the screen, and the next-input
    from no active message activates [m1]. *)
Example tags_switch_keeps_shown_list :
  let memo := displayEmails taggedStore in
  let u := SetTags ["t1"] in
  let s' := fst (switchFilter sampleClock u taggedStore) in
  let shown := displayedAfterSwitch sampleClock true u memo taggedStore in
  memo = [sampleEmail "m1"; sampleEmail "m2"]
  ∧ displayEmails s' = [sampleEmail "m2"]
  ∧ shown = [sampleEmail "m1"; sampleEmail "m2"]
  ∧ selectedEmailId
      (storeAfter (handleKeyDown sampleClock shown (keyPress "j") (sampleView s' initialUI))
         (sampleView s' initialUI)) = Some "m1".
Proof. vm_compute. repeat split. Qed.

(** C1 (amended): switching a classification-derived filter field
    (categories, priorities, tags, excludeRedundant) does send a
    first-page request, with the same query as before the switch, and
    raises the loading flag.  The step itself leaves the loaded base list,
    the cursor, the has-more flag, the selection and the classification
    map unchanged.  The list shown is computed anew, from the
    already-loaded messages under the new filters, exactly when the switch
    changes a dependency of the memo: a new array for the categories or
    the priorities, or another value of excludeRedundant.  After a switch
    of the tags, or one that stores the same excludeRedundant, the list
    shown before stays.  When the response of the request is applied, the
    base list and the cursor are replaced by the response's, the selection
    is cleared, and the list shown is computed from the new base list. *)
Theorem classification_filter_switch (isoAfter : DateRange -> string)
    (u : FilterUpdate) (s : EmailState.t) :
  classificationDerived u = true →
  let s' := fst (switchFilter isoAfter u s) in
  let query := buildQuery isoAfter (filters s) in
  let F2 := spreadFilter (filters s) u in
  let derived :=
    if hasClassificationFilters F2
    then List.filter (isVisible (withFilters F2 s)) (emails s)
    else emails s in
  snd (switchFilter isoAfter u s)
    = [Send (GetMessages (if negb (String.eqb query "") then Some query else None)
                         None)]
  ∧ isLoading s' = true
  ∧ emails s' = emails s
  ∧ pageToken s' = pageToken s
  ∧ hasMore s' = hasMore s
  ∧ selectedEmailId s' = selectedEmailId s
  ∧ selectedEmailIds s' = selectedEmailIds s
  ∧ classifications s' = classifications s
  ∧ filters s' = F2
  ∧ (∀ freshArray memo,
       displayedAfterSwitch isoAfter freshArray u memo s
       = if memoDepsChangedBy freshArray u s then derived else memo)
  ∧ (∀ freshArray memo v,
       u = SetTags v → displayedAfterSwitch isoAfter freshArray u memo s = memo)
  ∧ (∀ memo v,
       u = SetCategories v → displayedAfterSwitch isoAfter true u memo s = derived)
  ∧ (∀ memo v,
       u = SetPriorities v → displayedAfterSwitch isoAfter true u memo s = derived)
  ∧ (∀ freshArray memo v,
       u = SetExcludeRedundant v →
       displayedAfterSwitch isoAfter freshArray u memo s
       = if Bool.eqb v (EmailFilters.excludeRedundant (filters s))
         then memo else derived)
  ∧ (∀ messages next,
       let s'' := fetchEmails_receive false (MessagesOk (Some messages) next) s' in
       emails s'' = messages ∧ pageToken s'' = next ∧ hasMore s'' = truthy next
       ∧ selectedEmailId s'' = None ∧ selectedEmailIds s'' = ∅
       ∧ ∀ memo, useMemoDisplayEmails true memo s''
                 = if hasClassificationFilters F2
                   then List.filter (isVisible s'') messages
                   else messages).
Proof.
  intros Hu s' query F2 derived.
  assert (Hshown : ∀ freshArray memo,
            displayedAfterSwitch isoAfter freshArray u memo s
            = if memoDepsChangedBy freshArray u s then derived else memo).
  { intros freshArray memo. unfold displayedAfterSwitch, useMemoDisplayEmails.
    destruct (memoDepsChangedBy freshArray u s); reflexivity. }
  unfold switchFilter, filtersEffect, fetchEmails_send in *. simpl in *.
  rewrite (buildQuery_classificationDerived isoAfter u (filters s) Hu).
  do 9 (split; [reflexivity |]).
  split; [exact Hshown |].
  split; [intros freshArray memo v ->; by rewrite Hshown |].
  split; [intros memo v ->; by rewrite Hshown |].
  split; [intros memo v ->; by rewrite Hshown |].
  split.
  { intros freshArray memo v ->. rewrite Hshown. simpl.
    by destruct (Bool.eqb v _). }
  intros messages next. repeat split.
Qed.

Lemma classification_filter_switch_witness :
  let s := taggedStore in
  let memo := [sampleEmail "m1"; sampleEmail "m2"] in
  snd (switchFilter sampleClock (SetTags ["t1"]) s)
    = [Send (GetMessages None None)]
  ∧ emails (fst (switchFilter sampleClock (SetTags ["t1"]) s))
    = [sampleEmail "m1"; sampleEmail "m2"]
  ∧ pageToken (fst (switchFilter sampleClock (SetTags ["t1"]) s)) = Some "x"
  ∧ displayedAfterSwitch sampleClock true (SetTags ["t1"]) memo s = memo.
Proof.
  intros s memo.
  destruct (classification_filter_switch sampleClock (SetTags ["t1"]) s eq_refl)
    as (Hsend & _ & Hemails & Htoken & _ & _ & _ & _ & _ & _ & Htags & _).
  split; [exact Hsend |]. split; [exact Hemails |]. split; [exact Htoken |].
  exact (Htags true memo ["t1"] eq_refl).
Defined.

(** ** Keyboard navigation *)


Section Navigation.
Variable isoAfter : DateRange -> string.
Variable shown : list Email.t.

Let len := Z.of_nat (length shown).

Lemma handleKeyDown_next (e : KeyboardEvent.t) (v : ListView.t) :
  isNext e →
  handleKeyDown isoAfter shown e v =
    let store := ListView.store v in
    let currentIndex := findIndex (idIs (selectedEmailId store)) shown in
    if currentIndex <? len - 1 then
      match at_index shown (currentIndex + 1) with
      | Some next =>
          Normal (activate (currentIndex + 1) next v) [PreventDefault]
      | None => TypeError
      end
    else if (currentIndex =? -1) && (0 <? len) then
      match at_index shown 0 with
      | Some first =>
          Normal (activate 0 first v) [PreventDefault]
      | None => TypeError
      end
    else Normal v [PreventDefault].
Proof.
  intros [Hout Hkey]. unfold handleKeyDown, keyIs. rewrite Hout.
  destruct Hkey as [-> | ->]; reflexivity.
Qed.

Lemma handleKeyDown_prev (e : KeyboardEvent.t) (v : ListView.t) :
  isPrev e →
  handleKeyDown isoAfter shown e v =
    let store := ListView.store v in
    let currentIndex := findIndex (idIs (selectedEmailId store)) shown in
    if 0 <? currentIndex then
      match at_index shown (currentIndex - 1) with
      | Some prev =>
          Normal (activate (currentIndex - 1) prev v) [PreventDefault]
      | None => TypeError
      end
    else Normal v [PreventDefault].
Proof.
  intros [Hout Hkey]. unfold handleKeyDown, keyIs. rewrite Hout.
  destruct Hkey as [-> | ->]; reflexivity.
Qed.

Lemma handleKeyDown_close (e : KeyboardEvent.t) (v : ListView.t) :
  isClose e →
  handleKeyDown isoAfter shown e v =
    if UIState.detailPanelOpen (ListView.uiStore v) then
      Normal (forceRender (withUI (closeDetailPanel (ListView.uiStore v)) v)) []
    else if 0 <? Z.of_nat (size (selectedEmailIds (ListView.store v))) then
      Normal (forceRender (withStore (clearSelection (ListView.store v)) v)) []
    else
      Normal (forceRender (withStore (selectEmail None (ListView.store v)) v)) [].
Proof.
  intros [Hout Hkey]. unfold handleKeyDown, keyIs. rewrite Hout, Hkey.
  reflexivity.
Qed.
End Navigation.

Lemma findIndexFrom_range {A} (p : A -> bool) (l : list A) (k : Z) :
  0 ≤ k →
  findIndexFrom p l k = -1
  ∨ (k ≤ findIndexFrom p l k < k + Z.of_nat (length l)).
Proof.
  revert k. induction l as [|x l IH]; intros k Hk; simpl.
  - by left.
  - destruct (p x).
    + right. lia.
    + destruct (IH (k + 1)) as [-> | Hr]; [lia | by left | right; lia].
Qed.

Lemma findIndexFrom_none {A} (p : A -> bool) (l : list A) (k : Z) :
  (∀ x, x ∈ l → p x = false) → findIndexFrom p l k = -1.
Proof.
  revert k. induction l as [|x l IH]; intros k Hall; simpl.
  - reflexivity.
  - rewrite (Hall x) by (apply elem_of_cons; by left).
    apply IH. intros y Hy. apply Hall. apply elem_of_cons. by right.
Qed.

Lemma findIndexFrom_first {A} (p : A -> bool) (l : list A) (k : Z) (i : nat) (x : A) :
  l !! i = Some x → p x = true →
  (∀ j y, (j < i)%nat → l !! j = Some y → p y = false) →
  findIndexFrom p l k = k + Z.of_nat i.
Proof.
  revert k i. induction l as [|a l IH]; intros k i Hi Hp Hbefore.
  - by rewrite lookup_nil in Hi.
  - destruct i as [|i]; simpl in *.
    + injection Hi as ->. rewrite Hp. lia.
    + rewrite (Hbefore 0%nat a) by (done || lia).
      assert (Hrest : ∀ j y, (j < i)%nat → l !! j = Some y → p y = false).
      { intros j y Hj Hy. apply (Hbefore (S j) y); [lia | done]. }
      rewrite (IH (k + 1) i Hi Hp Hrest). lia.
Qed.

Lemma at_index_of_nat {A} (l : list A) (i : nat) :
  at_index l (Z.of_nat i) = l !! i.
Proof.
  unfold at_index. destruct (Z.ltb_spec (Z.of_nat i) 0); [lia |].
  by rewrite Nat2Z.id.
Qed.

(** With distinct ids the position [findIndex] reports for the active id
    is the position of the active message. *)
Lemma findIndex_active (shown : list Email.t) (i : nat) (m : Email.t) :
  NoDup (Email.id <$> shown) → shown !! i = Some m →
  findIndex (idIs (Some (Email.id m))) shown = Z.of_nat i.
Proof.
  intros Hnd Hi. unfold findIndex.
  rewrite (findIndexFrom_first _ shown 0 i m); [lia | done | |].
  - simpl. apply String.eqb_refl.
  - intros j y Hj Hy. simpl. apply String.eqb_neq. intros Heq.
    assert (j = i); [| lia].
    apply (NoDup_lookup (Email.id <$> shown) j i (Email.id m)); [done | |].
    + rewrite list_lookup_fmap, Hy. simpl. by rewrite Heq.
    + by rewrite list_lookup_fmap, Hi.
Qed.

(** An unset active id, or one that is the id of no shown message, has
    position [-1]. *)
Lemma findIndex_stale (shown : list Email.t) (active : option string) :
  (∀ m, m ∈ shown → active ≠ Some (Email.id m)) →
  findIndex (idIs active) shown = -1.
Proof.
  intros Hstale. apply findIndexFrom_none. intros m Hm.
  destruct active as [a|]; [| reflexivity]. simpl.
  apply String.eqb_neq. intros Heq. apply (Hstale m Hm). by rewrite Heq.
Qed.

Lemma handleKeyDown_no_throw (isoAfter : DateRange -> string) (shown : list Email.t)
    (e : KeyboardEvent.t) (v : ListView.t) :
  handleKeyDown isoAfter shown e v ≠ TypeError.
Proof.
  unfold handleKeyDown.
  set (idx := findIndex (idIs (selectedEmailId (ListView.store v))) shown).
  assert (Hidx : idx = -1 ∨ 0 ≤ idx < Z.of_nat (length shown)).
  { destruct (findIndexFrom_range (idIs (selectedEmailId (ListView.store v)))
                shown 0) as [H | H]; [lia | by left | right].
    unfold idx, findIndex. lia. }
  assert (Hat : ∀ j, 0 ≤ j < Z.of_nat (length shown) → is_Some (at_index shown j)).
  { intros j Hj. rewrite <- (Z2Nat.id j) by lia. rewrite at_index_of_nat.
    apply lookup_lt_is_Some. lia. }
  repeat match goal with
  | |- context [if ?b then _ else _] => destruct b eqn:?
  | |- context [match at_index shown ?j with _ => _ end] =>
      destruct (at_index shown j) eqn:?
  | |- context [match selectedEmailId ?s with _ => _ end] =>
      destruct (selectedEmailId s) eqn:?
  | |- context [let '(_, _) := ?c in _] => destruct c
  end; try discriminate;
  match goal with
  | H : at_index shown ?j = None |- _ =>
      destruct (Hat j) as [x Hx]; [lia | congruence]
  end.
Qed.

Lemma selectEmail_back (s : EmailState.t) (a : option string) (b : option string) :
  selectedEmailId s = a → selectEmail a (selectEmail b s) = s.
Proof. destruct s; simpl; intros <-; reflexivity. Qed.

(** C6: the transition of the next ([j], [ArrowDown]) and prev ([k],
    [ArrowUp]) inputs over the shown list.  Neither input ever throws.
    When the active id is unset or is the id of no shown message, next
    activates the first shown message (and does nothing on an empty list)
    and prev changes nothing.  When the active message is at position [i]
    of a list with distinct ids, next activates the message at [i + 1],
    and a following prev brings the store (the active id with it) back to
    what it was; next at the last position changes nothing; prev activates
    the message at [i - 1], and changes nothing at the first position. *)
Theorem navigation_next_prev (isoAfter : DateRange -> string) (shown : list Email.t)
    (en ep : KeyboardEvent.t) (v : ListView.t) :
  isNext en → isPrev ep →
  let next := handleKeyDown isoAfter shown en in
  let prev := handleKeyDown isoAfter shown ep in
  let active := selectedEmailId (ListView.store v) in
  (next v ≠ TypeError ∧ prev v ≠ TypeError)
  ∧ ((∀ m, m ∈ shown → active ≠ Some (Email.id m)) →
       match shown with
       | [] => next v = Normal v [PreventDefault]
       | first :: _ => next v = Normal (activate 0 first v) [PreventDefault]
       end
       ∧ prev v = Normal v [PreventDefault])
  ∧ (∀ (i : nat) (m : Email.t),
       NoDup (Email.id <$> shown) → shown !! i = Some m →
       active = Some (Email.id m) →
       (∀ n, shown !! S i = Some n →
          next v = Normal (activate (Z.of_nat i + 1) n v) [PreventDefault]
          ∧ selectedEmailId (ListView.store (activate (Z.of_nat i + 1) n v))
            = Some (Email.id n)
          ∧ prev (activate (Z.of_nat i + 1) n v)
            = Normal (activate (Z.of_nat i) m (activate (Z.of_nat i + 1) n v))
                     [PreventDefault]
          ∧ ListView.store (activate (Z.of_nat i) m (activate (Z.of_nat i + 1) n v))
            = ListView.store v)
       ∧ (shown !! S i = None → next v = Normal v [PreventDefault])
       ∧ (∀ j p, i = S j → shown !! j = Some p →
          prev v = Normal (activate (Z.of_nat j) p v) [PreventDefault]
          ∧ selectedEmailId (ListView.store (activate (Z.of_nat j) p v))
            = Some (Email.id p))
       ∧ (i = 0%nat → prev v = Normal v [PreventDefault])).
Proof.
  intros Hn Hp next prev active. split; [| split].
  - split; apply handleKeyDown_no_throw.
  - intros Hstale. subst next prev.
    rewrite (handleKeyDown_next isoAfter shown en v Hn).
    rewrite (handleKeyDown_prev isoAfter shown ep v Hp).
    cbv zeta. fold active. rewrite (findIndex_stale shown active Hstale).
    split; [| reflexivity].
    destruct shown as [|first rest]; [reflexivity |].
    replace (-1 <? Z.of_nat (length (first :: rest)) - 1) with true
      by (symmetry; apply Z.ltb_lt; simpl length; lia).
    reflexivity.
  - intros i m Hnd Hi Hactive.
    assert (Hidx : findIndex (idIs active) shown = Z.of_nat i).
    { rewrite Hactive. by apply findIndex_active. }
    split; [| split; [| split]].
    + intros n Hsucc.
      apply lookup_lt_Some in Hsucc as Hlt.
      assert (Hnext : next v
                = Normal (activate (Z.of_nat i + 1) n v) [PreventDefault]).
      { subst next. rewrite (handleKeyDown_next isoAfter shown en v Hn).
        cbv zeta. fold active. rewrite Hidx.
        replace (Z.of_nat i <? Z.of_nat (length shown) - 1) with true
          by (symmetry; apply Z.ltb_lt; lia).
        replace (Z.of_nat i + 1) with (Z.of_nat (S i)) by lia.
        by rewrite at_index_of_nat, Hsucc. }
      split; [exact Hnext |]. split; [reflexivity |]. split.
      * subst prev. rewrite (handleKeyDown_prev isoAfter shown ep _ Hp).
        cbv zeta.
        change (selectedEmailId (ListView.store (activate (Z.of_nat i + 1) n v)))
          with (Some (Email.id n)).
        replace (Z.of_nat i + 1) with (Z.of_nat (S i)) by lia.
        rewrite (findIndex_active shown (S i) n Hnd Hsucc).
        replace (0 <? Z.of_nat (S i)) with true by (symmetry; apply Z.ltb_lt; lia).
        replace (Z.of_nat (S i) - 1) with (Z.of_nat i) by lia.
        by rewrite at_index_of_nat, Hi.
      * simpl. apply selectEmail_back. exact Hactive.
    + intros Hlast. subst next.
      rewrite (handleKeyDown_next isoAfter shown en v Hn).
      cbv zeta. fold active. rewrite Hidx.
      apply lookup_ge_None in Hlast.
      replace (Z.of_nat i <? Z.of_nat (length shown) - 1) with false
        by (symmetry; apply Z.ltb_ge; lia).
      replace (Z.of_nat i =? -1) with false by (symmetry; apply Z.eqb_neq; lia).
      reflexivity.
    + intros j q -> Hpred. split; [| reflexivity].
      subst prev. rewrite (handleKeyDown_prev isoAfter shown ep v Hp).
      cbv zeta. fold active. rewrite Hidx.
      replace (0 <? Z.of_nat (S j)) with true by (symmetry; apply Z.ltb_lt; lia).
      replace (Z.of_nat (S j) - 1) with (Z.of_nat j) by lia.
      by rewrite at_index_of_nat, Hpred.
    + intros ->. subst prev.
      rewrite (handleKeyDown_prev isoAfter shown ep v Hp).
      cbv zeta. fold active. rewrite Hidx. reflexivity.
Qed.

Lemma navigation_next_prev_witness :
  let shown := sampleEmail <$> ["A"; "B"; "C"] in
  let v := sampleView (selectEmail (Some "B") (setEmails shown initialState))
             initialUI in
  handleKeyDown sampleClock shown (keyPress "j") v
    = Normal (activate 2 (sampleEmail "C") v) [PreventDefault]
  ∧ handleKeyDown sampleClock shown (keyPress "k") (activate 2 (sampleEmail "C") v)
    = Normal (activate 1 (sampleEmail "B") (activate 2 (sampleEmail "C") v))
             [PreventDefault]
  ∧ ListView.store (activate 1 (sampleEmail "B") (activate 2 (sampleEmail "C") v))
    = ListView.store v.
Proof.
  intros shown v.
  destruct (navigation_next_prev sampleClock shown (keyPress "j") (keyPress "k") v)
    as (_ & _ & Hpos).
  - split; [reflexivity | by left].
  - split; [reflexivity | by left].
  - destruct (Hpos 1%nat (sampleEmail "B")) as (Hnext & _).
    + refine (bool_decide_unpack _ _). vm_compute. exact I.
    + reflexivity.
    + reflexivity.
    + destruct (Hnext (sampleEmail "C") eq_refl) as (H1 & _ & H2 & H3).
      split; [exact H1 |]. split; [exact H2 | exact H3].
Defined.

(** The navigation scenario over three shown messages [A], [B], [C]: next
    from no active message activates [A]; next from [B] activates [C]; a
    further next leaves [C] active. *)
Example navigation_scenario :
  let shown := sampleEmail <$> ["A"; "B"; "C"] in
  let v0 := sampleView (setEmails shown initialState) initialUI in
  let press k v := viewAfter (handleKeyDown sampleClock shown (keyPress k) v) v in
  let vB := sampleView (selectEmail (Some "B") (ListView.store v0)) initialUI in
  selectedEmailId (ListView.store (press "j" v0)) = Some "A"
  ∧ selectedEmailId (ListView.store (press "j" vB)) = Some "C"
  ∧ selectedEmailId (ListView.store (press "j" (press "j" vB))) = Some "C"
  ∧ selectedEmailId (ListView.store (press "k" v0)) = None.
Proof. vm_compute. repeat split. Qed.

(** The Escape case of [EmailList]'s handler, taken by itself: one call
    does one thing, by strict priority.  With the detail panel open it
    closes the panel and leaves both stores' other fields alone; otherwise
    with a non-empty selection it clears the selection only; otherwise it
    clears the active id.  Three successive calls from a state with the
    panel open and a non-empty selection close the panel, empty the
    selection and clear the active id, in this order.  What one key press
    does on the mounted list, where [EmailDetail] listens as well, is in
    [escape_reaches_both_listeners]. *)
Lemma close_priority (isoAfter : DateRange -> string) (shown : list Email.t)
    (e : KeyboardEvent.t) (v : ListView.t) :
  isClose e →
  let close := handleKeyDown isoAfter shown e in
  let store := ListView.store v in
  let ui := ListView.uiStore v in
  (UIState.detailPanelOpen ui = true →
     close v = Normal (forceRender (withUI (closeDetailPanel ui) v)) [])
  ∧ (UIState.detailPanelOpen ui = false → selectedEmailIds store ≠ ∅ →
     close v = Normal (forceRender (withStore (clearSelection store) v)) [])
  ∧ (UIState.detailPanelOpen ui = false → selectedEmailIds store = ∅ →
     close v = Normal (forceRender (withStore (selectEmail None store) v)) [])
  ∧ (UIState.detailPanelOpen ui = true → selectedEmailIds store ≠ ∅ →
     let v1 := forceRender (withUI (closeDetailPanel ui) v) in
     let v2 := forceRender (withStore (clearSelection store) v1) in
     let v3 := forceRender (withStore (selectEmail None (clearSelection store)) v2) in
     close v = Normal v1 []
     ∧ close v1 = Normal v2 []
     ∧ close v2 = Normal v3 []
     ∧ (UIState.detailPanelOpen (ListView.uiStore v1) = false
        ∧ ListView.store v1 = store)
     ∧ (selectedEmailIds (ListView.store v2) = ∅
        ∧ selectedEmailId (ListView.store v2) = selectedEmailId store
        ∧ ListView.uiStore v2 = ListView.uiStore v1)
     ∧ (selectedEmailId (ListView.store v3) = None
        ∧ selectedEmailIds (ListView.store v3) = ∅
        ∧ ListView.uiStore v3 = ListView.uiStore v1)).
Proof.
  intros He close store ui.
  assert (Hsize : ∀ X : gset string,
            (0 <? Z.of_nat (size X)) = bool_decide (X ≠ ∅)).
  { intros X. destruct (decide (X = ∅)) as [-> | Hne].
    - by rewrite size_empty, bool_decide_eq_false_2 by (intros H; by apply H).
    - rewrite bool_decide_eq_true_2 by done. apply Z.ltb_lt.
      assert (size X ≠ 0%nat); [| lia].
      rewrite size_non_empty_iff. intros Heq. apply Hne.
      by apply leibniz_equiv. }
  assert (A1 : ∀ w, UIState.detailPanelOpen (ListView.uiStore w) = true →
            close w = Normal (forceRender (withUI (closeDetailPanel (ListView.uiStore w)) w)) []).
  { intros w Hopen. subst close.
    rewrite (handleKeyDown_close isoAfter shown e w He). by rewrite Hopen. }
  assert (A2 : ∀ w, UIState.detailPanelOpen (ListView.uiStore w) = false →
            selectedEmailIds (ListView.store w) ≠ ∅ →
            close w = Normal (forceRender (withStore (clearSelection (ListView.store w)) w)) []).
  { intros w Hclosed Hsel. subst close.
    rewrite (handleKeyDown_close isoAfter shown e w He).
    by rewrite Hclosed, Hsize, bool_decide_eq_true_2. }
  assert (A3 : ∀ w, UIState.detailPanelOpen (ListView.uiStore w) = false →
            selectedEmailIds (ListView.store w) = ∅ →
            close w = Normal (forceRender (withStore (selectEmail None (ListView.store w)) w)) []).
  { intros w Hclosed Hsel. subst close.
    rewrite (handleKeyDown_close isoAfter shown e w He).
    rewrite Hclosed, Hsize, bool_decide_eq_false_2; [done |].
    intros H; by apply H. }
  split; [apply A1 |]. split; [apply A2 |]. split; [apply A3 |].
  intros Hopen Hsel v1 v2 v3.
  split; [by apply A1 |].
  split; [by apply (A2 v1) |].
  split; [by apply (A3 v2) |].
  repeat split.
Qed.

Lemma close_priority_witness :
  let shown := sampleEmail <$> ["A"; "B"; "C"] in
  let s := toggleEmailSelection "A"
             (selectEmail (Some "B") (setEmails shown initialState)) in
  let v := sampleView s (openDetailPanel initialUI) in
  handleKeyDown sampleClock shown (keyPress "Escape") v
    = Normal (forceRender (withUI (closeDetailPanel (ListView.uiStore v)) v)) [].
Proof.
  intros shown s v.
  destruct (close_priority sampleClock shown (keyPress "Escape") v) as (H1 & _).
  - split; reflexivity.
  - apply H1. reflexivity.
Defined.

(** ** Classification pipeline *)

Lemma addBatch_union (batch : list Email.t) (ids : gset string) :
  addBatch batch ids = ids ∪ list_to_set (Email.id <$> batch).
Proof.
  unfold addBatch. revert ids. induction batch as [|e batch IH]; intros ids; simpl.
  - set_solver.
  - rewrite IH. set_solver.
Qed.

Lemma deleteBatch_difference (batch : list Email.t) (ids : gset string) :
  deleteBatch batch ids = ids ∖ list_to_set (Email.id <$> batch).
Proof.
  unfold deleteBatch. revert ids. induction batch as [|e batch IH]; intros ids; simpl.
  - set_solver.
  - rewrite IH. set_solver.
Qed.

(** [unclassified] = loaded − classified − already sent. *)
Lemma elem_of_unclassified (s : EmailState.t) (ids : gset string) (e : Email.t) :
  e ∈ unclassified s ids
  ↔ e ∈ emails s ∧ classifications s !! Email.id e = None ∧ Email.id e ∉ ids.
Proof.
  unfold unclassified. rewrite !list_elem_of_In, filter_In.
  rewrite andb_true_iff, !negb_true_iff, !bool_decide_eq_false.
  rewrite <- eq_None_not_Some. reflexivity.
Qed.

Lemma classifyEmails_send_Some (p p' : Pipeline.t) (batch : list Email.t)
    (req : Request) :
  classifyEmails_send p = (p', Some (batch, req)) →
  batch = take 50 (unclassified (Pipeline.store p) (Pipeline.classifiedIdsRef p))
  ∧ p' = {| Pipeline.store := setClassifying true (Pipeline.store p);
            Pipeline.classifiedIdsRef := addBatch batch (Pipeline.classifiedIdsRef p) |}
  ∧ req = PostClassifications (map toEmailForAI batch)
            (map Email.id (emails (Pipeline.store p))).
Proof.
  unfold classifyEmails_send.
  destruct (_ || _ || _); [discriminate |].
  destruct (_ =? 0); [discriminate |].
  intros H. injection H as <- <- <-. done.
Qed.

(** C8: when a firing of the debounce submits a batch, the batch is the
    first (at most 50) of the loaded messages that are neither in the
    classification map nor in the set of ids already sent; its ids are in
    that set as soon as the function reaches its request, so that no later
    firing, whatever the store then holds, submits one of them while they
    stay in the set. *)
Theorem classify_batch_fresh (p p' : Pipeline.t) (batch : list Email.t)
    (req : Request) :
  classifyEmails_send p = (p', Some (batch, req)) →
  let s := Pipeline.store p in
  let sent := Pipeline.classifiedIdsRef p in
  (∀ e, e ∈ unclassified s sent
        ↔ e ∈ emails s ∧ classifications s !! Email.id e = None ∧ Email.id e ∉ sent)
  ∧ batch = take 50 (unclassified s sent)
  ∧ (∀ e, e ∈ batch →
        e ∈ emails s ∧ classifications s !! Email.id e = None ∧ Email.id e ∉ sent)
  ∧ (length batch ≤ 50)%nat
  ∧ Pipeline.classifiedIdsRef p' = sent ∪ list_to_set (Email.id <$> batch)
  ∧ req = PostClassifications (map toEmailForAI batch) (map Email.id (emails s))
  ∧ (∀ q q' batch' req',
        Pipeline.classifiedIdsRef p' ⊆ Pipeline.classifiedIdsRef q →
        classifyEmails_send q = (q', Some (batch', req')) →
        ∀ e e', e ∈ batch → e' ∈ batch' → Email.id e ≠ Email.id e').
Proof.
  intros Hsend s sent.
  apply classifyEmails_send_Some in Hsend as (Hbatch & -> & ->).
  fold s sent in Hbatch.
  assert (Hin : ∀ e, e ∈ batch →
            e ∈ emails s ∧ classifications s !! Email.id e = None ∧ Email.id e ∉ sent).
  { intros e He. apply elem_of_unclassified. rewrite Hbatch in He.
    by apply (subseteq_take 50) in He. }
  split; [intros e; apply elem_of_unclassified |].
  split; [exact Hbatch |].
  split; [exact Hin |].
  split; [rewrite Hbatch, length_take; lia |].
  split; [simpl; apply addBatch_union |].
  split; [reflexivity |].
  - intros q q' batch' req' Hsub Hsend' e e' He He' Heq.
    apply classifyEmails_send_Some in Hsend' as (Hbatch' & _ & _).
    rewrite Hbatch' in He'. apply (subseteq_take 50) in He'.
    apply elem_of_unclassified in He' as (_ & _ & Hfresh).
    apply Hfresh, Hsub. simpl. rewrite addBatch_union, <- Heq.
    apply elem_of_union_r, elem_of_list_to_set, list_elem_of_fmap. eauto.
Qed.


Lemma classify_batch_fresh_witness :
  unclassified (Pipeline.store scenarioPipeline)
               (Pipeline.classifiedIdsRef scenarioPipeline) = [sampleEmail "3"]
  ∧ snd (classifyEmails_send scenarioPipeline)
    = Some ([sampleEmail "3"],
            PostClassifications [toEmailForAI (sampleEmail "3")] ["1"; "2"; "3"])
  ∧ Pipeline.classifiedIdsRef (fst (classifyEmails_send scenarioPipeline))
    = {[ "1"; "2" ]} ∪ list_to_set (Email.id <$> [sampleEmail "3"]).
Proof.
  assert (Hsend : classifyEmails_send scenarioPipeline
                  = (fst (classifyEmails_send scenarioPipeline),
                     Some ([sampleEmail "3"],
                           PostClassifications [toEmailForAI (sampleEmail "3")]
                             ["1"; "2"; "3"]))).
  { vm_compute. reflexivity. }
  destruct (classify_batch_fresh _ _ _ _ Hsend) as (_ & Hbatch & _ & _ & Href & _).
  split; [| split].
  - vm_compute. reflexivity.
  - rewrite Hsend at 1. reflexivity.
  - exact Href.
Defined.

(** The rest of [classifyEmails] after a failed request (a status other
    than 2xx, or an exception): exactly the ids of the batch leave the set
    of sent ids; the function sends no request of its own, and the store
    is touched only in its [isClassifying] flag, so the [error] shown to
    the user, the loaded list and the classification map are as before.  A
    message of the batch that is still loaded and unclassified is again
    among the unclassified messages. *)
Lemma classifyEmails_receive_failure (batch : list Email.t) (resp : ClassifyResponse)
    (p : Pipeline.t) :
  resp = ClassifyNotOk ∨ resp = ClassifyThrow →
  let p' := fst (classifyEmails_receive batch resp p) in
  let effects := snd (classifyEmails_receive batch resp p) in
  Pipeline.classifiedIdsRef p'
    = Pipeline.classifiedIdsRef p ∖ list_to_set (Email.id <$> batch)
  ∧ (∀ i, i ∈ Pipeline.classifiedIdsRef p'
          ↔ i ∈ Pipeline.classifiedIdsRef p ∧ i ∉ Email.id <$> batch)
  ∧ existsb isSend effects = false
  ∧ Pipeline.store p' = setClassifying false (Pipeline.store p)
  ∧ error (Pipeline.store p') = error (Pipeline.store p)
  ∧ emails (Pipeline.store p') = emails (Pipeline.store p)
  ∧ classifications (Pipeline.store p') = classifications (Pipeline.store p)
  ∧ (∀ e, e ∈ batch → e ∈ emails (Pipeline.store p) →
          classifications (Pipeline.store p) !! Email.id e = None →
          e ∈ unclassified (Pipeline.store p') (Pipeline.classifiedIdsRef p')).
Proof.
  intros Hfail p' effects.
  assert (Href : Pipeline.classifiedIdsRef p'
                 = Pipeline.classifiedIdsRef p ∖ list_to_set (Email.id <$> batch)).
  { subst p'. destruct Hfail as [-> | ->]; simpl; apply deleteBatch_difference. }
  assert (Hstore : Pipeline.store p' = setClassifying false (Pipeline.store p)).
  { subst p'. by destruct Hfail as [-> | ->]. }
  split; [exact Href |].
  split.
  { intros i. rewrite Href, elem_of_difference, elem_of_list_to_set. done. }
  split.
  { subst effects. by destruct Hfail as [-> | ->]. }
  split; [exact Hstore |].
  rewrite Hstore. repeat split.
  intros e He Hloaded Hnone. apply elem_of_unclassified. simpl.
  split; [done |]. split; [done |].
  rewrite Href, elem_of_difference, elem_of_list_to_set.
  intros [_ Hnot]. apply Hnot. apply list_elem_of_fmap. eauto.
Qed.

Lemma classifyEmails_send_idle (p p' : Pipeline.t) (sent : list Email.t * Request) :
  classifyEmails_send p = (p', Some sent) →
  isClassifying (Pipeline.store p) = false ∧ isLoading (Pipeline.store p) = false
  ∧ unclassified (Pipeline.store p) (Pipeline.classifiedIdsRef p) ≠ [].
Proof.
  unfold classifyEmails_send.
  destruct (_ =? 0); simpl; [discriminate |].
  destruct (isClassifying _); simpl; [discriminate |].
  destruct (isLoading _); simpl; [discriminate |].
  destruct (unclassified _ _); simpl; [discriminate | done].
Qed.

Lemma setClassifying_false_true (s : EmailState.t) :
  isClassifying s = false → setClassifying false (setClassifying true s) = s.
Proof. destruct s; simpl; intros ->; reflexivity. Qed.

(** C9 (as stated, refuted): in the scenario the timer fires and the batch
    of message [3] is posted; the request fails with a status other than
    2xx.  The loaded list is as it was and the user has done nothing, but
    the [setClassifying(false)] of the [finally] has changed a dependency
    of the effect: a timer is set again, and when it fires the same batch
    is posted again. *)
Lemma failed_batch_posted_again :
  let req := PostClassifications [toEmailForAI (sampleEmail "3")] ["1"; "2"; "3"] in
  let c1 := fst (timerFires scenarioClassifier) in
  let c2 := fst (responseArrives [sampleEmail "3"] ClassifyNotOk c1) in
  snd (timerFires scenarioClassifier) = Some ([sampleEmail "3"], req)
  ∧ snd (responseArrives [sampleEmail "3"] ClassifyNotOk c1) = []
  ∧ emails (Pipeline.store (Classifier.pipeline c2))
    = emails (Pipeline.store scenarioPipeline)
  ∧ Classifier.timerPending c2 = true
  ∧ snd (timerFires c2) = Some ([sampleEmail "3"], req).
Proof. vm_compute. repeat split. Qed.

(** C9 (amended): when the request of a batch fails (a status other than
    2xx, or an exception), exactly the ids of that batch leave the set of
    sent ids, the function sends no request of its own and raises no
    error in the store: the loaded list, the classification map and the
    [error] field are as before the batch was sent, and every message of
    the batch is unclassified again.  The retry is automatic, though: the
    store and the set of sent ids are back to what they were before the
    send, the [setClassifying(false)] of the [finally] sets the timer of
    the debounce again, and its next firing posts the same batch with the
    same request. *)
Theorem classify_failure_retried (p p1 : Pipeline.t) (batch : list Email.t)
    (req : Request) (resp : ClassifyResponse) (pending : bool) :
  classifyEmails_send p = (p1, Some (batch, req)) →
  resp = ClassifyNotOk ∨ resp = ClassifyThrow →
  let c1 := {| Classifier.pipeline := p1; Classifier.timerPending := pending |} in
  let c2 := fst (responseArrives batch resp c1) in
  let effects := snd (responseArrives batch resp c1) in
  let p2 := Classifier.pipeline c2 in
  Pipeline.classifiedIdsRef p2
    = Pipeline.classifiedIdsRef p1 ∖ list_to_set (Email.id <$> batch)
  ∧ (∀ i, i ∈ Pipeline.classifiedIdsRef p2
          ↔ i ∈ Pipeline.classifiedIdsRef p1 ∧ i ∉ Email.id <$> batch)
  ∧ existsb isSend effects = false
  ∧ error (Pipeline.store p2) = error (Pipeline.store p)
  ∧ emails (Pipeline.store p2) = emails (Pipeline.store p)
  ∧ classifications (Pipeline.store p2) = classifications (Pipeline.store p)
  ∧ batch ≠ []
  ∧ (∀ e, e ∈ batch →
          e ∈ unclassified (Pipeline.store p2) (Pipeline.classifiedIdsRef p2))
  ∧ p2 = p
  ∧ Classifier.timerPending c2 = true
  ∧ timerFires c2
    = ({| Classifier.pipeline := p1; Classifier.timerPending := true |},
       Some (batch, req)).
Proof.
  intros Hsend Hfail c1 c2 effects p2.
  destruct (classifyEmails_send_Some _ _ _ _ Hsend) as (Hbatch & Hp1 & _).
  destruct (classifyEmails_send_idle _ _ _ Hsend) as (Hidle & _ & Hsome).
  destruct (classifyEmails_receive_failure batch resp p1 Hfail)
    as (Href & Hiff & Hnosend & Hstore & _).
  assert (Hc2 : c2 = {| Classifier.pipeline := fst (classifyEmails_receive batch resp p1);
                        Classifier.timerPending :=
                          pending
                          || classifyDepsChanged false (Pipeline.store p1)
                               (Pipeline.store (fst (classifyEmails_receive batch resp p1))) |}).
  { subst c2 c1. unfold responseArrives. simpl.
    destruct Hfail as [-> | ->]; reflexivity. }
  assert (Hin : ∀ e, e ∈ batch →
            e ∈ unclassified (Pipeline.store p) (Pipeline.classifiedIdsRef p)).
  { intros e He. rewrite Hbatch in He. by apply (subseteq_take 50). }
  assert (Hp2 : p2 = p).
  { subst p2. rewrite Hc2. simpl.
    destruct (classifyEmails_receive batch resp p1) as [q qeffects] eqn:Hq.
    simpl in *. destruct q as [qs qids], p as [ps pids]. simpl in *.
    f_equal.
    - rewrite Hstore, Hp1. simpl. by apply setClassifying_false_true.
    - rewrite Href, Hp1. simpl. rewrite addBatch_union.
      apply leibniz_equiv. intros i. split.
      + rewrite elem_of_difference, elem_of_union. intros [[H | H] Hn]; done.
      + intros Hi. rewrite elem_of_difference, elem_of_union.
        split; [by left |]. rewrite elem_of_list_to_set, list_elem_of_fmap.
        intros (e & -> & He). apply Hin, elem_of_unclassified in He.
        simpl in He. by destruct He as (_ & _ & Hn). }
  assert (Hpending : Classifier.timerPending c2 = true).
  { rewrite Hc2. simpl. rewrite Hstore, Hp1. simpl.
    unfold classifyDepsChanged. simpl. apply orb_true_r. }
  assert (Hpipe : p2 = fst (classifyEmails_receive batch resp p1)).
  { subst p2. by rewrite Hc2. }
  split; [rewrite Hpipe; exact Href |].
  split; [rewrite Hpipe; exact Hiff |].
  split.
  { subst effects c1. unfold responseArrives. simpl.
    by destruct Hfail as [-> | ->]. }
  clear Hpipe. rewrite Hp2.
  do 3 (split; [reflexivity |]).
  split.
  { rewrite Hbatch. destruct (unclassified _ _); [done | discriminate]. }
  split; [exact Hin |].
  split; [reflexivity |].
  split; [exact Hpending |].
  unfold timerFires. rewrite Hpending.
  change (Classifier.pipeline c2) with p2. rewrite Hp2, Hsend.
  rewrite Hp1. simpl. unfold classifyDepsChanged. simpl. rewrite Hidle.
  reflexivity.
Qed.

Lemma classify_failure_retried_witness :
  let p1 := fst (classifyEmails_send scenarioPipeline) in
  let req := PostClassifications [toEmailForAI (sampleEmail "3")] ["1"; "2"; "3"] in
  let c1 := {| Classifier.pipeline := p1; Classifier.timerPending := false |} in
  let c2 := fst (responseArrives [sampleEmail "3"] ClassifyNotOk c1) in
  Classifier.pipeline c2 = scenarioPipeline
  ∧ Classifier.timerPending c2 = true
  ∧ snd (timerFires c2) = Some ([sampleEmail "3"], req).
Proof.
  intros p1 req c1 c2.
  assert (Hsend : classifyEmails_send scenarioPipeline
                  = (p1, Some ([sampleEmail "3"], req))).
  { vm_compute. reflexivity. }
  destruct (classify_failure_retried scenarioPipeline p1 [sampleEmail "3"] req
              ClassifyNotOk false Hsend (or_introl eq_refl))
    as (_ & _ & _ & _ & _ & _ & _ & _ & Hback & Hpending & Hfires).
  split; [exact Hback |]. split; [exact Hpending |].
  change (snd (timerFires c2) = Some ([sampleEmail "3"], req)).
  fold c1 c2 in Hfires. by rewrite Hfires.
Defined.

(** After the rollback of the scenario's batch the sent ids are [1] and
    [2] again. *)
Example rollback_scenario :
  let p := fst (classifyEmails_send scenarioPipeline) in
  let p' := fst (classifyEmails_receive [sampleEmail "3"] ClassifyThrow p) in
  bool_decide (Pipeline.classifiedIdsRef p = {[ "1"; "2"; "3" ]}) = true
  ∧ bool_decide (Pipeline.classifiedIdsRef p' = {[ "1"; "2" ]}) = true
  ∧ isClassifying (Pipeline.store p') = false.
Proof. vm_compute. repeat split. Qed.

(** * Further properties of the store *)

(** X1: the filter callback of [getFilteredEmails] accepts a message
    exactly when each of the four local constraints is either switched off
    (empty list, flag unset) or met: the category and priority constraints
    need a classification whose category, resp. priority, is selected; the
    redundancy constraint rejects only a message classified as redundant;
    the tag constraint needs one selected tag among the message's tags. *)
Theorem isVisible_spec (s : EmailState.t) (m : Email.t) :
  let f := filters s in
  let cls := classifications s !! Email.id m in
  isVisible s m = true ↔
    (EmailFilters.categories f = []
     ∨ ∃ c, cls = Some c
            ∧ EmailClassification.category c ∈ EmailFilters.categories f)
    ∧ (EmailFilters.priorities f = []
       ∨ ∃ c, cls = Some c
              ∧ EmailClassification.priority c ∈ EmailFilters.priorities f)
    ∧ (EmailFilters.excludeRedundant f = false
       ∨ ∀ c, cls = Some c → EmailClassification.isRedundant c = false)
    ∧ (EmailFilters.tags f = []
       ∨ ∃ tagId, tagId ∈ EmailFilters.tags f
                  ∧ tagId ∈ default [] (emailTags s !! Email.id m)).
Proof.
  intros f cls. unfold isVisible. fold f. fold cls.
  assert (Hlen : ∀ A (l : list A), (0 <? Z.of_nat (length l)) = true ↔ l ≠ []).
  { intros A l. destruct l; simpl; split; (done || lia || discriminate). }
  assert (Hcat : ((0 <? Z.of_nat (length (EmailFilters.categories f)))
            && match cls with
               | None => true
               | Some c => negb (includes (EmailClassification.category c)
                                          (EmailFilters.categories f))
               end) = false
          ↔ (EmailFilters.categories f = []
             ∨ ∃ c, cls = Some c
                    ∧ EmailClassification.category c ∈ EmailFilters.categories f)).
  { destruct (EmailFilters.categories f) as [|c0 cs] eqn:Hc.
    - simpl. split; [by left | done].
    - change (0 <? Z.of_nat (length (c0 :: cs))) with true. rewrite andb_true_l.
      destruct cls as [c|].
      + rewrite negb_false_iff. unfold includes. rewrite bool_decide_eq_true.
        split; [intros H; right; eauto |].
        intros [Habs | (c' & Hc' & Hin)]; [discriminate | congruence].
      + split; [discriminate |].
        intros [Habs | (c' & Hc' & _)]; discriminate. }
  assert (Hpri : ((0 <? Z.of_nat (length (EmailFilters.priorities f)))
            && match cls with
               | None => true
               | Some c => negb (includes (EmailClassification.priority c)
                                          (EmailFilters.priorities f))
               end) = false
          ↔ (EmailFilters.priorities f = []
             ∨ ∃ c, cls = Some c
                    ∧ EmailClassification.priority c ∈ EmailFilters.priorities f)).
  { destruct (EmailFilters.priorities f) as [|p0 ps] eqn:Hp.
    - simpl. split; [by left | done].
    - change (0 <? Z.of_nat (length (p0 :: ps))) with true. rewrite andb_true_l.
      destruct cls as [c|].
      + rewrite negb_false_iff. unfold includes. rewrite bool_decide_eq_true.
        split; [intros H; right; eauto |].
        intros [Habs | (c' & Hc' & Hin)]; [discriminate | congruence].
      + split; [discriminate |].
        intros [Habs | (c' & Hc' & _)]; discriminate. }
  assert (Hred : (EmailFilters.excludeRedundant f
            && match cls with
               | None => false
               | Some c => EmailClassification.isRedundant c
               end) = false
          ↔ (EmailFilters.excludeRedundant f = false
             ∨ ∀ c, cls = Some c → EmailClassification.isRedundant c = false)).
  { destruct (EmailFilters.excludeRedundant f); simpl.
    - destruct cls as [c|].
      + split; [intros H; right; congruence |].
        intros [Habs | H]; [discriminate | by apply H].
      + split; [intros _; right; discriminate | done].
    - split; [by left | done]. }
  assert (Htag : ((0 <? Z.of_nat (length (EmailFilters.tags f)))
            && negb (existsb
                       (fun tagId =>
                          includes tagId (default [] (emailTags s !! Email.id m)))
                       (EmailFilters.tags f))) = false
          ↔ (EmailFilters.tags f = []
             ∨ ∃ tagId, tagId ∈ EmailFilters.tags f
                        ∧ tagId ∈ default [] (emailTags s !! Email.id m))).
  { destruct (EmailFilters.tags f) as [|t0 ts] eqn:Ht.
    - simpl. split; [by left | done].
    - change (0 <? Z.of_nat (length (t0 :: ts))) with true. rewrite andb_true_l.
      rewrite negb_false_iff, existsb_includes.
      split; [by right |]. intros [Habs | H]; [discriminate | done]. }
  rewrite <- Hcat, <- Hpri, <- Hred, <- Htag.
  cbv zeta.
  destruct (_ && _); [split; [discriminate | intros [? _]; discriminate] |].
  destruct (_ && _); [split; [discriminate | intros (_ & ? & _); discriminate] |].
  destruct (_ && _); [split; [discriminate | intros (_ & _ & ? & _); discriminate] |].
  destruct (_ && _); [split; [discriminate | intros (_ & _ & _ & ?); discriminate] |].
  done.
Qed.

Lemma list_filter_all {A} (p : A -> bool) (l : list A) :
  (∀ x, x ∈ l → p x = true) → List.filter p l = l.
Proof.
  induction l as [|x l IH]; intros Hall; simpl; [done |].
  rewrite (Hall x) by (apply elem_of_cons; by left).
  f_equal. apply IH. intros y Hy. apply Hall, elem_of_cons. by right.
Qed.

Lemma isVisible_no_constraint (s : EmailState.t) (m : Email.t) :
  EmailFilters.categories (filters s) = [] →
  EmailFilters.priorities (filters s) = [] →
  EmailFilters.tags (filters s) = [] →
  EmailFilters.excludeRedundant (filters s) = false →
  isVisible s m = true.
Proof. intros Hc Hp Ht He. unfold isVisible. by rewrite Hc, Hp, Ht, He. Qed.

Lemma list_filter_none {A} (p : A -> bool) (l : list A) :
  (∀ x, x ∈ l → p x = false) → List.filter p l = [].
Proof.
  induction l as [|x l IH]; intros Hall; simpl; [done |].
  rewrite (Hall x) by (apply elem_of_cons; by left).
  apply IH. intros y Hy. apply Hall, elem_of_cons. by right.
Qed.

(** X2: an empty category, priority or tag list means no constraint: when
    the three lists are empty and the redundancy flag is unset,
    [getFilteredEmails] returns the whole loaded list, classified or not,
    whatever the search, unread, attachment and date-range filters are. *)
Theorem getFilteredEmails_no_constraint (s : EmailState.t) :
  EmailFilters.categories (filters s) = [] →
  EmailFilters.priorities (filters s) = [] →
  EmailFilters.tags (filters s) = [] →
  EmailFilters.excludeRedundant (filters s) = false →
  getFilteredEmails s = emails s.
Proof.
  intros Hc Hp Ht He. apply list_filter_all. intros m _.
  by apply isVisible_no_constraint.
Qed.

Lemma getFilteredEmails_no_constraint_witness :
  getFilteredEmails
    (updateFilter (SetUnreadOnly true)
       (updateFilter (SetSearch "invoice")
          (setEmails (sampleEmail <$> ["m1"; "m2"]) initialState)))
  = sampleEmail <$> ["m1"; "m2"].
Proof.
  exact (getFilteredEmails_no_constraint
           (updateFilter (SetUnreadOnly true)
              (updateFilter (SetSearch "invoice")
                 (setEmails (sampleEmail <$> ["m1"; "m2"]) initialState)))
           eq_refl eq_refl eq_refl eq_refl).
Defined.

Lemma mergeEntries_union (entries : list (string * EmailClassification.t))
    (merged : gmap string EmailClassification.t) :
  mergeEntries entries merged = list_to_map (reverse entries) ∪ merged.
Proof.
  revert merged. induction entries as [|[k c] rest IH]; intros merged; simpl.
  - by rewrite (left_id ∅ (∪)).
  - rewrite IH, reverse_cons, list_to_map_app. simpl.
    rewrite <- (assoc_L (∪)). f_equal.
    by rewrite <- insert_union_l, (left_id ∅ (∪)).
Qed.

(** X3: [setClassifications] is idempotent: applying the same batch a
    second time leaves the store as the first application left it. *)
Theorem setClassifications_idempotent (s : EmailState.t)
    (batch : list (string * EmailClassification.t)) :
  setClassifications batch (setClassifications batch s)
  = setClassifications batch s.
Proof.
  unfold setClassifications, withClassifications. simpl. f_equal.
  rewrite !mergeEntries_union, (assoc_L (∪)). f_equal.
  apply (idemp_L (∪)).
Qed.

Lemma isVisible_appendEmails (newEmails : list Email.t) (token : option string)
    (s : EmailState.t) (m : Email.t) :
  isVisible (appendEmails newEmails token s) m = isVisible s m.
Proof. reflexivity. Qed.

(** X4: load more.  [fetchEmails(true)] asks for the page after the stored
    cursor with the current query and, when the page arrives, appends it:
    the loaded list is the old list followed by the page, the visible list
    is the old visible list followed by the visible messages of the page,
    the active id, the selection and the error are kept, the cursor is the
    page's and has-more its truthiness, and both loading flags are
    down.  A response without a [messages] field appends nothing. *)
Theorem load_more_appends (isoAfter : DateRange -> string) (s : EmailState.t)
    (page : option (list Email.t)) (next : option string) :
  let sent := fetchEmails_send isoAfter true s in
  let s' := fetchEmails_receive true (MessagesOk page next) (fst sent) in
  let query := buildQuery isoAfter (filters s) in
  snd sent = GetMessages (if negb (String.eqb query "") then Some query else None)
                         (if truthy (pageToken s) then pageToken s else None)
  ∧ emails s' = (emails s ++ default [] page)%list
  ∧ getFilteredEmails s'
    = (getFilteredEmails s ++ List.filter (isVisible s) (default [] page))%list
  ∧ selectedEmailId s' = selectedEmailId s
  ∧ selectedEmailIds s' = selectedEmailIds s
  ∧ error s' = error s
  ∧ pageToken s' = next
  ∧ hasMore s' = truthy next
  ∧ isLoading s' = false
  ∧ isLoadingMore s' = false.
Proof.
  simpl. repeat split.
  exact (List.filter_app (isVisible s) (emails s) (default [] page)).
Qed.

Lemma toggleEmailSelection_twice (i : string) (s : EmailState.t) :
  toggleEmailSelection i (toggleEmailSelection i s) = s.
Proof.
  set (sel := selectedEmailIds s).
  assert (Hset : selectedEmailIds (toggleEmailSelection i (toggleEmailSelection i s))
                 = sel).
  { unfold toggleEmailSelection. simpl. fold sel.
    destruct (decide (i ∈ sel)) as [Hin | Hout].
    - rewrite (bool_decide_eq_true_2 _ Hin).
      rewrite bool_decide_eq_false_2 by set_solver.
      apply set_eq. intros j. destruct (decide (j = i)); set_solver.
    - rewrite (bool_decide_eq_false_2 _ Hout).
      rewrite bool_decide_eq_true_2 by set_solver. set_solver. }
  transitivity
    (withSelection
       (selectedEmailIds (toggleEmailSelection i (toggleEmailSelection i s))) s);
    [reflexivity |].
  rewrite Hset. subst sel. by destruct s.
Qed.

(** X5: [toggleEmailSelection] flips the membership of the given id and of
    no other, and toggling the same id twice gives back the store. *)
Theorem toggleEmailSelection_flip (i : string) (s : EmailState.t) :
  (∀ j, j ∈ selectedEmailIds (toggleEmailSelection i s)
        ↔ if decide (j = i) then j ∉ selectedEmailIds s
          else j ∈ selectedEmailIds s)
  ∧ toggleEmailSelection i (toggleEmailSelection i s) = s.
Proof.
  split.
  - intros j. unfold toggleEmailSelection. simpl.
    destruct (decide (j = i)) as [-> | Hne]; case_bool_decide; set_solver.
  - apply toggleEmailSelection_twice.
Qed.

(** X6: [selectAllEmails] selects exactly the ids of the loaded messages:
    the result does not depend on the filters, so it contains the id of
    every message of the filtered list and also the ids of loaded messages
    the filters hide. *)
Theorem selectAllEmails_scope (s : EmailState.t) :
  (∀ i, i ∈ selectedEmailIds (selectAllEmails s)
        ↔ ∃ e, e ∈ emails s ∧ Email.id e = i)
  ∧ (∀ f, selectedEmailIds (selectAllEmails (withFilters f s))
          = selectedEmailIds (selectAllEmails s))
  ∧ (∀ e, e ∈ getFilteredEmails s →
          Email.id e ∈ selectedEmailIds (selectAllEmails s))
  ∧ selectedEmailId (selectAllEmails s) = selectedEmailId s.
Proof.
  assert (Hiff : ∀ i, i ∈ selectedEmailIds (selectAllEmails s)
                      ↔ ∃ e, e ∈ emails s ∧ Email.id e = i).
  { intros i. simpl. rewrite elem_of_list_to_set, list_elem_of_fmap.
    split; intros (e & H1 & H2); eauto. }
  split; [exact Hiff |]. split; [reflexivity |]. split; [| reflexivity].
  intros e He. apply Hiff. exists e. split; [| done].
  by apply elem_of_getFilteredEmails in He as [? _].
Qed.

Lemma list_filter_map_same {A} (p : A -> bool) (g : A -> A) (l : list A) :
  (∀ x, p (g x) = p x) → List.filter p (map g l) = map g (List.filter p l).
Proof.
  intros Hp. induction l as [|x l IH]; simpl; [done |].
  rewrite Hp. destruct (p x); simpl; by rewrite IH.
Qed.

(** X7: [markAsRead] and [markAsUnread] rewrite the unread flag of the
    loaded messages whose id is listed and nothing else: the list keeps
    its length and order, each message keeps every other field, a message
    whose id is not listed is untouched, and since visibility depends on a
    message's id alone the same positions stay visible.  Marking twice is
    the same as marking once. *)
Theorem markAsRead_flags (ids : list string) (s : EmailState.t) :
  (∀ k e, emails s !! k = Some e →
      emails (markAsRead ids s) !! k
        = Some (if bool_decide (Email.id e ∈ ids) then withUnread false e else e)
      ∧ emails (markAsUnread ids s) !! k
        = Some (if bool_decide (Email.id e ∈ ids) then withUnread true e else e))
  ∧ length (emails (markAsRead ids s)) = length (emails s)
  ∧ Email.id <$> emails (markAsRead ids s) = Email.id <$> emails s
  ∧ Email.id <$> getFilteredEmails (markAsRead ids s)
    = Email.id <$> getFilteredEmails s
  ∧ markAsRead ids (markAsRead ids s) = markAsRead ids s
  ∧ markAsUnread ids (markAsRead ids s) = markAsUnread ids s.
Proof.
  set (g b := fun email : Email.t =>
                if includes (Email.id email) ids then withUnread b email else email).
  assert (Hid : ∀ b e, Email.id (g b e) = Email.id e).
  { intros b e. unfold g. by destruct (includes _ _). }
  assert (Hgg : ∀ b b' e, g b (g b' e) = g b e).
  { intros b b' e. unfold g. destruct (includes (Email.id e) ids) eqn:Hin.
    - simpl. by rewrite Hin.
    - by rewrite Hin. }
  split; [| split; [| split; [| split; [| split]]]].
  - intros k e Hk. split; simpl; rewrite list_lookup_fmap, Hk; reflexivity.
  - simpl. apply length_map.
  - simpl. rewrite <- list_fmap_compose. apply list_fmap_ext. intros _ e _. apply Hid.
  - unfold getFilteredEmails. simpl.
    change (List.filter (isVisible (markAsRead ids s)) (map (g false) (emails s)))
      with (List.filter (isVisible s) (map (g false) (emails s))).
    rewrite list_filter_map_same.
    + change (map (g false) ?l) with (g false <$> l).
      rewrite <- list_fmap_compose. apply list_fmap_ext. intros _ e _. apply Hid.
    + intros e. unfold g. by destruct (includes _ _).
  - change (withEmails (map (g false) (map (g false) (emails s))) s
            = withEmails (map (g false) (emails s)) s).
    f_equal. rewrite map_map. apply map_ext. intros e. apply Hgg.
  - change (withEmails (map (g true) (map (g false) (emails s))) s
            = withEmails (map (g true) (emails s)) s).
    f_equal. rewrite map_map. apply map_ext. intros e. apply Hgg.
Qed.

(** X8: [resetFilters] puts the default filters back and clears the
    cursor, but leaves the has-more flag, the loaded list and the
    selection as they were.  With the default filters every loaded message
    passes the filter, and a render that computes the list shown anew
    shows the whole loaded list.  [resetFilters] stores the module
    constant [defaultFilters]: the effect on [filters] requests the first
    page, with neither a query nor a page token, when the filters object
    before was another one, and requests nothing when [filters] already
    was that constant. *)
Theorem resetFilters_effect (isoAfter : DateRange -> string) (s : EmailState.t) :
  filters (resetFilters s) = defaultFilters
  ∧ pageToken (resetFilters s) = None
  ∧ hasMore (resetFilters s) = hasMore s
  ∧ emails (resetFilters s) = emails s
  ∧ selectedEmailId (resetFilters s) = selectedEmailId s
  ∧ selectedEmailIds (resetFilters s) = selectedEmailIds s
  ∧ getFilteredEmails (resetFilters s) = emails s
  ∧ (∀ memo, useMemoDisplayEmails true memo (resetFilters s) = emails s)
  ∧ resetFiltersEffect isoAfter true s
    = (setError None (setLoading true (resetFilters s)),
       [Send (GetMessages None None)])
  ∧ resetFiltersEffect isoAfter false s = (resetFilters s, []).
Proof.
  do 6 (split; [reflexivity |]).
  split.
  { apply list_filter_all. intros m _. by apply isVisible_no_constraint. }
  repeat split.
Qed.

Lemma string_app_nil_l (a b : string) : (a ++ b)%string = "" → a = "".
Proof. destruct a; [done | discriminate]. Qed.

(** X9: [buildQuery] is the empty string exactly when no remote constraint
    is active (no search text, unread-only and has-attachment unset, date
    range [all]), whatever the classification filters are; these are the
    requests [fetchEmails] sends without a [q] parameter. *)
Theorem buildQuery_empty_iff (isoAfter : DateRange -> string) (f : EmailFilters.t) :
  buildQuery isoAfter f = ""
  ↔ EmailFilters.search f = ""
    ∧ EmailFilters.unreadOnly f = false
    ∧ EmailFilters.hasAttachment f = false
    ∧ EmailFilters.dateRange f = All.
Proof.
  destruct f as [se un ha da ca pr ta ex]. unfold buildQuery. simpl.
  split.
  - destruct (String.eqb_spec se "") as [-> | Hse]; simpl.
    + destruct un, ha, da; simpl; try discriminate; done.
    + destruct un, ha, da; simpl; intros H;
        try (apply string_app_nil_l in H); congruence.
  - intros (-> & -> & -> & ->). reflexivity.
Qed.

(** * Further properties of the list component *)

(** X10: a failed fetch (a status other than 2xx, or a rejected request),
    first page or load-more alike, leaves the loaded list, the cursor, the
    has-more flag, the selection, the classifications and the filters as
    they were; it stores an error message and lowers both loading
    flags.  The message is the body's [error] when that is a non-empty
    string and a fixed text otherwise. *)
Theorem fetch_failure_keeps_list (append : bool) (s : EmailState.t) :
  ∀ resp, (∀ messages next, resp ≠ MessagesOk messages next) →
    let s' := fetchEmails_receive append resp s in
    emails s' = emails s
    ∧ pageToken s' = pageToken s
    ∧ hasMore s' = hasMore s
    ∧ selectedEmailId s' = selectedEmailId s
    ∧ selectedEmailIds s' = selectedEmailIds s
    ∧ classifications s' = classifications s
    ∧ filters s' = filters s
    ∧ isLoading s' = false
    ∧ isLoadingMore s' = false
    ∧ error s'
      = Some match resp with
             | MessagesNotOk (Some msg) =>
                 if String.eqb msg "" then "Failed to fetch emails" else msg
             | MessagesNotOk None => "Failed to fetch emails"
             | MessagesThrow (Some msg) => msg
             | _ => "An error occurred"
             end.
Proof.
  intros resp Hfail.
  destruct resp as [messages next | [msg|] | [msg|]]; simpl.
  - by destruct (Hfail messages next).
  - repeat split. by destruct (String.eqb msg "").
  - repeat split.
  - repeat split.
  - repeat split.
Qed.

Lemma fetch_failure_keeps_list_witness :
  let s := setPageToken (Some "x") (setEmails [sampleEmail "m1"] initialState) in
  emails (fetchEmails_receive false (MessagesNotOk (Some "Token expired")) s)
    = [sampleEmail "m1"]
  ∧ error (fetchEmails_receive false (MessagesNotOk (Some "Token expired")) s)
    = Some "Token expired".
Proof.
  intros s.
  destruct (fetch_failure_keeps_list false s (MessagesNotOk (Some "Token expired")))
    as (Hemails & _ & _ & _ & _ & _ & _ & _ & _ & Herror).
  - intros messages next. discriminate.
  - split; [exact Hemails | exact Herror].
Defined.

(** X11: a response is applied whatever happened to the filters while the
    request was in flight.  If the filters are changed after a first-page
    request was sent and before its response arrives, the response is
    still stored: the loaded list and the cursor are the ones fetched for
    the old query, the filters are the new ones, and the loading flag is
    lowered although the request for the new filters has not been
    answered. *)
Theorem stale_response_applied (isoAfter : DateRange -> string) (u : FilterUpdate)
    (s : EmailState.t) (messages : list Email.t) (next : option string) :
  let s1 := fst (fetchEmails_send isoAfter false s) in
  let s2 := fst (switchFilter isoAfter u s1) in
  let s3 := fetchEmails_receive false (MessagesOk (Some messages) next) s2 in
  snd (fetchEmails_send isoAfter false s)
    = GetMessages (let q := buildQuery isoAfter (filters s) in
                   if negb (String.eqb q "") then Some q else None) None
  ∧ snd (switchFilter isoAfter u s1)
    = [Send (GetMessages
               (let q := buildQuery isoAfter (spreadFilter (filters s) u) in
                if negb (String.eqb q "") then Some q else None) None)]
  ∧ filters s3 = spreadFilter (filters s) u
  ∧ emails s3 = messages
  ∧ pageToken s3 = next
  ∧ isLoading s3 = false
  ∧ (∀ append resp,
       fetchEmails_receive append resp (updateFilter u s)
       = updateFilter u (fetchEmails_receive append resp s)).
Proof.
  repeat split.
  intros append resp. destruct resp as [m n | e | e], append; reflexivity.
Qed.

(** * Further properties of the classification pipeline *)

(** X12: a firing of the debounce sends nothing, and changes neither the
    store nor the set of sent ids, exactly when no message is loaded, or a
    batch is being classified, or the list is loading, or every loaded
    message is classified or already sent. *)
Theorem classifyEmails_guard (p : Pipeline.t) :
  let s := Pipeline.store p in
  (snd (classifyEmails_send p) = None
   ↔ emails s = [] ∨ isClassifying s = true ∨ isLoading s = true
     ∨ unclassified s (Pipeline.classifiedIdsRef p) = [])
  ∧ (snd (classifyEmails_send p) = None → fst (classifyEmails_send p) = p).
Proof.
  intros s. unfold classifyEmails_send. fold s.
  destruct (emails s) as [|e0 rest] eqn:Hemails; simpl.
  { split; [split; [by left | done] | done]. }
  destruct (isClassifying s); simpl.
  { split; [split; [intros _; right; by left | done] | done]. }
  destruct (isLoading s); simpl.
  { split; [split; [intros _; do 2 right; by left | done] | done]. }
  rewrite <- Hemails.
  destruct (unclassified s (Pipeline.classifiedIdsRef p)) as [|u0 us] eqn:Hun; simpl.
  { split; [split; [intros _; by do 3 right | done] | done]. }
  split; [| discriminate].
  split; [discriminate |].
  rewrite Hemails. intros [H | [H | [H | H]]]; discriminate.
Qed.

(** X13: at most one batch is in flight.  Sending a batch raises
    [isClassifying]; while it is up a firing of the debounce sends nothing
    and changes nothing, also when more messages were loaded in the
    meantime; every way the request ends lowers the flag again. *)
Theorem classify_one_batch_in_flight (p p' : Pipeline.t) (batch : list Email.t)
    (req : Request) :
  classifyEmails_send p = (p', Some (batch, req)) →
  isClassifying (Pipeline.store p') = true
  ∧ classifyEmails_send p' = (p', None)
  ∧ (∀ page token,
       let q := {| Pipeline.store := appendEmails page token (Pipeline.store p');
                   Pipeline.classifiedIdsRef := Pipeline.classifiedIdsRef p' |} in
       classifyEmails_send q = (q, None))
  ∧ (∀ resp,
       isClassifying (Pipeline.store (fst (classifyEmails_receive batch resp p')))
       = false).
Proof.
  intros Hsend. apply classifyEmails_send_Some in Hsend as (_ & -> & _).
  split; [reflexivity |].
  split.
  { unfold classifyEmails_send. simpl. by rewrite orb_true_r. }
  split.
  { intros page token q. unfold classifyEmails_send. simpl. by rewrite orb_true_r. }
  intros [data | |]; reflexivity.
Qed.

Lemma classify_one_batch_in_flight_witness :
  classifyEmails_send (fst (classifyEmails_send scenarioPipeline))
  = (fst (classifyEmails_send scenarioPipeline), None).
Proof.
  assert (Hsend : classifyEmails_send scenarioPipeline
                  = (fst (classifyEmails_send scenarioPipeline),
                     Some ([sampleEmail "3"],
                           PostClassifications [toEmailForAI (sampleEmail "3")]
                             ["1"; "2"; "3"]))).
  { vm_compute. reflexivity. }
  destruct (classify_one_batch_in_flight _ _ _ _ Hsend) as (_ & Hagain & _).
  exact Hagain.
Defined.

(** X14: a successful response does not take the batch's ids out of the
    set of sent ids.  A sent message for which the response carries no
    classification therefore stays unclassified in the store and is never
    among the unclassified messages of a later firing, whatever the store
    then holds: the component does not ask for it again. *)
Theorem classify_success_keeps_sent (batch : list Email.t)
    (data : list (string * EmailClassification.t)) (p : Pipeline.t) :
  let p' := fst (classifyEmails_receive batch (ClassifyOk data) p) in
  Pipeline.classifiedIdsRef p' = Pipeline.classifiedIdsRef p
  ∧ snd (classifyEmails_receive batch (ClassifyOk data) p) = []
  ∧ (∀ e, Email.id e ∈ Pipeline.classifiedIdsRef p →
          Email.id e ∉ data.*1 →
          classifications (Pipeline.store p) !! Email.id e = None →
          classifications (Pipeline.store p') !! Email.id e = None
          ∧ ∀ s'', e ∉ unclassified s'' (Pipeline.classifiedIdsRef p')).
Proof.
  intros p'. split; [reflexivity |]. split; [reflexivity |].
  intros e Hsent Hmissing Hnone. split.
  - simpl. by rewrite mergeEntries_notin.
  - intros s'' Hin. apply elem_of_unclassified in Hin as (_ & _ & Hfresh).
    by apply Hfresh.
Qed.

Lemma classify_success_keeps_sent_witness :
  let p := fst (classifyEmails_send scenarioPipeline) in
  let p' := fst (classifyEmails_receive [sampleEmail "3"] (ClassifyOk []) p) in
  classifications (Pipeline.store p') !! "3" = None
  ∧ sampleEmail "3"
      ∉ unclassified (Pipeline.store p') (Pipeline.classifiedIdsRef p').
Proof.
  intros p p'.
  destruct (classify_success_keeps_sent [sampleEmail "3"] [] p) as (_ & _ & Hstuck).
  destruct (Hstuck (sampleEmail "3")) as (Hnone & Hnever).
  - refine (bool_decide_unpack _ _). vm_compute. exact I.
  - simpl. apply not_elem_of_nil.
  - reflexivity.
  - split; [exact Hnone | apply Hnever].
Defined.

(** * Further properties of the keyboard handler *)

Ltac handleKeyDown_cases shown :=
  unfold handleKeyDown;
  repeat match goal with
  | |- context [if ?b then _ else _] => destruct b eqn:?
  | |- context [match at_index shown ?j with _ => _ end] =>
      destruct (at_index shown j) eqn:?
  | |- context [match selectedEmailId ?s with _ => _ end] =>
      destruct (selectedEmailId s) eqn:?
  end.

(** X15: no key changes the loaded list, the classifications, the tags,
    the filters, the cursor or the has-more, classifying and load-more
    flags; and a key event whose target is an [INPUT] or a [TEXTAREA]
    changes nothing at all and has no effect, not even
    [preventDefault]. *)
Theorem handleKeyDown_frame (isoAfter : DateRange -> string) (shown : list Email.t)
    (e : KeyboardEvent.t) (v : ListView.t) :
  let s := ListView.store v in
  let s' := storeAfter (handleKeyDown isoAfter shown e v) v in
  (emails s' = emails s
   ∧ classifications s' = classifications s
   ∧ emailTags s' = emailTags s
   ∧ userTags s' = userTags s
   ∧ filters s' = filters s
   ∧ pageToken s' = pageToken s
   ∧ hasMore s' = hasMore s
   ∧ isClassifying s' = isClassifying s
   ∧ isLoadingMore s' = isLoadingMore s)
  ∧ (KeyboardEvent.targetTagName e = "INPUT"
     ∨ KeyboardEvent.targetTagName e = "TEXTAREA" →
     handleKeyDown isoAfter shown e v = Normal v []).
Proof.
  split.
  - handleKeyDown_cases shown; simpl; repeat split.
  - intros Htarget. unfold handleKeyDown.
    by destruct Htarget as [-> | ->].
Qed.

Lemma at_index_elem_of {A} (l : list A) (i : Z) (x : A) :
  at_index l i = Some x → x ∈ l.
Proof.
  unfold at_index. destruct (i <? 0); [discriminate |].
  intros H. by eapply list_elem_of_lookup_2.
Qed.

(** X16: whatever the key, the active id after the event is the active id
    before it, or none, or the id of a message of the shown list: the
    handler never activates a message that is not displayed. *)
Theorem handleKeyDown_active_shown (isoAfter : DateRange -> string)
    (shown : list Email.t) (e : KeyboardEvent.t) (v : ListView.t) :
  let active := selectedEmailId (ListView.store v) in
  let active' := selectedEmailId (storeAfter (handleKeyDown isoAfter shown e v) v) in
  active' = active ∨ active' = None
  ∨ ∃ m, m ∈ shown ∧ active' = Some (Email.id m).
Proof.
  handleKeyDown_cases shown; simpl;
    try (by left); try (right; by left);
    right; right;
    match goal with
    | H : at_index shown _ = Some ?m |- _ =>
        exists m; split; [by apply at_index_elem_of in H | reflexivity]
    end.
Qed.

(** X17: [x] toggles the active message in the selection and does nothing
    when no message is active; pressed twice it gives the store back.  The
    active id need not be the id of a shown message. *)
Theorem key_x_toggles (isoAfter : DateRange -> string) (shown : list Email.t)
    (e : KeyboardEvent.t) (v : ListView.t) :
  outsideTextControl e → KeyboardEvent.key e = "x" →
  let press := handleKeyDown isoAfter shown e in
  let store := ListView.store v in
  (∀ i, selectedEmailId store = Some i → i ≠ "" →
     press v = Normal (forceRender (withStore (toggleEmailSelection i store) v)) []
     ∧ ListView.store (viewAfter (press (viewAfter (press v) v)) (viewAfter (press v) v))
       = store)
  ∧ (selectedEmailId store = None ∨ selectedEmailId store = Some "" →
     press v = Normal v []).
Proof.
  intros Hout Hkey press store.
  assert (Hx : ∀ w, press w =
            match selectedEmailId (ListView.store w) with
            | Some i =>
                if truthy (selectedEmailId (ListView.store w))
                then Normal (forceRender
                               (withStore (toggleEmailSelection i (ListView.store w)) w)) []
                else Normal w []
            | None => Normal w []
            end).
  { intros w. subst press. unfold handleKeyDown, keyIs. rewrite Hout, Hkey.
    reflexivity. }
  split.
  - intros i Hactive Hne.
    assert (Htruthy : truthy (Some i) = true).
    { simpl. apply negb_true_iff. by apply String.eqb_neq. }
    assert (H1 : press v
              = Normal (forceRender (withStore (toggleEmailSelection i store) v)) []).
    { rewrite Hx. fold store. by rewrite Hactive, Htruthy. }
    split; [exact H1 |].
    rewrite H1. simpl. rewrite Hx. simpl. fold store. rewrite Hactive, Htruthy.
    simpl. apply toggleEmailSelection_twice.
  - intros Hnone. rewrite Hx. fold store. by destruct Hnone as [-> | ->].
Qed.

Lemma key_x_toggles_witness :
  let shown := sampleEmail <$> ["A"; "B"] in
  let v := sampleView (selectEmail (Some "B") (setEmails shown initialState))
             initialUI in
  handleKeyDown sampleClock shown (keyPress "x") v
  = Normal (forceRender
              (withStore (toggleEmailSelection "B" (ListView.store v)) v)) [].
Proof.
  intros shown v.
  destruct (key_x_toggles sampleClock shown (keyPress "x") v) as (Hon & _).
  - reflexivity.
  - reflexivity.
  - destruct (Hon "B") as (H1 & _); [reflexivity | discriminate | exact H1].
Defined.

(** [a] with Ctrl or Cmd held selects every loaded message, whether
    the shown list contains it or not, and prevents the browser's default;
    a plain [a] does nothing. *)
Theorem key_select_all (isoAfter : DateRange -> string) (shown : list Email.t)
    (e : KeyboardEvent.t) (v : ListView.t) :
  outsideTextControl e → KeyboardEvent.key e = "a" →
  let store := ListView.store v in
  (KeyboardEvent.metaKey e = true ∨ KeyboardEvent.ctrlKey e = true →
     handleKeyDown isoAfter shown e v
     = Normal (forceRender (withStore (selectAllEmails store) v)) [PreventDefault]
     ∧ ∀ i, i ∈ selectedEmailIds
                  (storeAfter (handleKeyDown isoAfter shown e v) v)
            ↔ ∃ m, m ∈ emails store ∧ Email.id m = i)
  ∧ (KeyboardEvent.metaKey e = false → KeyboardEvent.ctrlKey e = false →
     handleKeyDown isoAfter shown e v = Normal v []).
Proof.
  intros Hout Hkey store.
  assert (Ha : handleKeyDown isoAfter shown e v =
            if KeyboardEvent.metaKey e || KeyboardEvent.ctrlKey e
            then Normal (forceRender (withStore (selectAllEmails store) v))
                        [PreventDefault]
            else Normal v []).
  { unfold handleKeyDown, keyIs. rewrite Hout, Hkey. reflexivity. }
  rewrite Ha. split.
  - intros Hmod.
    assert (Hor : KeyboardEvent.metaKey e || KeyboardEvent.ctrlKey e = true).
    { destruct Hmod as [-> | ->]; [reflexivity | apply orb_true_r]. }
    rewrite Hor. split; [reflexivity |].
    intros i. simpl. rewrite elem_of_list_to_set, list_elem_of_fmap.
    split; intros (m & H1 & H2); eauto.
  - intros -> ->. reflexivity.
Qed.

Lemma key_select_all_witness :
  let v := sampleView (setEmails (sampleEmail <$> ["A"; "B"]) initialState)
             initialUI in
  let e := {| KeyboardEvent.key := "a";
              KeyboardEvent.targetTagName := "BODY";
              KeyboardEvent.metaKey := false;
              KeyboardEvent.ctrlKey := true |} in
  handleKeyDown sampleClock [sampleEmail "A"] e v
  = Normal (forceRender (withStore (selectAllEmails (ListView.store v)) v))
           [PreventDefault].
Proof.
  intros v e.
  destruct (key_select_all sampleClock [sampleEmail "A"] e v) as (Hmod & _).
  - reflexivity.
  - reflexivity.
  - destruct Hmod as (H1 & _); [by right | exact H1].
Defined.

(** A plain [r] refreshes: it raises the loading flag, clears the
    error, and requests the first page for the current filters, without a
    page token; the loaded list, the cursor and the selection stay as they
    are until the response arrives.  With Ctrl or Cmd held the handler
    does nothing, leaving the browser's reload alone. *)
Theorem key_refresh (isoAfter : DateRange -> string) (shown : list Email.t)
    (e : KeyboardEvent.t) (v : ListView.t) :
  outsideTextControl e → KeyboardEvent.key e = "r" →
  let store := ListView.store v in
  let query := buildQuery isoAfter (filters store) in
  (KeyboardEvent.metaKey e = false → KeyboardEvent.ctrlKey e = false →
     handleKeyDown isoAfter shown e v
     = Normal (withStore (setError None (setLoading true store)) v)
         [Send (GetMessages (if negb (String.eqb query "") then Some query else None)
                            None)])
  ∧ (KeyboardEvent.metaKey e = true ∨ KeyboardEvent.ctrlKey e = true →
     handleKeyDown isoAfter shown e v = Normal v []).
Proof.
  intros Hout Hkey store query.
  assert (Hr : handleKeyDown isoAfter shown e v =
            if negb (KeyboardEvent.metaKey e) && negb (KeyboardEvent.ctrlKey e)
            then let '(s1, r) := fetchEmails_send isoAfter false store in
                 Normal (withStore s1 v) [Send r]
            else Normal v []).
  { unfold handleKeyDown, keyIs. rewrite Hout, Hkey. reflexivity. }
  rewrite Hr. split.
  - intros -> ->. reflexivity.
  - intros [-> | ->]; [reflexivity |].
    by rewrite andb_false_r.
Qed.

Lemma key_refresh_witness :
  let v := sampleView (setPageToken (Some "x")
                         (setEmails [sampleEmail "A"] initialState)) initialUI in
  handleKeyDown sampleClock [sampleEmail "A"] (keyPress "r") v
  = Normal (withStore (setError None (setLoading true (ListView.store v))) v)
           [Send (GetMessages None None)].
Proof.
  intros v.
  destruct (key_refresh sampleClock [sampleEmail "A"] (keyPress "r") v) as (Hplain & _).
  - reflexivity.
  - reflexivity.
  - exact (Hplain eq_refl eq_refl).
Defined.

(** * The filter bar *)

Lemma isVisible_ext (s1 s2 : EmailState.t) (m : Email.t) :
  classifications s1 = classifications s2 →
  emailTags s1 = emailTags s2 →
  EmailFilters.priorities (filters s1) = EmailFilters.priorities (filters s2) →
  EmailFilters.tags (filters s1) = EmailFilters.tags (filters s2) →
  EmailFilters.excludeRedundant (filters s1)
  = EmailFilters.excludeRedundant (filters s2) →
  (∀ c, c ∈ EmailFilters.categories (filters s1)
        ↔ c ∈ EmailFilters.categories (filters s2)) →
  isVisible s1 m = isVisible s2 m.
Proof.
  intros Hcls Htags Hp Ht He Hsame. unfold isVisible.
  rewrite Hcls, Htags, Hp, Ht, He.
  set (cats1 := EmailFilters.categories (filters s1)) in *.
  set (cats2 := EmailFilters.categories (filters s2)) in *.
  assert (Hlen : (0 <? Z.of_nat (length cats1)) = (0 <? Z.of_nat (length cats2))).
  { destruct cats1 as [|a l1], cats2 as [|b l2]; try reflexivity.
    - exfalso. eapply not_elem_of_nil, Hsame, elem_of_cons. by left.
    - exfalso. eapply not_elem_of_nil, Hsame, elem_of_cons. by left. }
  rewrite Hlen.
  destruct (classifications s2 !! Email.id m) as [c|]; [| reflexivity].
  unfold includes at 1 2.
  by rewrite (bool_decide_ext _ _ (Hsame (EmailClassification.category c))).
Qed.

(** X18: clicking a category chip flips the membership of that category in
    the category filter and of no other.  A second click on the same chip
    gives the original selection back as a set (and as the very same list
    when the category was not selected at first), so the filtered list
    after two clicks is the one before them. *)
Theorem toggleCategory_flip (category : string) (s : EmailState.t) :
  let old := EmailFilters.categories (filters s) in
  let once := EmailFilters.categories (filters (toggleCategory category s)) in
  let twice := EmailFilters.categories
                 (filters (toggleCategory category (toggleCategory category s))) in
  (∀ c, c ∈ once ↔ if decide (c = category) then c ∉ old else c ∈ old)
  ∧ (∀ c, c ∈ twice ↔ c ∈ old)
  ∧ (category ∉ old → twice = old)
  ∧ getFilteredEmails (toggleCategory category (toggleCategory category s))
    = getFilteredEmails s.
Proof.
  intros old once twice.
  assert (Hflip : ∀ t c,
            c ∈ EmailFilters.categories (filters (toggleCategory category t))
            ↔ if decide (c = category)
              then c ∉ EmailFilters.categories (filters t)
              else c ∈ EmailFilters.categories (filters t)).
  { intros t c. unfold toggleCategory, updateFilter, includes. simpl.
    destruct (filters t) as [se un ha da ca pr ta ex]. simpl.
    case_bool_decide as Hin.
    - rewrite list_elem_of_In, filter_In, <- list_elem_of_In, negb_true_iff.
      destruct (decide (c = category)) as [-> | Hne].
      + rewrite String.eqb_refl. split; [intros [_ ?]; discriminate | done].
      + apply String.eqb_neq in Hne. rewrite Hne. tauto.
    - rewrite elem_of_app, list_elem_of_singleton.
      destruct (decide (c = category)) as [-> | Hne]; tauto. }
  assert (Hsame : ∀ c, c ∈ twice ↔ c ∈ old).
  { intros c. subst twice. rewrite Hflip.
    destruct (decide (c = category)) as [-> | Hne].
    - rewrite (Hflip s category). rewrite decide_True by done.
      split; [apply dec_stable | tauto].
    - rewrite (Hflip s c). by rewrite decide_False. }
  split; [apply Hflip |]. split; [exact Hsame |]. split.
  - intros Hout. subst twice old. unfold toggleCategory, updateFilter, includes.
    simpl. destruct (filters s) as [se un ha da ca pr ta ex]. simpl in *.
    rewrite (bool_decide_eq_false_2 _ Hout). simpl.
    rewrite bool_decide_eq_true_2 by (apply elem_of_app; right; by apply elem_of_cons; left).
    rewrite List.filter_app. simpl. rewrite String.eqb_refl. simpl.
    rewrite app_nil_r. apply list_filter_all. intros c Hc.
    apply negb_true_iff, String.eqb_neq. intros ->. by apply Hout.
  - unfold getFilteredEmails.
    change (emails (toggleCategory category (toggleCategory category s)))
      with (emails s).
    apply filter_ext. intros m.
    apply isVisible_ext; try reflexivity; try exact Hsame;
      unfold toggleCategory, updateFilter; simpl; by destruct (filters s).
Qed.

(** * The assistant's viewing context *)

Lemma size_pos_bool (X : gset string) :
  (0 <? Z.of_nat (size X)) = bool_decide (X ≠ ∅).
Proof.
  destruct (decide (X = ∅)) as [-> | Hne].
  - by rewrite size_empty, bool_decide_eq_false_2 by (intros H; by apply H).
  - rewrite bool_decide_eq_true_2 by done. apply Z.ltb_lt.
    assert (size X ≠ 0%nat); [| lia].
    rewrite size_non_empty_iff. intros Heq. apply Hne. by apply leibniz_equiv.
Qed.

(** X19: the messages the assistant works on are always a sublist of the
    loaded list, in its order, and the context lists the id of each of
    them.  A non-empty selection wins over the filters: the messages are
    the loaded ones whose id is selected, hidden by the filters or not,
    without a cap.  Without a selection an active filter gives the first
    50 messages of the filtered list, and no filter the first 10 loaded
    messages. *)
Theorem getContextualEmails_scope (s : EmailState.t) :
  let chosen := fst (getContextualEmails s) in
  let ctx := snd (getContextualEmails s) in
  chosen `sublist_of` emails s
  ∧ (∀ e, e ∈ chosen → Email.id e ∈ ViewingContext.emailIds ctx)
  ∧ (selectedEmailIds s ≠ ∅ →
       ViewingContext.type ctx = CtxSelection
       ∧ (∀ e, e ∈ chosen ↔ e ∈ emails s ∧ Email.id e ∈ selectedEmailIds s)
       ∧ (∀ i, i ∈ ViewingContext.emailIds ctx ↔ i ∈ selectedEmailIds s))
  ∧ (selectedEmailIds s = ∅ → hasFilters (filters s) = true →
       ViewingContext.type ctx = CtxFilter
       ∧ chosen = take 50 (getFilteredEmails s)
       ∧ (length chosen ≤ 50)%nat)
  ∧ (selectedEmailIds s = ∅ → hasFilters (filters s) = false →
       ViewingContext.type ctx = CtxDefault
       ∧ chosen = take 10 (emails s)
       ∧ (length chosen ≤ 10)%nat).
Proof.
  intros chosen ctx. subst chosen ctx. unfold getContextualEmails.
  rewrite size_pos_bool.
  destruct (decide (selectedEmailIds s = ∅)) as [Hempty | Hsel].
  - rewrite bool_decide_eq_false_2 by (intros H; by apply H).
    destruct (hasFilters (filters s)) eqn:Hf; simpl.
    + split; [| split; [| split; [| split]]].
      * etransitivity; [apply sublist_take | apply list_filter_sublist].
      * intros e He. apply list_elem_of_In, in_map, list_elem_of_In, He.
      * done.
      * intros _ _. split; [done |]. split; [done |]. rewrite length_take. lia.
      * discriminate.
    + split; [| split; [| split; [| split]]].
      * apply sublist_take.
      * intros e He. apply list_elem_of_In, in_map, list_elem_of_In, He.
      * done.
      * discriminate.
      * intros _ _. split; [done |]. split; [done |]. rewrite length_take. lia.
  - rewrite bool_decide_eq_true_2 by done. simpl.
    assert (Hin : ∀ e,
              e ∈ List.filter (fun e => bool_decide (Email.id e ∈ selectedEmailIds s))
                    (emails s)
              ↔ e ∈ emails s ∧ Email.id e ∈ selectedEmailIds s).
    { intros e. rewrite !list_elem_of_In, filter_In, bool_decide_eq_true. done. }
    split; [| split; [| split; [| split]]].
    + apply list_filter_sublist.
    + intros e He. apply elem_of_elements. by apply Hin in He as [_ ?].
    + intros _. split; [done |]. split; [exact Hin |].
      intros i. apply elem_of_elements.
    + done.
    + done.
Qed.

Lemma getContextualEmails_scope_witness :
  let s := toggleEmailSelection "m2"
             (updateFilter (SetCategories ["finance"])
                (setEmails (sampleEmail <$> ["m1"; "m2"; "m3"]) initialState)) in
  ViewingContext.type (snd (getContextualEmails s)) = CtxSelection
  ∧ (∀ e, e ∈ fst (getContextualEmails s)
          ↔ e ∈ emails s ∧ Email.id e ∈ selectedEmailIds s).
Proof.
  intros s.
  destruct (getContextualEmails_scope s) as (_ & _ & Hsel & _).
  destruct Hsel as (Htype & Hin & _).
  - intros Hempty.
    assert (Hm : "m2" ∈ selectedEmailIds s).
    { refine (bool_decide_unpack _ _). vm_compute. exact I. }
    rewrite Hempty in Hm. by apply not_elem_of_empty in Hm.
  - split; [exact Htype | exact Hin].
Defined.

(** The selection context of the witness: the selected message is hidden
    by the category filter and is still the one the assistant gets. *)
Example contextual_selection_scenario :
  let s := toggleEmailSelection "m2"
             (updateFilter (SetCategories ["finance"])
                (setEmails (sampleEmail <$> ["m1"; "m2"; "m3"]) initialState)) in
  getFilteredEmails s = []
  ∧ fst (getContextualEmails s) = [sampleEmail "m2"]
  ∧ ViewingContext.description (snd (getContextualEmails s)) = "1 selected email".
Proof. vm_compute. repeat split. Qed.

(** * Message parts (lib/gmail.ts) *)

(** Induction over a part and its nested parts. *)
Lemma GmailMessagePart_nested_ind (P : GmailMessagePart -> Prop) :
  (∀ m b, P (MessagePart m b None)) →
  (∀ m b nested, Forall P nested → P (MessagePart m b (Some nested))) →
  ∀ p, P p.
Proof.
  intros Hleaf Hnode. fix IH 1. intros [m b [nested|]].
  - apply Hnode. induction nested as [|q rest IHrest]; constructor.
    + apply IH.
    + apply IHrest.
  - apply Hleaf.
Qed.

Lemma find_app_first {A} (p : A -> bool) (l1 l2 : list A) :
  find p (l1 ++ l2)
  = match find p l1 with Some x => Some x | None => find p l2 end.
Proof.
  induction l1 as [|x l1 IH]; simpl; [done |]. by destruct (p x).
Qed.

Lemma firstSome_find (mimeType : string) (l : list GmailMessagePart) :
  Forall (fun p => findPartIn mimeType p
                   = find (mimeTypeIs mimeType) (partsInOrderOf p)) l →
  firstSome (findPartIn mimeType) l
  = find (mimeTypeIs mimeType) (concat (map partsInOrderOf l)).
Proof.
  induction 1 as [|q rest Hq _ IH]; simpl; [done |].
  rewrite find_app_first, <- Hq, IH. reflexivity.
Qed.

Lemma findPartIn_find (mimeType : string) (p : GmailMessagePart) :
  findPartIn mimeType p = find (mimeTypeIs mimeType) (partsInOrderOf p).
Proof.
  induction p as [m b | m b nested IH] using GmailMessagePart_nested_ind.
  - simpl. unfold mimeTypeIs. simpl.
    by destruct (match m with Some t => String.eqb t mimeType | None => false end).
  - simpl. unfold mimeTypeIs at 1. simpl.
    destruct (match m with Some t => String.eqb t mimeType | None => false end);
      [done |].
    by apply firstSome_find.
Qed.

Lemma findPart_find (parts : list GmailMessagePart) (mimeType : string) :
  findPart parts mimeType = find (mimeTypeIs mimeType) (partsInOrder parts).
Proof.
  apply firstSome_find, Forall_forall. intros p _. apply findPartIn_find.
Qed.

(** X20: [findPart] returns the first part, in document order (a part
    before its nested parts, nested parts before later siblings), whose
    MIME type is the wanted one.  So a returned part has that type and
    lies somewhere in the tree, and [null] is returned exactly when no
    part of the tree, at any depth, has the type. *)
Theorem findPart_first_in_order (parts : list GmailMessagePart) (mimeType : string) :
  findPart parts mimeType = find (mimeTypeIs mimeType) (partsInOrder parts)
  ∧ (∀ p, findPart parts mimeType = Some p →
          partMimeType p = Some mimeType ∧ p ∈ partsInOrder parts)
  ∧ (findPart parts mimeType = None
     ↔ ∀ p, p ∈ partsInOrder parts → partMimeType p ≠ Some mimeType).
Proof.
  rewrite findPart_find. split; [reflexivity |]. split.
  - intros p Hfind. apply find_some in Hfind as [Hin Hty]. split.
    + unfold mimeTypeIs in Hty. destruct (partMimeType p) as [t|]; [| discriminate].
      apply String.eqb_eq in Hty. by rewrite Hty.
    + by apply list_elem_of_In.
  - split.
    + intros Hnone p Hin Hty. apply list_elem_of_In in Hin.
      apply (find_none _ _ Hnone) in Hin.
      unfold mimeTypeIs in Hin. rewrite Hty, String.eqb_refl in Hin. discriminate.
    + intros Hall. destruct (find _ _) as [p|] eqn:Hfind; [| done].
      apply find_some in Hfind as [Hin Hty]. exfalso.
      apply (Hall p); [by apply list_elem_of_In |].
      unfold mimeTypeIs in Hty. destruct (partMimeType p) as [t|]; [| discriminate].
      apply String.eqb_eq in Hty. by rewrite Hty.
Qed.

Lemma existsb_app_orb {A} (p : A -> bool) (l1 l2 : list A) :
  existsb p (l1 ++ l2) = existsb p l1 || existsb p l2.
Proof. apply existsb_app. Qed.

Lemma partHasAttachment_exists (p : GmailMessagePart) :
  partHasAttachment p
  = existsb (fun q => isAttachmentType (partMimeType q)) (partsInOrderOf p).
Proof.
  induction p as [m b | m b nested IH] using GmailMessagePart_nested_ind.
  - simpl. by destruct (isAttachmentType m).
  - simpl. destruct (isAttachmentType m); [done |]. simpl.
    induction IH as [|q rest Hq _ IHrest]; simpl; [done |].
    by rewrite existsb_app_orb, <- Hq, IHrest.
Qed.

(** X21: [checkForAttachments] answers [true] exactly when some part of the
    tree, at any depth, has a non-empty MIME type that starts with neither
    [text/] nor [multipart/]; without a parts array it answers [false]. *)
Theorem checkForAttachments_spec (parts : option (list GmailMessagePart)) :
  checkForAttachments parts = true
  ↔ ∃ l p t, parts = Some l ∧ p ∈ partsInOrder l ∧ partMimeType p = Some t
             ∧ t ≠ ""
             ∧ String.prefix "text/" t = false
             ∧ String.prefix "multipart/" t = false.
Proof.
  destruct parts as [l|]; simpl.
  2: { split; [discriminate | intros (l & _ & _ & Habs & _); discriminate]. }
  assert (Hex : existsb partHasAttachment l
                = existsb (fun q => isAttachmentType (partMimeType q))
                    (partsInOrder l)).
  { unfold partsInOrder. induction l as [|q rest IH]; simpl; [done |].
    by rewrite existsb_app_orb, <- partHasAttachment_exists, IH. }
  rewrite Hex, existsb_exists. split.
  - intros (p & Hin & Hty). unfold isAttachmentType in Hty.
    destruct (partMimeType p) as [t|] eqn:Hm; [| discriminate].
    apply andb_true_iff in Hty as [Hty H3]. apply andb_true_iff in Hty as [H1 H2].
    exists l, p, t. apply list_elem_of_In in Hin.
    apply negb_true_iff in H1, H2, H3. apply String.eqb_neq in H1. done.
  - intros (l' & p & t & Hl & Hin & Hm & Hne & H2 & H3). injection Hl as <-.
    exists p. split; [by apply list_elem_of_In |].
    unfold isAttachmentType. rewrite Hm, H2, H3.
    apply String.eqb_neq in Hne. by rewrite Hne.
Qed.

(** X22: for a message whose payload has no body data of its own,
    [extractBody] prefers HTML: when the first [text/html] part in
    document order carries data, the body is that data decoded and is
    flagged HTML, whatever [text/plain] parts there are.  Otherwise the
    result is never flagged HTML: it is the decoded data of the first
    [text/plain] part when that carries data, and the snippet if not.  A
    later [text/html] part is not looked at when the first one has no
    data. *)
Theorem extractBody_prefers_html (decode : string -> string) (msg : GmailMessage.t)
    (payload : Payload.t) (parts : list GmailMessagePart) :
  GmailMessage.payload msg = Some payload →
  bodyData (Payload.body payload) = None →
  Payload.parts payload = Some parts →
  let firstOf t := find (mimeTypeIs t) (partsInOrder parts) in
  let dataOf (o : option GmailMessagePart) :=
    match o with Some p => bodyData (partBody p) | None => None end in
  (∀ d, dataOf (firstOf "text/html") = Some d →
        extractBody decode msg = (decode d, true))
  ∧ (dataOf (firstOf "text/html") = None →
     extractBody decode msg
     = match dataOf (firstOf "text/plain") with
       | Some d => (decode d, false)
       | None => (GmailMessage.snippet msg, false)
       end).
Proof.
  intros Hpayload Hbody Hparts firstOf dataOf.
  unfold extractBody. rewrite Hpayload, Hbody, Hparts.
  rewrite !findPart_find. fold (firstOf "text/html") (firstOf "text/plain").
  fold (dataOf (firstOf "text/html")) (dataOf (firstOf "text/plain")).
  split.
  - intros d ->. reflexivity.
  - intros ->. by destruct (dataOf (firstOf "text/plain")).
Qed.


Lemma extractBody_prefers_html_witness :
  extractBody (fun d => d) sampleMultipart = ("PGI-SGVsbG88L2I-", true).
Proof.
  destruct (extractBody_prefers_html (fun d => d) sampleMultipart
              {| Payload.headers := [("From", "Ada <ada@example.org>")];
                 Payload.mimeType := Some "multipart/mixed";
                 Payload.body := Some {| PartBody.data := None; PartBody.size := Some 0 |};
                 Payload.parts :=
                   match GmailMessage.payload sampleMultipart with
                   | Some pl => Payload.parts pl
                   | None => None
                   end |}
              (default [] match GmailMessage.payload sampleMultipart with
                          | Some pl => Payload.parts pl
                          | None => None
                          end)
              eq_refl eq_refl eq_refl) as (Hhtml & _).
  apply Hhtml. reflexivity.
Defined.

(** The sample message has an attachment (the PDF part). *)
Example checkForAttachments_sample :
  checkForAttachments
    match GmailMessage.payload sampleMultipart with
    | Some pl => Payload.parts pl
    | None => None
    end = true.
Proof. reflexivity. Qed.

(** * Batched fetching (lib/gmail.ts) *)

Lemma promiseAll_app {R} (l1 l2 : list (option R)) :
  promiseAll (l1 ++ l2)
  = match promiseAll l1 with
    | Some r1 =>
        match promiseAll l2 with
        | Some r2 => Some (r1 ++ r2)%list
        | None => None
        end
    | None => None
    end.
Proof.
  induction l1 as [|[r|] l1 IH]; simpl.
  - by destruct (promiseAll l2).
  - rewrite IH. destruct (promiseAll l1); [| done]. by destruct (promiseAll l2).
  - done.
Qed.

Lemma promiseAll_all_resolved {T R} (f : T -> R) (l : list T) :
  promiseAll (map (fun x => Some (f x)) l) = Some (map f l).
Proof. induction l as [|x l IH]; simpl; [done |]. by rewrite IH. Qed.

Lemma fetchInBatches_from_enough {T R} (items : list T) (fn : T -> option R)
    (batchSize : nat) :
  (1 ≤ batchSize)%nat →
  ∀ fuel i results,
    (length items - i < fuel)%nat →
    fetchInBatches_from fuel items fn batchSize i results
    = match promiseAll (map fn (drop i items)) with
      | Some rs => Resolved (results ++ rs)%list
      | None => Rejected
      end.
Proof.
  intros Hb. induction fuel as [|fuel IH]; intros i results Hfuel; [lia |].
  simpl. destruct (Nat.ltb_spec i (length items)) as [Hlt | Hge].
  - rewrite <- (take_drop batchSize (drop i items)) at 2.
    rewrite map_app, promiseAll_app.
    destruct (promiseAll (map fn (take batchSize (drop i items)))) as [rs|];
      [| done].
    rewrite IH by lia. rewrite drop_drop.
    destruct (promiseAll (map fn (drop (i + batchSize) items))) as [rs'|]; [| done].
    by rewrite (assoc_L (++)).
  - rewrite drop_ge by lia. simpl. by rewrite app_nil_r.
Qed.

(** X23: batching does not show in the result of [fetchInBatches].  For
    every batch size of at least 1 the call ends, and it resolves to the
    results of [fn] on all items, in the order of the items, when every
    call of [fn] resolves, and rejects when one does not.  With batch size
    0 and at least one item the loop never ends. *)
Theorem fetchInBatches_transparent {T R} (items : list T) (fn : T -> option R)
    (batchSize : nat) :
  ((1 ≤ batchSize)%nat →
     fetchInBatches items fn batchSize
     = match promiseAll (map fn items) with
       | Some rs => Resolved rs
       | None => Rejected
       end)
  ∧ ((1 ≤ batchSize)%nat → ∀ f : T -> R,
       fetchInBatches items (fun x => Some (f x)) batchSize = Resolved (map f items))
  ∧ (batchSize = 0%nat → items ≠ [] → ∀ fuel results,
       fetchInBatches_from fuel items fn batchSize 0 results = OutOfFuel).
Proof.
  split; [| split].
  - intros Hb. unfold fetchInBatches.
    rewrite (fetchInBatches_from_enough items fn batchSize Hb) by lia.
    rewrite drop_0. by destruct (promiseAll (map fn items)).
  - intros Hb f. unfold fetchInBatches.
    rewrite (fetchInBatches_from_enough items _ batchSize Hb) by lia.
    by rewrite drop_0, promiseAll_all_resolved.
  - intros -> Hne fuel. induction fuel as [|fuel IH]; intros results; [done |].
    simpl. destruct items as [|x items]; [done |]. simpl. apply IH.
Qed.

Lemma fetchInBatches_transparent_witness :
  fetchInBatches ["a"; "b"; "c"; "d"; "e"] (fun i => Some ("msg-" +:+ i)) 2
  = Resolved ["msg-a"; "msg-b"; "msg-c"; "msg-d"; "msg-e"].
Proof.
  destruct (fetchInBatches_transparent ["a"; "b"; "c"; "d"; "e"]
              (fun i => Some ("msg-" +:+ i)) 2) as (_ & Hall & _).
  apply (Hall ltac:(lia) (fun i => "msg-" +:+ i)).
Defined.

(** * Retrying a model call (lib/gemini.ts) *)

Lemma withRetry_loop_spec {T} (toLowerCase : string -> string)
    (fn : nat -> T + string) (maxRetries : nat) :
  ∀ left attempt lastError,
    (1 ≤ left)%nat → (left + attempt = maxRetries)%nat →
    let r := fst (withRetry_loop toLowerCase fn maxRetries left attempt lastError) in
    let calls := snd (withRetry_loop toLowerCase fn maxRetries left attempt lastError) in
    (attempt < calls ≤ maxRetries)%nat
    ∧ (∀ k, (attempt ≤ k < calls - 1)%nat →
         ∃ message, fn k = inr message ∧ isRetryable toLowerCase message = true)
    ∧ match r with
      | Returned value => fn (calls - 1)%nat = inl value
      | Threw (Some message) =>
          fn (calls - 1)%nat = inr message
          ∧ (isRetryable toLowerCase message = false ∨ calls = maxRetries)
      | Threw None => False
      end.
Proof.
  induction left as [|left IH]; intros attempt lastError Hleft Hsum; [lia |].
  simpl. destruct (fn attempt) as [value | message] eqn:Hfn.
  - simpl. replace (attempt - 0)%nat with attempt by lia.
    split; [lia |]. split; [intros k Hk; lia | exact Hfn].
  - destruct (isRetryable toLowerCase message) eqn:Hretry; simpl.
    + destruct (Nat.eqb_spec attempt (maxRetries - 1)) as [Hlast | Hmore]; simpl.
      * replace (attempt - 0)%nat with attempt by lia.
        split; [lia |]. split; [intros k Hk; lia |].
        split; [exact Hfn | right; lia].
      * destruct (IH (S attempt) (Some message)) as (Hcalls & Hbefore & Hres);
          [lia | lia |].
        split; [lia |]. split; [| exact Hres].
        intros k Hk. destruct (decide (k = attempt)) as [-> | Hne].
        -- eauto.
        -- apply Hbefore. lia.
    + replace (attempt - 0)%nat with attempt by lia.
      split; [lia |]. split; [intros k Hk; lia |].
      split; [exact Hfn | by left].
Qed.

(** X24: [withRetry] with a limit of at least one attempt calls [fn]
    between one and [maxRetries] times.  It stops at the first call that
    resolves, returning its value, or at the first call that rejects with
    an error that is not retryable, or at call number [maxRetries],
    throwing that call's error; every earlier call rejected with a
    retryable error.  With a limit of 0 it never calls [fn] and throws
    [null]. *)
Theorem withRetry_spec {T} (toLowerCase : string -> string)
    (fn : nat -> T + string) (maxRetries : nat) :
  let r := fst (withRetry toLowerCase fn maxRetries) in
  let calls := snd (withRetry toLowerCase fn maxRetries) in
  ((1 ≤ maxRetries)%nat →
     (1 ≤ calls ≤ maxRetries)%nat
     ∧ (∀ k, (k < calls - 1)%nat →
          ∃ message, fn k = inr message ∧ isRetryable toLowerCase message = true)
     ∧ match r with
       | Returned value => fn (calls - 1)%nat = inl value
       | Threw (Some message) =>
           fn (calls - 1)%nat = inr message
           ∧ (isRetryable toLowerCase message = false ∨ calls = maxRetries)
       | Threw None => False
       end)
  ∧ (maxRetries = 0%nat → r = Threw None ∧ calls = 0%nat).
Proof.
  intros r calls. split.
  - intros Hmax.
    destruct (withRetry_loop_spec toLowerCase fn maxRetries maxRetries 0 None)
      as (Hcalls & Hbefore & Hres); [lia | lia |].
    fold (withRetry toLowerCase fn maxRetries) in Hcalls, Hbefore, Hres.
    fold r calls in Hcalls, Hbefore, Hres.
    split; [lia |]. split; [| exact Hres].
    intros k Hk. apply Hbefore. lia.
  - intros Hzero. subst r calls. rewrite Hzero. done.
Qed.

Lemma withRetry_spec_witness :
  withRetry lowerString flakyModel MAX_RETRIES = (Returned "ok", 3%nat)
  ∧ (1 ≤ snd (withRetry lowerString flakyModel MAX_RETRIES) ≤ MAX_RETRIES)%nat.
Proof.
  destruct (withRetry_spec lowerString flakyModel MAX_RETRIES) as (Hpos & _).
  assert (Hmax : (1 ≤ MAX_RETRIES)%nat) by (unfold MAX_RETRIES; lia).
  destruct (Hpos Hmax) as (Hcalls & _).
  split; [vm_compute; reflexivity | exact Hcalls].
Defined.

(** * Batch classification on the server *)

Lemma assignIds_from_lookup (emails : list EmailForAI.t)
    (parsed : list EmailClassificationResult.t) (i k : nat) :
  assignIds_from emails parsed i !! k
  = (fun c =>
       withResultId
         (match emails !! (i + k)%nat with
          | Some e => if String.eqb (EmailForAI.id e) ""
                      then EmailClassificationResult.id c
                      else EmailForAI.id e
          | None => EmailClassificationResult.id c
          end) c) <$> parsed !! k.
Proof.
  revert i k. induction parsed as [|c rest IH]; intros i k; [done |].
  destruct k as [|k]; simpl.
  - by rewrite Nat.add_0_r.
  - rewrite IH. by replace (S i + k)%nat with (i + S k)%nat by lia.
Qed.

Lemma assignIds_from_length (emails : list EmailForAI.t)
    (parsed : list EmailClassificationResult.t) (i : nat) :
  length (assignIds_from emails parsed i) = length parsed.
Proof. revert i. induction parsed as [|c rest IH]; intros i; simpl; [done |]. by rewrite IH. Qed.

Lemma assignIds_ids (emails : list EmailForAI.t)
    (parsed : list EmailClassificationResult.t) :
  (length parsed ≤ length emails)%nat →
  (∀ e, e ∈ emails → EmailForAI.id e ≠ "") →
  EmailClassificationResult.id <$> assignIds_from emails parsed 0
  = take (length parsed) (EmailForAI.id <$> emails).
Proof.
  intros Hlen Hids. apply list_eq. intros k.
  rewrite list_lookup_fmap, assignIds_from_lookup. simpl.
  destruct (decide (k < length parsed)%nat) as [Hk | Hk].
  - rewrite lookup_take_lt by done. rewrite list_lookup_fmap.
    destruct (lookup_lt_is_Some_2 parsed k Hk) as [c Hc].
    assert (Hk' : (k < length emails)%nat) by lia.
    destruct (lookup_lt_is_Some_2 emails k Hk') as [e He].
    rewrite Hc, He. simpl.
    assert (Hne : EmailForAI.id e ≠ "") by (by eapply Hids, list_elem_of_lookup_2).
    apply String.eqb_neq in Hne. by rewrite Hne.
  - rewrite lookup_take_ge by lia. by rewrite (lookup_ge_None_2 parsed k) by lia.
Qed.

(** X25: [classifyEmailsBatch] takes the ids of its results from the
    position of each result, not from the id the model wrote: result
    number [k] gets the id of email number [k] of the request (when that
    id is a non-empty string), and keeps the model's id only beyond the
    last email.  So when the model answers with at most as many
    classifications as there are emails, the result ids are the ids of the
    first emails in order.  An answer without usable JSON gives no
    result. *)
Theorem classifyEmailsBatch_ids (emails : list EmailForAI.t)
    (parsed : list EmailClassificationResult.t) :
  (∃ results,
     classifyEmailsBatch (ReplyClassifications parsed) emails = inl results
     ∧ length results = length parsed
     ∧ (∀ k c e, parsed !! k = Some c → emails !! k = Some e →
          EmailForAI.id e ≠ "" →
          results !! k = Some (withResultId (EmailForAI.id e) c))
     ∧ (∀ k c, parsed !! k = Some c → emails !! k = None →
          results !! k = Some c)
     ∧ ((length parsed ≤ length emails)%nat →
        (∀ e, e ∈ emails → EmailForAI.id e ≠ "") →
        EmailClassificationResult.id <$> results
        = take (length parsed) (EmailForAI.id <$> emails)))
  ∧ classifyEmailsBatch ReplyUnusable emails = inl [].
Proof.
  split; [| reflexivity].
  exists (assignIds_from emails parsed 0). split; [reflexivity |].
  split; [apply assignIds_from_length |]. split; [| split].
  - intros k c e Hc He Hne. rewrite assignIds_from_lookup, Hc. simpl. rewrite He.
    apply String.eqb_neq in Hne. by rewrite Hne.
  - intros k c Hc He. rewrite assignIds_from_lookup, Hc. simpl. rewrite He.
    by destruct c.
  - apply assignIds_ids.
Qed.

Lemma mergeEntries_map_to_list (m : ClassificationTable) :
  mergeEntries (map_to_list m) ∅ = m.
Proof.
  rewrite mergeEntries_union, (right_id ∅ (∪)).
  rewrite <- (list_to_map_to_list m) at 2. symmetry.
  apply list_to_map_proper.
  - apply NoDup_fst_map_to_list.
  - symmetry. apply reverse_Permutation.
Qed.

Lemma toClassificationMap_findManyFor (userId : string) (ids : list string)
    (db : ClassificationTable) :
  tableOk db →
  toClassificationMap (findManyFor userId ids db)
  = filter (fun kv => EmailClassification.userId kv.2 = userId ∧ kv.1 ∈ ids) db.
Proof.
  intros Hok. unfold toClassificationMap, findManyFor.
  set (m := filter _ db).
  assert (Hsame : map (fun c => (EmailClassification.emailId c, c)) (map_to_list m).*2
                  = map_to_list m).
  { change (map ?f ?l) with (f <$> l). rewrite <- list_fmap_compose.
    rewrite <- (list_fmap_id (map_to_list m)) at 2.
    apply list_fmap_ext. intros i [k row] Hkr. simpl. f_equal.
    apply list_elem_of_lookup_2, elem_of_map_to_list in Hkr.
    apply map_lookup_filter_Some in Hkr as [Hdb _]. by apply Hok. }
  rewrite Hsame. apply mergeEntries_map_to_list.
Qed.

Lemma findManyFor_emailIds (userId : string) (ids : list string)
    (db : ClassificationTable) (k : string) :
  tableOk db →
  k ∈ map EmailClassification.emailId (findManyFor userId ids db)
  ↔ ∃ row, db !! k = Some row ∧ EmailClassification.userId row = userId ∧ k ∈ ids.
Proof.
  intros Hok. unfold findManyFor.
  change (map ?f ?l) with (f <$> l). rewrite list_elem_of_fmap. split.
  - intros (row & -> & Hrow). apply list_elem_of_fmap in Hrow as ([k row'] & -> & Hin).
    apply elem_of_map_to_list, map_lookup_filter_Some in Hin as [Hdb [Hu Hk]].
    simpl in *. pose proof (Hok _ _ Hdb) as <-. eauto.
  - intros (row & Hdb & Hu & Hk). exists row. split; [symmetry; by apply Hok |].
    apply list_elem_of_fmap. exists (k, row). split; [done |].
    apply elem_of_map_to_list, map_lookup_filter_Some. done.
Qed.

(** X26: the requests [POST /api/classifications] answers without asking
    the model and without writing to the table.  Without a signed-in user
    the answer is 401, without emails 400.  When every one of the first 30
    emails of the request already has a row of this user, the answer is
    exactly those rows, marked [cached]: rows of other users and rows of
    emails beyond the 30th are not in it. *)
Theorem postClassifications_no_model_call (rowId : string -> string)
    (gemini : list EmailForAI.t -> option (list string) -> GeminiReply)
    (userEmail : option string) (emails : option (list EmailForAI.t))
    (existingEmailIds : option (list string)) (db : ClassificationTable) :
  let post := postClassifications rowId gemini userEmail emails existingEmailIds db in
  (truthy userEmail = false → post = (ErrorJson 401 "Unauthorized", db))
  ∧ (truthy userEmail = true → emails = None ∨ emails = Some [] →
     post = (ErrorJson 400 "No emails provided", db))
  ∧ (∀ user l,
       userEmail = Some user → user ≠ "" → emails = Some l → l ≠ [] → tableOk db →
       (∀ e, e ∈ take 30 l →
          ∃ row, db !! EmailForAI.id e = Some row
                 ∧ EmailClassification.userId row = user) →
       post = (Classified
                 (filter (fun kv => EmailClassification.userId kv.2 = user
                                    ∧ kv.1 ∈ map EmailForAI.id (take 30 l)) db)
                 true,
               db)).
Proof.
  intros post. subst post. unfold postClassifications. split; [| split].
  - by intros ->.
  - intros -> [-> | ->]; reflexivity.
  - intros user l -> Huser -> Hl Hok Hall.
    assert (Htruthy : truthy (Some user) = true).
    { simpl. apply negb_true_iff. by apply String.eqb_neq. }
    rewrite Htruthy. simpl negb. cbv iota.
    destruct l as [|e0 l0]; [done |].
    change (Z.of_nat (length (e0 :: l0)) =? 0) with false. cbv iota.
    simpl default.
    set (first30 := take 30 (e0 :: l0)) in *.
    rewrite (list_filter_none _ first30).
    + simpl. by rewrite toClassificationMap_findManyFor.
    + intros e He. apply negb_false_iff, bool_decide_eq_true.
      apply elem_of_list_to_set, findManyFor_emailIds; [done |].
      destruct (Hall e He) as (row & Hrow & Hu). exists row.
      split; [done |]. split; [done |].
      apply list_elem_of_In, in_map, list_elem_of_In, He.
Qed.

Lemma upsertAll_other (rowId : string -> string) (userId : string)
    (results : list EmailClassificationResult.t) (db : ClassificationTable)
    (k : string) :
  k ∉ EmailClassificationResult.id <$> results →
  fst (upsertAll rowId userId results db) !! k = db !! k.
Proof.
  revert db. induction results as [|result rest IH]; intros db Hk; [done |].
  simpl in *. apply not_elem_of_cons in Hk as [Hne Hrest].
  destruct (upsertAll rowId userId rest _) as [db' saved] eqn:Hrec. simpl.
  replace db' with (fst (upsertAll rowId userId rest
                           (<[EmailClassificationResult.id result :=
                                upsertRow rowId userId result db]> db)))
    by (by rewrite Hrec).
  rewrite IH by done. by rewrite lookup_insert_ne.
Qed.

Lemma upsertRow_kept (rowId : string -> string) (userId : string)
    (result : EmailClassificationResult.t) (db : ClassificationTable) :
  rowKept userId (EmailClassificationResult.id result)
    (db !! EmailClassificationResult.id result)
    (upsertRow rowId userId result db).
Proof.
  unfold upsertRow, rowKept.
  by destruct (db !! EmailClassificationResult.id result).
Qed.

Lemma rowKept_trans (userId k : string) (before : option EmailClassification.t)
    (mid after : EmailClassification.t) :
  rowKept userId k before mid → rowKept userId k (Some mid) after →
  rowKept userId k before after.
Proof.
  unfold rowKept. destruct before as [row|]; intros H1 H2.
  - destruct H1 as (? & ? & ? & ?), H2 as (? & ? & ? & ?). repeat split; congruence.
  - destruct H1 as (? & ? & ?), H2 as (? & ? & ? & ?). repeat split; congruence.
Qed.

Lemma upsertAll_cons (rowId : string -> string) (userId : string)
    (result : EmailClassificationResult.t)
    (rest : list EmailClassificationResult.t) (db : ClassificationTable) :
  let row := upsertRow rowId userId result db in
  let next := upsertAll rowId userId rest
                (<[EmailClassificationResult.id result := row]> db) in
  upsertAll rowId userId (result :: rest) db = (fst next, row :: snd next).
Proof. simpl. by destruct (upsertAll rowId userId rest _). Qed.

Lemma upsertAll_rows (rowId : string -> string) (userId : string)
    (results : list EmailClassificationResult.t) :
  ∀ (db : ClassificationTable) k after,
    fst (upsertAll rowId userId results db) !! k = Some after →
    db !! k = Some after
    ∨ (k ∈ EmailClassificationResult.id <$> results
       ∧ rowKept userId k (db !! k) after).
Proof.
  induction results as [|result rest IH]; intros db k after Hafter; [by left |].
  rewrite upsertAll_cons in Hafter. simpl in Hafter.
  apply IH in Hafter.
  destruct (decide (k = EmailClassificationResult.id result)) as [-> | Hne].
  - right. split; [apply elem_of_cons; by left |].
    rewrite lookup_insert_eq in Hafter.
    destruct Hafter as [Hsame | [_ Hkept]].
    + injection Hsame as <-. apply upsertRow_kept.
    + eapply rowKept_trans; [apply upsertRow_kept | exact Hkept].
  - rewrite lookup_insert_ne in Hafter by done.
    destruct Hafter as [Hsame | [Hin Hkept]]; [by left |].
    right. split; [apply elem_of_cons; by right | exact Hkept].
Qed.

Lemma upsertAll_keeps (rowId : string -> string) (userId : string)
    (results : list EmailClassificationResult.t) :
  ∀ (db : ClassificationTable) k,
    is_Some (db !! k) → is_Some (fst (upsertAll rowId userId results db) !! k).
Proof.
  induction results as [|result rest IH]; intros db k Hk; [done |].
  rewrite upsertAll_cons. simpl. apply IH.
  destruct (decide (k = EmailClassificationResult.id result)) as [-> | Hne].
  - rewrite lookup_insert_eq. eauto.
  - by rewrite lookup_insert_ne.
Qed.

Lemma upsertRow_emailId (rowId : string -> string) (userId : string)
    (result : EmailClassificationResult.t) (db : ClassificationTable) :
  tableOk db →
  EmailClassification.emailId (upsertRow rowId userId result db)
  = EmailClassificationResult.id result.
Proof.
  intros Hok. unfold upsertRow.
  destruct (db !! EmailClassificationResult.id result) as [row|] eqn:Hrow; simpl.
  - by apply Hok.
  - reflexivity.
Qed.

Lemma upsertAll_tableOk (rowId : string -> string) (userId : string)
    (results : list EmailClassificationResult.t) :
  ∀ db : ClassificationTable,
    tableOk db →
    tableOk (fst (upsertAll rowId userId results db))
    ∧ ∀ row, row ∈ snd (upsertAll rowId userId results db) →
             EmailClassification.emailId row
               ∈ EmailClassificationResult.id <$> results.
Proof.
  induction results as [|result rest IH]; intros db Hok.
  - split; [done |]. intros row Hrow. by apply elem_of_nil in Hrow.
  - rewrite upsertAll_cons. simpl.
    assert (Hok1 : tableOk (<[EmailClassificationResult.id result :=
                                upsertRow rowId userId result db]> db)).
    { intros k row Hk.
      destruct (decide (k = EmailClassificationResult.id result)) as [-> | Hne].
      - rewrite lookup_insert_eq in Hk. injection Hk as <-.
        by apply upsertRow_emailId.
      - rewrite lookup_insert_ne in Hk by done. by apply Hok. }
    destruct (IH _ Hok1) as [Hok' Hsaved]. split; [exact Hok' |].
    intros row Hrow. apply elem_of_cons in Hrow as [-> | Hrow].
    + rewrite upsertRow_emailId by done. apply elem_of_cons. by left.
    + apply elem_of_cons. right. by apply Hsaved.
Qed.

(** The table [postClassifications] leaves is the given one, or the one
    the upserts of some results leave. *)
Lemma postClassifications_table_cases (rowId : string -> string)
    (gemini : list EmailForAI.t -> option (list string) -> GeminiReply)
    (userEmail : option string) (emails : option (list EmailForAI.t))
    (existingEmailIds : option (list string)) (db : ClassificationTable) :
  snd (postClassifications rowId gemini userEmail emails existingEmailIds db) = db
  ∨ ∃ results,
      snd (postClassifications rowId gemini userEmail emails existingEmailIds db)
      = fst (upsertAll rowId (default "" userEmail) results db).
Proof.
  unfold postClassifications.
  destruct (negb (truthy userEmail)); [by left |].
  destruct emails as [l|]; [| by left].
  destruct (Z.of_nat (length l) =? 0); [by left |].
  destruct (Z.of_nat (length (List.filter _ _)) =? 0); [by left |].
  destruct (classifyEmailsBatch _ _) as [results | message]; [| by left].
  right. exists results.
  by destruct (upsertAll rowId (default "" userEmail) results db).
Qed.

(** X27: what [POST /api/classifications] can do to the table, whatever
    the model answers.  No row is deleted; a row that was there keeps its
    [isManual] flag, its owner, its [id] and its [emailId] (only the
    classification fields can be rewritten); a row that was not there is
    created as an automatic one ([isManual = false]) owned by the caller;
    and every row stays stored under its own [emailId]. *)
Theorem postClassifications_table_effect (rowId : string -> string)
    (gemini : list EmailForAI.t -> option (list string) -> GeminiReply)
    (userEmail : option string) (emails : option (list EmailForAI.t))
    (existingEmailIds : option (list string)) (db : ClassificationTable) :
  let db' := snd (postClassifications rowId gemini userEmail emails
                    existingEmailIds db) in
  (∀ k row, db !! k = Some row →
     ∃ row', db' !! k = Some row'
       ∧ EmailClassification.isManual row' = EmailClassification.isManual row
       ∧ EmailClassification.userId row' = EmailClassification.userId row
       ∧ EmailClassification.id row' = EmailClassification.id row
       ∧ EmailClassification.emailId row' = EmailClassification.emailId row)
  ∧ (∀ k row', db !! k = None → db' !! k = Some row' →
       EmailClassification.isManual row' = false
       ∧ EmailClassification.userId row' = default "" userEmail
       ∧ EmailClassification.emailId row' = k)
  ∧ (tableOk db → tableOk db').
Proof.
  intros db'. subst db'.
  destruct (postClassifications_table_cases rowId gemini userEmail emails
              existingEmailIds db) as [-> | [results ->]].
  - split; [eauto 10 |]. split; [| done]. intros k row' Hnone Hsome. congruence.
  - split; [| split].
    + intros k row Hrow.
      destruct (upsertAll_keeps rowId (default "" userEmail) results db k)
        as [row' Hrow']; [eauto |].
      exists row'. split; [done |].
      apply upsertAll_rows in Hrow' as [Hsame | [_ Hkept]].
      * by replace row' with row by congruence.
      * rewrite Hrow in Hkept. exact Hkept.
    + intros k row' Hnone Hrow'.
      apply upsertAll_rows in Hrow' as [Hsame | [_ Hkept]]; [congruence |].
      rewrite Hnone in Hkept. exact Hkept.
    + intros Hok. by apply upsertAll_tableOk.
Qed.

Lemma postClassifications_signed_in (rowId : string -> string)
    (gemini : list EmailForAI.t -> option (list string) -> GeminiReply)
    (user : string) (l : list EmailForAI.t)
    (existingEmailIds : option (list string)) (db : ClassificationTable) :
  user ≠ "" → l ≠ [] →
  let existing := findManyFor user (map EmailForAI.id (take 30 l)) db in
  let newEmails :=
    List.filter
      (fun e => negb (bool_decide
                        (EmailForAI.id e
                           ∈ (list_to_set (map EmailClassification.emailId existing)
                              : gset string))))
      (take 30 l) in
  postClassifications rowId gemini (Some user) (Some l) existingEmailIds db
  = if Z.of_nat (length newEmails) =? 0
    then (Classified (toClassificationMap existing) true, db)
    else match classifyEmailsBatch (gemini newEmails existingEmailIds) newEmails with
         | inr message => (ErrorJson 500 (getErrorMessage message), db)
         | inl results =>
             (Classified
                (toClassificationMap
                   (existing ++ snd (upsertAll rowId user results db))%list) false,
              fst (upsertAll rowId user results db))
         end.
Proof.
  intros Huser Hl existing newEmails. unfold postClassifications.
  assert (Htruthy : truthy (Some user) = true).
  { simpl. apply negb_true_iff. by apply String.eqb_neq. }
  rewrite Htruthy. simpl negb. cbv iota.
  destruct l as [|e0 l0]; [done |].
  change (Z.of_nat (length (e0 :: l0)) =? 0) with false. cbv iota. simpl default.
  fold existing. fold newEmails.
  destruct (Z.of_nat (length newEmails) =? 0); [done |].
  destruct (classifyEmailsBatch _ _) as [results | message]; [| done].
  by destruct (upsertAll rowId user results db).
Qed.

Lemma classifyEmailsBatch_ids_requested
    (gemini : list EmailForAI.t -> option (list string) -> GeminiReply)
    (requested : list EmailForAI.t) (known : option (list string))
    (results : list EmailClassificationResult.t) (k : string) :
  answersWithinRequest gemini →
  (∀ e, e ∈ requested → EmailForAI.id e ≠ "") →
  classifyEmailsBatch (gemini requested known) requested = inl results →
  k ∈ EmailClassificationResult.id <$> results →
  k ∈ EmailForAI.id <$> requested.
Proof.
  intros Hwithin Hids Hres Hk. specialize (Hwithin requested known).
  unfold classifyEmailsBatch in Hres.
  destruct (gemini requested known) as [parsed | |]; [| | discriminate].
  - injection Hres as <-. rewrite assignIds_ids in Hk by done.
    by apply subseteq_take in Hk.
  - injection Hres as <-. by apply elem_of_nil in Hk.
Qed.

Lemma toClassificationMap_keys (rows : list EmailClassification.t) (k : string) :
  is_Some (toClassificationMap rows !! k) →
  k ∈ map EmailClassification.emailId rows.
Proof.
  intros Hsome. unfold toClassificationMap in Hsome.
  destruct (decide (k ∈ map EmailClassification.emailId rows)) as [Hin | Hout];
    [done |].
  rewrite mergeEntries_notin in Hsome.
  - rewrite lookup_empty in Hsome. by destruct Hsome.
  - change (map ?f ?l) with (f <$> l) in *. by rewrite <- list_fmap_compose.
Qed.

Lemma postClassifications_rows_and_keys (rowId : string -> string)
    (gemini : list EmailForAI.t -> option (list string) -> GeminiReply)
    (user : string) (l : list EmailForAI.t)
    (existingEmailIds : option (list string)) (db : ClassificationTable) :
  user ≠ "" → l ≠ [] → tableOk db →
  answersWithinRequest gemini →
  (∀ e, e ∈ l → EmailForAI.id e ≠ "") →
  let post := postClassifications rowId gemini (Some user) (Some l)
                existingEmailIds db in
  (∀ k row, db !! k = Some row → EmailClassification.userId row = user →
     snd post !! k = Some row)
  ∧ (∀ m cached k, fst post = Classified m cached → is_Some (m !! k) →
       k ∈ map EmailForAI.id (take 30 l)).
Proof.
  intros Huser Hl Hok Hwithin Hids post. subst post.
  rewrite postClassifications_signed_in by done.
  set (existing := findManyFor user (map EmailForAI.id (take 30 l)) db).
  set (newEmails := List.filter _ (take 30 l)).
  assert (Hnew : ∀ k, k ∈ EmailForAI.id <$> newEmails →
            k ∈ map EmailForAI.id (take 30 l)
            ∧ k ∉ map EmailClassification.emailId existing).
  { intros k Hk. apply list_elem_of_fmap in Hk as (e & -> & He).
    apply list_elem_of_In, filter_In in He as [He Hfresh].
    apply list_elem_of_In in He. split.
    - apply list_elem_of_In, in_map, list_elem_of_In, He.
    - apply negb_true_iff, bool_decide_eq_false in Hfresh.
      intros Hin. apply Hfresh. by apply elem_of_list_to_set. }
  assert (Hexisting : ∀ k, k ∈ map EmailClassification.emailId existing →
            k ∈ map EmailForAI.id (take 30 l)).
  { intros k Hk. by apply findManyFor_emailIds in Hk as (_ & _ & _ & ?). }
  assert (HidsNew : ∀ e, e ∈ newEmails → EmailForAI.id e ≠ "").
  { intros e He. apply Hids. apply list_elem_of_In, filter_In in He as [He _].
    apply list_elem_of_In in He. by apply (subseteq_take 30). }
  destruct (Z.of_nat (length newEmails) =? 0).
  { split; [done |]. intros m cached k Hm Hk. injection Hm as <- _.
    by apply Hexisting, toClassificationMap_keys. }
  destruct (classifyEmailsBatch (gemini newEmails existingEmailIds) newEmails)
    as [results | message] eqn:Hres.
  2: { split; [done |]. intros m cached k Hm. discriminate. }
  assert (Hresults : ∀ k, k ∈ EmailClassificationResult.id <$> results →
            k ∈ EmailForAI.id <$> newEmails).
  { intros k Hk.
    by eapply (classifyEmailsBatch_ids_requested gemini newEmails). }
  split.
  - intros k row Hrow Hu. simpl. rewrite upsertAll_other; [done |].
    intros Hk. apply Hresults, Hnew in Hk as [Hin Hfresh]. apply Hfresh.
    apply findManyFor_emailIds; [done |]. eauto.
  - intros m cached k Hm Hk. injection Hm as <- _.
    apply toClassificationMap_keys in Hk. rewrite map_app in Hk.
    apply elem_of_app in Hk as [Hk | Hk]; [by apply Hexisting |].
    apply list_elem_of_In, in_map_iff in Hk as (row & <- & Hrow).
    apply list_elem_of_In in Hrow.
    destruct (upsertAll_tableOk rowId user results db Hok) as [_ Hsaved].
    by apply Hnew, Hresults, Hsaved.
Qed.

(** X28: with a model that answers within the request and emails with
    non-empty ids, [POST /api/classifications] never rewrites a row of the
    caller: an email the caller already has a classification for, manual
    or automatic, is not sent to the model, and the row stays as it is.
    The answer only has entries for emails among the first 30 of the
    request. *)
Theorem postClassifications_keeps_user_rows (rowId : string -> string)
    (gemini : list EmailForAI.t -> option (list string) -> GeminiReply)
    (user : string) (l : list EmailForAI.t)
    (existingEmailIds : option (list string)) (db : ClassificationTable) :
  user ≠ "" → l ≠ [] → tableOk db →
  answersWithinRequest gemini →
  (∀ e, e ∈ l → EmailForAI.id e ≠ "") →
  let post := postClassifications rowId gemini (Some user) (Some l)
                existingEmailIds db in
  (∀ k row, db !! k = Some row → EmailClassification.userId row = user →
     snd post !! k = Some row)
  ∧ (∀ m cached k, fst post = Classified m cached → is_Some (m !! k) →
       k ∈ map EmailForAI.id (take 30 l)).
Proof.
  intros Huser Hl Hok Hwithin Hids.
  by apply postClassifications_rows_and_keys.
Qed.

Lemma sampleTable_ok : tableOk sampleTable.
Proof.
  intros k row Hrow. unfold sampleTable in Hrow.
  apply lookup_singleton_Some in Hrow as [<- <-]. reflexivity.
Qed.

Lemma sampleGemini_within : answersWithinRequest sampleGemini.
Proof. intros requested known. simpl. by rewrite length_map. Qed.

Lemma postClassifications_keeps_user_rows_witness :
  snd (postClassifications (fun i => "row-" +:+ i) sampleGemini
         (Some "ada@example.org")
         (Some [toEmailForAI (sampleEmail "m1"); toEmailForAI (sampleEmail "m2")])
         None sampleTable) !! "m1"
  = Some (sampleClassification "m1" "work" High false true).
Proof.
  destruct (postClassifications_keeps_user_rows (fun i => "row-" +:+ i) sampleGemini
              "ada@example.org"
              [toEmailForAI (sampleEmail "m1"); toEmailForAI (sampleEmail "m2")]
              None sampleTable) as (Hkept & _).
  - discriminate.
  - discriminate.
  - exact sampleTable_ok.
  - exact sampleGemini_within.
  - intros e He. apply elem_of_cons in He as [-> | He]; [discriminate |].
    apply elem_of_cons in He as [-> | He]; [discriminate |].
    by apply elem_of_nil in He.
  - apply Hkept; reflexivity.
Defined.

Lemma postClassifications_no_model_call_witness :
  postClassifications (fun i => "row-" +:+ i) sampleGemini (Some "ada@example.org")
    (Some [toEmailForAI (sampleEmail "m1")]) None sampleTable
  = (Classified
       (filter (fun kv => EmailClassification.userId kv.2 = "ada@example.org"
                          ∧ kv.1 ∈ map EmailForAI.id
                                     (take 30 [toEmailForAI (sampleEmail "m1")]))
          sampleTable)
       true,
     sampleTable).
Proof.
  destruct (postClassifications_no_model_call (fun i => "row-" +:+ i) sampleGemini
              (Some "ada@example.org") (Some [toEmailForAI (sampleEmail "m1")])
              None sampleTable) as (_ & _ & Hcached).
  apply (Hcached "ada@example.org" [toEmailForAI (sampleEmail "m1")]);
    try done.
  - exact sampleTable_ok.
  - intros e He. apply elem_of_cons in He as [-> | He];
      [| by apply elem_of_nil in He].
    exists (sampleClassification "m1" "work" High false true). split; reflexivity.
Defined.

(** X29: the client sends batches of up to 50 messages, the server looks
    at the first 30 emails of a request.  With a model that answers within
    the request, a message of the batch whose id is not among the first 30
    gets no classification from a successful round, and since its id stays
    in the set of sent ids no later firing of the debounce asks for it
    again. *)
Theorem batch_beyond_server_cap (rowId : string -> string)
    (gemini : list EmailForAI.t -> option (list string) -> GeminiReply)
    (user : string) (db db' : ClassificationTable) (p p1 : Pipeline.t)
    (batch : list Email.t) (ais : list EmailForAI.t) (known : list string)
    (m : ClassificationTable) (cached : bool) :
  classifyEmails_send p = (p1, Some (batch, PostClassifications ais known)) →
  user ≠ "" → tableOk db → answersWithinRequest gemini →
  (∀ e, e ∈ batch → Email.id e ≠ "") →
  postClassifications rowId gemini (Some user) (Some ais) (Some known) db
  = (Classified m cached, db') →
  let p2 := fst (classifyEmails_receive batch (ClassifyOk (map_to_list m)) p1) in
  ∀ e, e ∈ batch → Email.id e ∉ map Email.id (take 30 batch) →
    classifications (Pipeline.store p2) !! Email.id e = None
    ∧ ∀ s'', e ∉ unclassified s'' (Pipeline.classifiedIdsRef p2).
Proof.
  intros Hsend Huser Hok Hwithin Hids Hpost p2 e He Hbeyond.
  apply classifyEmails_send_Some in Hsend as (Hbatch & -> & Hreq).
  injection Hreq as -> _.
  assert (Hne : map toEmailForAI batch ≠ []).
  { destruct batch; [by apply elem_of_nil in He | discriminate]. }
  assert (Hkeys : ∀ k, is_Some (m !! k) → k ∈ map Email.id (take 30 batch)).
  { intros k Hk.
    destruct (postClassifications_rows_and_keys rowId gemini user
                (map toEmailForAI batch) (Some known) db) as (_ & Hresp); try done.
    - intros a Ha. apply list_elem_of_In, in_map_iff in Ha as (e' & <- & He').
      apply Hids. by apply list_elem_of_In.
    - specialize (Hresp m cached k). rewrite Hpost in Hresp.
      specialize (Hresp eq_refl Hk).
      change (map ?f ?l) with (f <$> l) in Hresp.
      rewrite <- fmap_take, <- list_fmap_compose in Hresp. exact Hresp. }
  assert (Hunclassified : classifications (Pipeline.store p) !! Email.id e = None).
  { rewrite Hbatch in He. apply (subseteq_take 50) in He.
    by apply elem_of_unclassified in He as (_ & ? & _). }
  split.
  - subst p2. simpl. rewrite mergeEntries_notin; [done |].
    intros Hin. apply Hbeyond, Hkeys.
    apply list_elem_of_fmap in Hin as ([k row] & -> & Hkr).
    apply elem_of_map_to_list in Hkr. simpl. eauto.
  - intros s'' Hin. apply elem_of_unclassified in Hin as (_ & _ & Hfresh).
    apply Hfresh. subst p2. simpl. rewrite addBatch_union.
    apply elem_of_union_r, elem_of_list_to_set, list_elem_of_fmap. eauto.
Qed.

Lemma batch_beyond_server_cap_witness :
  let sent := classifyEmails_send bigPipeline in
  let answer :=
    postClassifications (fun i => "row-" +:+ i) sampleGemini (Some "ada@example.org")
      (Some (map toEmailForAI bigBatch)) (Some (map Email.id bigBatch)) sampleTable in
  let m := match fst answer with Classified m _ => m | ErrorJson _ _ => ∅ end in
  let p2 := fst (classifyEmails_receive bigBatch (ClassifyOk (map_to_list m))
                   (fst sent)) in
  classifications (Pipeline.store p2) !! "31" = None
  ∧ sampleEmail "31" ∉ unclassified (Pipeline.store p2) (Pipeline.classifiedIdsRef p2).
Proof.
  intros sent answer m p2.
  assert (Hsend : classifyEmails_send bigPipeline
                  = (fst sent,
                     Some (bigBatch,
                           PostClassifications (map toEmailForAI bigBatch)
                             (map Email.id bigBatch)))).
  { vm_compute. reflexivity. }
  assert (Hpost : answer = (Classified m false, snd answer)).
  { vm_compute. reflexivity. }
  assert (Hids : ∀ e, e ∈ bigBatch → Email.id e ≠ "").
  { apply Forall_forall. refine (bool_decide_unpack _ _). vm_compute. exact I. }
  assert (Hin : sampleEmail "31" ∈ bigBatch).
  { apply list_elem_of_In, in_map_iff. exists 31%nat.
    split; [reflexivity | apply in_seq; lia]. }
  assert (Hbeyond : Email.id (sampleEmail "31") ∉ map Email.id (take 30 bigBatch)).
  { refine (bool_decide_unpack _ _). vm_compute. exact I. }
  destruct (batch_beyond_server_cap (fun i => "row-" +:+ i) sampleGemini
              "ada@example.org" sampleTable (snd answer) bigPipeline (fst sent)
              bigBatch (map toEmailForAI bigBatch) (map Email.id bigBatch) m false
              Hsend ltac:(discriminate) sampleTable_ok sampleGemini_within Hids Hpost
              (sampleEmail "31") Hin Hbeyond) as (Hnone & Hnever).
  split; [exact Hnone | apply Hnever].
Defined.

Lemma splitComma_nonempty (s : string) : splitComma s ≠ [].
Proof.
  induction s as [|c rest IH]; simpl; [done |].
  destruct (Ascii.eqb c ","%char); [done |]. by destruct (splitComma rest).
Qed.

Lemma splitComma_piece (x rest : string) :
  hasComma x = false →
  splitComma (x ++ String ","%char rest)%string = x :: splitComma rest.
Proof.
  induction x as [|c x IH]; simpl; intros Hx; [done |].
  apply orb_false_iff in Hx as [Hc Hx]. rewrite Hc, (IH Hx). done.
Qed.

Lemma splitComma_single (x : string) :
  hasComma x = false → splitComma x = [x].
Proof.
  induction x as [|c x IH]; simpl; intros Hx; [done |].
  apply orb_false_iff in Hx as [Hc Hx]. by rewrite Hc, (IH Hx).
Qed.

Lemma splitComma_concat (l : list string) :
  l ≠ [] → (∀ x, x ∈ l → hasComma x = false) →
  splitComma (String.concat "," l) = l.
Proof.
  induction l as [|x l IH]; intros Hne Hall; [done |].
  assert (Hx : hasComma x = false) by (apply Hall, elem_of_cons; by left).
  destruct l as [|y l].
  - simpl. by apply splitComma_single.
  - change (String.concat "," (x :: y :: l))
      with (x ++ String ","%char (String.concat "," (y :: l)))%string.
    rewrite splitComma_piece by done. f_equal. apply IH; [done |].
    intros z Hz. apply Hall, elem_of_cons. by right.
Qed.

Lemma splitComma_onlyCommas (raw : string) :
  onlyCommas raw = true →
  List.filter (fun i => negb (String.eqb i "")) (splitComma raw) = [].
Proof.
  induction raw as [|c rest IH]; simpl; intros H; [reflexivity |].
  apply andb_true_iff in H as [Hc Hrest]. rewrite Hc. simpl. by apply IH.
Qed.

Lemma splitComma_other (raw : string) :
  onlyCommas raw = false →
  List.filter (fun i => negb (String.eqb i "")) (splitComma raw) ≠ [].
Proof.
  induction raw as [|c rest IH]; simpl; intros H; [discriminate |].
  destruct (Ascii.eqb c ","%char); simpl in *.
  - by apply IH.
  - by destruct (splitComma rest).
Qed.

(** X30: [GET /api/classifications?ids=a,b,c] for a signed-in user answers
    with exactly the rows of that user whose [emailId] is one of the ids
    between the commas: a row of another user is never in the answer, an
    id without a row is simply absent.  Without a user the answer is 401;
    without the parameter, and with a parameter that holds nothing but
    commas (the empty one included), it is 400, and with any other
    parameter it is a map of classifications. *)
Theorem getClassifications_spec (userEmail : option string) (db : ClassificationTable) :
  (truthy userEmail = false →
     ∀ idsParam, getClassifications userEmail idsParam db
                 = ErrorJson 401 "Unauthorized")
  ∧ (truthy userEmail = true →
     getClassifications userEmail None db = ErrorJson 400 "Missing email IDs"
     ∧ (∀ raw, onlyCommas raw = true →
               getClassifications userEmail (Some raw) db
               = ErrorJson 400 "Missing email IDs")
     ∧ (∀ raw, onlyCommas raw = false →
               ∃ m, getClassifications userEmail (Some raw) db = Classified m false)
     ∧ getClassifications userEmail (Some "") db = ErrorJson 400 "Missing email IDs"
     ∧ getClassifications userEmail (Some ",,") db
       = ErrorJson 400 "Missing email IDs")
  ∧ (∀ user ids,
       userEmail = Some user → user ≠ "" → tableOk db → ids ≠ [] →
       (∀ i, i ∈ ids → i ≠ "" ∧ hasComma i = false) →
       ∃ m, getClassifications userEmail (Some (String.concat "," ids)) db
            = Classified m false
            ∧ ∀ k row, m !! k = Some row
                       ↔ db !! k = Some row
                         ∧ EmailClassification.userId row = user ∧ k ∈ ids).
Proof.
  split; [| split].
  - intros Hno idsParam. unfold getClassifications. by rewrite Hno.
  - intros Hyes.
    assert (Hcommas : ∀ raw, onlyCommas raw = true →
              getClassifications userEmail (Some raw) db
              = ErrorJson 400 "Missing email IDs").
    { intros raw Hraw. unfold getClassifications. rewrite Hyes. simpl.
      by rewrite (splitComma_onlyCommas raw Hraw). }
    split; [unfold getClassifications; by rewrite Hyes |].
    split; [exact Hcommas |].
    split.
    { intros raw Hraw. unfold getClassifications. rewrite Hyes. simpl.
      pose proof (splitComma_other raw Hraw) as Hne.
      destruct (List.filter _ (splitComma raw)) as [|i ids]; [done |].
      eexists. reflexivity. }
    split; by apply Hcommas.
  - intros user ids -> Huser Hok Hne Hids. unfold getClassifications.
    assert (Htruthy : truthy (Some user) = true).
    { simpl. apply negb_true_iff. by apply String.eqb_neq. }
    rewrite Htruthy. simpl negb. cbv iota.
    rewrite splitComma_concat by (done || intros i Hi; by apply Hids).
    rewrite list_filter_all.
    2: { intros i Hi. apply negb_true_iff, String.eqb_neq. by apply Hids. }
    destruct ids as [|i0 ids0]; [done |].
    change (Z.of_nat (length (i0 :: ids0)) =? 0) with false. cbv iota.
    eexists. split; [reflexivity |].
    intros k row. simpl default. rewrite toClassificationMap_findManyFor by done.
    rewrite map_lookup_filter_Some. simpl. tauto.
Qed.

Lemma getClassifications_spec_witness :
  ∃ m, getClassifications (Some "ada@example.org") (Some "m1,m2") sampleTable
       = Classified m false
       ∧ m !! "m1" = Some (sampleClassification "m1" "work" High false true)
       ∧ m !! "m2" = None.
Proof.
  destruct (getClassifications_spec (Some "ada@example.org") sampleTable)
    as (_ & _ & Hok).
  destruct (Hok "ada@example.org" ["m1"; "m2"]) as (m & Hget & Hrows); try done.
  - exact sampleTable_ok.
  - intros i Hi. apply elem_of_cons in Hi as [-> | Hi]; [done |].
    apply elem_of_cons in Hi as [-> | Hi]; [done |]. by apply elem_of_nil in Hi.
  - exists m. split; [exact Hget |]. split.
    + apply Hrows. split; [reflexivity |]. split; [reflexivity |].
      apply elem_of_cons. by left.
    + destruct (m !! "m2") as [row|] eqn:Hrow; [| done].
      apply Hrows in Hrow as (Habs & _). discriminate Habs.
Defined.

(** * The Escape key on the mounted list *)

Lemma detailHandleKeyDown_close (e : KeyboardEvent.t) (v : ListView.t) :
  isClose e →
  detailHandleKeyDown true e v = withUI (closeDetailPanel (ListView.uiStore v)) v
  ∧ detailHandleKeyDown false e v = v.
Proof.
  intros [_ Hkey]. unfold detailHandleKeyDown, keyIs. rewrite Hkey. done.
Qed.

(** C7: one Escape does not always do one thing.  [EmailDetail] has its
    own listener for the key, and [EmailList]'s handler reads the stores
    as that listener left them.  With the panel open and the listeners in
    the order they have once the body of the opened message has loaded,
    one Escape closes the panel and, in the same event, empties a
    non-empty selection, or clears the active id when nothing is checked;
    a second Escape then clears the active id, so the sequence of the three
    closes takes two events.  In the other order, the one right after the
    panel was opened, one Escape closes the panel and nothing else. *)
Theorem escape_reaches_both_listeners (isoAfter : DateRange -> string)
    (shown : list Email.t) (e : KeyboardEvent.t) (v : ListView.t) :
  isClose e →
  UIState.detailPanelOpen (ListView.uiStore v) = true →
  let store := ListView.store v in
  let closed := withUI (closeDetailPanel (ListView.uiStore v)) v in
  let after := fst (dispatchKeyDown isoAfter (listenersAfterBodyLoaded shown) e v) in
  let after2 :=
    fst (dispatchKeyDown isoAfter [EmailListListener shown; EmailDetailListener false]
           e after) in
  UIState.detailPanelOpen (ListView.uiStore after) = false
  ∧ (selectedEmailIds store ≠ ∅ →
       after = forceRender (withStore (clearSelection store) closed)
       ∧ selectedEmailIds (ListView.store after) = ∅
       ∧ selectedEmailId (ListView.store after) = selectedEmailId store
       ∧ selectedEmailId (ListView.store after2) = None
       ∧ selectedEmailIds (ListView.store after2) = ∅
       ∧ UIState.detailPanelOpen (ListView.uiStore after2) = false)
  ∧ (selectedEmailIds store = ∅ →
       after = forceRender (withStore (selectEmail None store) closed)
       ∧ selectedEmailId (ListView.store after) = None)
  ∧ dispatchKeyDown isoAfter (listenersAfterOpen shown) e v = (forceRender closed, []).
Proof.
  intros He Hopen store closed after after2.
  destruct (detailHandleKeyDown_close e v He) as [Hdetail _].
  assert (Hafter : after
            = if 0 <? Z.of_nat (size (selectedEmailIds store))
              then forceRender (withStore (clearSelection store) closed)
              else forceRender (withStore (selectEmail None store) closed)).
  { subst after. unfold listenersAfterBodyLoaded. simpl. rewrite Hdetail.
    rewrite (handleKeyDown_close isoAfter shown e _ He). simpl.
    by destruct (0 <? _). }
  split; [rewrite Hafter; by destruct (0 <? _) |].
  split; [| split].
  - intros Hsel.
    assert (Hfirst : after = forceRender (withStore (clearSelection store) closed)).
    { rewrite Hafter, size_pos_bool. by rewrite bool_decide_eq_true_2. }
    split; [exact Hfirst |].
    assert (Hsecond : after2
              = forceRender (withStore (selectEmail None (ListView.store after)) after)).
    { subst after2. simpl.
      rewrite (handleKeyDown_close isoAfter shown e after He).
      assert (Hclosed : UIState.detailPanelOpen (ListView.uiStore after) = false)
        by (by rewrite Hfirst).
      assert (Hnone : (0 <? Z.of_nat (size (selectedEmailIds (ListView.store after))))
                      = false).
      { rewrite size_pos_bool. apply bool_decide_eq_false_2.
        rewrite Hfirst. intros H. by apply H. }
      rewrite Hclosed, Hnone. simpl.
      by destruct (detailHandleKeyDown_close e
                     (forceRender
                        (withStore (selectEmail None (ListView.store after)) after))
                     He) as [_ ->]. }
    rewrite Hsecond, Hfirst. done.
  - intros Hsel. rewrite Hafter, size_pos_bool.
    rewrite bool_decide_eq_false_2 by (intros H; by apply H). done.
  - unfold listenersAfterOpen. simpl.
    rewrite (handleKeyDown_close isoAfter shown e v He), Hopen. simpl.
    destruct (detailHandleKeyDown_close e
                (forceRender (withUI (closeDetailPanel (ListView.uiStore v)) v)) He)
      as [-> _].
    subst closed. by destruct v as [s [a b c d] i n].
Qed.

Lemma escape_reaches_both_listeners_witness :
  let v := openedAndChecked in
  let shown := emails (ListView.store v) in
  let after :=
    fst (dispatchKeyDown sampleClock (listenersAfterBodyLoaded shown)
           (keyPress "Escape") v) in
  UIState.detailPanelOpen (ListView.uiStore v) = true
  ∧ selectedEmailIds (ListView.store v) ≠ ∅
  ∧ selectedEmailId (ListView.store v) = Some "B"
  ∧ UIState.detailPanelOpen (ListView.uiStore after) = false
  ∧ selectedEmailIds (ListView.store after) = ∅
  ∧ selectedEmailId (ListView.store after) = Some "B".
Proof.
  intros v shown after.
  assert (Hsel : selectedEmailIds (ListView.store v) ≠ ∅).
  { refine (bool_decide_unpack _ _). vm_compute. exact I. }
  destruct (escape_reaches_both_listeners sampleClock shown (keyPress "Escape") v)
    as (Hclosed & Hboth & _).
  - split; reflexivity.
  - reflexivity.
  - destruct (Hboth Hsel) as (_ & Hempty & Hactive & _).
    split; [reflexivity |]. split; [exact Hsel |]. split; [reflexivity |].
    split; [exact Hclosed |]. split; [exact Hempty |].
    transitivity (selectedEmailId (ListView.store v)); [exact Hactive | reflexivity].
Defined.
